(** * Peppol status update: the status resolver, the matcher and the report run

    A shallow embedding of the reconciliation script (configuration, XML field
    extraction, [StatusResolver], [BusinessStatusManager] and
    [InvoiceReportGenerator]) and the properties its specification states.

    Conventions of the embedding:
    - a JavaScript string is a [string] (its UTF-8 bytes); a property that
      may be [undefined] or [null] is an [option] where the program treats
      the two alike, and a [JS.Nullable] where it reads a property of the
      value, since the error of the engine names which of the two it met;
    - a [Date] is its time value in milliseconds since the epoch, [None]
      being the Invalid Date (time value NaN);
    - a Number that the program only produces as an integer is a [Z], and
      [None] stands for NaN where NaN can arise; where the program computes
      with a Number that is handed to it, the result is rounded as a double
      is ([JS.to_double]);
    - the methods of [PeppolApiService] and [Math.random] are the boundary of
      the embedding: their answers come from a [Remote] oracle indexed by the
      number of calls made so far, and every call is appended to a log; the
      same oracle holds the text of the engine's TypeErrors and whether the
      report directory and the report file can be written;
    - what is printed and what the report file holds is left out; that
      printing or writing throws is not. *)

From Stdlib Require Import ZArith Lia String Ascii List Sorting.Sorted.
From stdpp Require Import base option list gmap strings.

Local Open Scope string_scope.
Local Open Scope list_scope.
Local Open Scope Z_scope.

(** ** Built-ins of the host language *)

Module JS.

(** [v || d] for a string-valued property that may be missing: the empty
    string, [undefined] and [null] are falsy. *)
Definition truthy (v : option string) : bool :=
  match v with
  | Some s => negb (String.eqb s "")
  | None => false
  end.

Definition or_else (v : option string) (d : string) : string :=
  match v with
  | Some s => if String.eqb s "" then d else s
  | None => d
  end.

(** A Number as far as the program computes with it: an integer, or NaN. *)
Definition Number := option Z.

(** [SortCompare]: a comparator result that is NaN counts as [+0]. *)
Definition sort_key {A} (comparefn : A -> A -> Number) (x y : A) : Z :=
  match comparefn x y with
  | Some v => v
  | None => 0
  end.

(** [Array.prototype.sort(comparefn)].  ECMAScript fixes the result for a
    consistent comparator: the stable sorted arrangement.  The embedding is
    the stable insertion sort, which is that arrangement; for an
    inconsistent comparator the order is implementation-defined. *)
Fixpoint sort_insert {A} (comparefn : A -> A -> Number) (x : A) (l : list A) : list A :=
  match l with
  | [] => [x]
  | y :: l' =>
      if sort_key comparefn x y <=? 0 then x :: y :: l'
      else y :: sort_insert comparefn x l'
  end.

Fixpoint sort {A} (comparefn : A -> A -> Number) (l : list A) : list A :=
  match l with
  | [] => []
  | x :: l' => sort_insert comparefn x (sort comparefn l')
  end.

(** [x] may stand before [y] in the sorted array. *)
Definition before {A} (comparefn : A -> A -> Number) (x y : A) : Prop :=
  sort_key comparefn x y <= 0.

(** A comparator is consistent on a list when, on its elements, [before]
    is total and transitive. *)
Definition consistentOn {A} (comparefn : A -> A -> Number) (l : list A) : Prop :=
  (forall x y, x ∈ l -> y ∈ l -> before comparefn x y \/ before comparefn y x) /\
  (forall x y z, x ∈ l -> y ∈ l -> z ∈ l ->
     before comparefn x y -> before comparefn y z -> before comparefn x z).

(** The same, decided on the elements of the list. *)
Definition consistentOnb {A} (comparefn : A -> A -> Number) (l : list A) : bool :=
  forallb (fun x => forallb (fun y =>
    (sort_key comparefn x y <=? 0) || (sort_key comparefn y x <=? 0)) l) l &&
  forallb (fun x => forallb (fun y => forallb (fun z =>
    implb ((sort_key comparefn x y <=? 0) && (sort_key comparefn y z <=? 0))
          (sort_key comparefn x z <=? 0)) l) l) l.

(** [new Map(entries)]: the entries are set in order, so a later entry
    with the same key replaces an earlier one.  A key is a JavaScript
    value; here a string or [undefined]. *)
Definition Map_new {V} (entries : list (option string * V)) : gmap (option string) V :=
  fold_left (fun m kv => <[kv.1 := kv.2]> m) entries ∅.

Definition Map_has {V} (m : gmap (option string) V) (k : option string) : bool :=
  bool_decide (is_Some (m !! k)).

Definition Map_get {V} (m : gmap (option string) V) (k : option string) : option V :=
  m !! k.

(** *** The one regular expression of the program

    [xml.match(new RegExp(`<cbc:${tag}>([^<]+)</cbc:${tag}>`))]: at the
    first position where the opening tag is followed by a non-empty run of
    characters other than [<] and then by the closing tag, the run is
    captured.  The run is greedy and must be followed by [<], so at each
    start position there is one candidate only. *)
Fixpoint drop_string (n : nat) (s : string) : string :=
  match n, s with
  | O, _ => s
  | S n', String _ s' => drop_string n' s'
  | S _, EmptyString => EmptyString
  end.

Fixpoint span_not_lt (s : string) : string * string :=
  match s with
  | EmptyString => (EmptyString, EmptyString)
  | String c s' =>
      if Ascii.eqb c "<"%char then (EmptyString, s)
      else let '(run, rest) := span_not_lt s' in (String c run, rest)
  end.

Definition match_here (open close s : string) : option string :=
  if String.prefix open s then
    let '(run, rest) := span_not_lt (drop_string (String.length open) s) in
    if negb (String.eqb run "") && String.prefix close rest then Some run else None
  else None.

Fixpoint match_first (open close s : string) : option string :=
  match match_here open close s with
  | Some run => Some run
  | None =>
      match s with
      | EmptyString => None
      | String _ s' => match_first open close s'
      end
  end.

(** [needle] occurs somewhere in [s]. *)
Fixpoint occurs_in (needle s : string) : bool :=
  String.prefix needle s ||
  match s with
  | EmptyString => false
  | String _ s' => occurs_in needle s'
  end.

(** *** [parseInt(s, 10)]

    Leading white space is skipped, a sign is read, then the longest run of
    decimal digits; NaN when the run is empty.  The value is the integer the
    digits denote, which is the Number [parseInt] returns as long as it is
    a safe integer (below 2^53 in magnitude). *)
Definition white_space_prefixes : list string :=
  [ String (ascii_of_nat 9) ""; String (ascii_of_nat 10) "";
    String (ascii_of_nat 11) ""; String (ascii_of_nat 12) "";
    String (ascii_of_nat 13) ""; " ";
    String (ascii_of_nat 194) (String (ascii_of_nat 160) "");
    String (ascii_of_nat 239) (String (ascii_of_nat 187) (String (ascii_of_nat 191) ""));
    String (ascii_of_nat 225) (String (ascii_of_nat 154) (String (ascii_of_nat 128) ""));
    String (ascii_of_nat 226) (String (ascii_of_nat 128) (String (ascii_of_nat 128) ""));
    String (ascii_of_nat 226) (String (ascii_of_nat 128) (String (ascii_of_nat 129) ""));
    String (ascii_of_nat 226) (String (ascii_of_nat 128) (String (ascii_of_nat 130) ""));
    String (ascii_of_nat 226) (String (ascii_of_nat 128) (String (ascii_of_nat 131) ""));
    String (ascii_of_nat 226) (String (ascii_of_nat 128) (String (ascii_of_nat 132) ""));
    String (ascii_of_nat 226) (String (ascii_of_nat 128) (String (ascii_of_nat 133) ""));
    String (ascii_of_nat 226) (String (ascii_of_nat 128) (String (ascii_of_nat 134) ""));
    String (ascii_of_nat 226) (String (ascii_of_nat 128) (String (ascii_of_nat 135) ""));
    String (ascii_of_nat 226) (String (ascii_of_nat 128) (String (ascii_of_nat 136) ""));
    String (ascii_of_nat 226) (String (ascii_of_nat 128) (String (ascii_of_nat 137) ""));
    String (ascii_of_nat 226) (String (ascii_of_nat 128) (String (ascii_of_nat 138) ""));
    String (ascii_of_nat 226) (String (ascii_of_nat 128) (String (ascii_of_nat 168) ""));
    String (ascii_of_nat 226) (String (ascii_of_nat 128) (String (ascii_of_nat 169) ""));
    String (ascii_of_nat 226) (String (ascii_of_nat 128) (String (ascii_of_nat 175) ""));
    String (ascii_of_nat 226) (String (ascii_of_nat 129) (String (ascii_of_nat 159) ""));
    String (ascii_of_nat 227) (String (ascii_of_nat 128) (String (ascii_of_nat 128) "")) ].

Definition white_space_at (s : string) : option nat :=
  String.length <$> List.find (fun w => String.prefix w s) white_space_prefixes.

(** The fuel is the length of the string: each round drops at least one
    byte. *)
Fixpoint skip_white_space (fuel : nat) (s : string) : string :=
  match fuel with
  | O => s
  | S fuel' =>
      match white_space_at s with
      | Some n => skip_white_space fuel' (drop_string n s)
      | None => s
      end
  end.

Definition digit_value (c : ascii) : option Z :=
  let n := Z.of_nat (nat_of_ascii c) in
  if (48 <=? n) && (n <=? 57) then Some (n - 48) else None.

Fixpoint read_digits (acc : option Z) (s : string) : option Z :=
  match s with
  | EmptyString => acc
  | String c s' =>
      match digit_value c with
      | Some d => read_digits (Some (10 * default 0 acc + d)) s'
      | None => acc
      end
  end.

Definition parseInt (s : string) : Number :=
  let t := skip_white_space (String.length s) s in
  match t with
  | String "-" t' => Z.opp <$> read_digits None t'
  | String "+" t' => read_digits None t'
  | _ => read_digits None t
  end.

Definition isNaN (n : Number) : bool :=
  match n with
  | Some _ => false
  | None => true
  end.

(** *** Doubles

    The double nearest to an integer, a tie going to the even significand:
    the Number that an exact result is rounded to.  Integers of magnitude up
    to 2^53 are doubles themselves; beyond, the doubles are the multiples of
    the unit in the last place, a power of two.  (The integers at hand stay
    within the range of the finite doubles.) *)
Definition to_double (x : Z) : Z :=
  if Z.abs x <=? 2 ^ 53 then x
  else
    let ulp := 2 ^ (Z.log2 (Z.abs x) - 52) in
    let q := Z.abs x / ulp in
    let r := Z.abs x mod ulp in
    let q' := if (2 * r <? ulp) || ((2 * r =? ulp) && Z.even q) then q else q + 1 in
    Z.sgn x * (q' * ulp).

(** [x - y] on two Numbers that are integers. *)
Definition Number_sub (x y : Z) : Z := to_double (x - y).

(** *** Values without properties

    [undefined] and [null]: to read a property of either throws a
    TypeError, whose message says which of the two it was. *)
Inductive Nullish : Type := undefined | null.

(** A value of which the program reads a property: an object (or another
    value that has properties), or one of the two that have none. *)
Inductive Nullable (A : Type) : Type :=
| Object (a : A)
| Nothing (n : Nullish).
Arguments Object {A} a.
Arguments Nothing {A} n.

(** What the program does with a value when the engine finds that it has
    no properties: it reads a property ([v.p]), or takes properties out of
    it by a pattern ([const { p, ... } = v]: the first property and the
    text of [v] are what the engine may name). *)
Inductive Access : Type :=
| Read (property : string)
| Destructure (property source : string).

End JS.

(** ** Time values and calendar fields (ECMAScript, Date objects) *)

Module EcmaDate.

(** A Date object: its time value, or [None] for the Invalid Date. *)
Definition Date := option Z.

Definition msPerDay : Z := 86400000.

Definition Day (t : Z) : Z := t / msPerDay.

(** The civil date (year, month 1..12, day of month) of a day number
    counted from 1970-01-01, in the proleptic Gregorian calendar. *)
Definition civil_from_days (z : Z) : Z * Z * Z :=
  let z := z + 719468 in
  let era := z / 146097 in
  let doe := z - era * 146097 in
  let yoe := (doe - doe / 1460 + doe / 36524 - doe / 146096) / 365 in
  let doy := doe - (365 * yoe + yoe / 4 - yoe / 100) in
  let mp := (5 * doy + 2) / 153 in
  let d := doy - (153 * mp + 2) / 5 + 1 in
  let m := if mp <? 10 then mp + 3 else mp - 9 in
  (yoe + era * 400 + (if m <=? 2 then 1 else 0), m, d).

Definition days_from_civil (y m d : Z) : Z :=
  let y := if m <=? 2 then y - 1 else y in
  let era := y / 400 in
  let yoe := y - era * 400 in
  let doy := (153 * (if 2 <? m then m - 3 else m + 9) + 2) / 5 + d - 1 in
  let doe := yoe * 365 + yoe / 4 - yoe / 100 + doy in
  era * 146097 + doe - 719468.

Definition YearFromTime (t : Z) : Z := (civil_from_days (Day t)).1.1.
(** Months are numbered from 0, as [getMonth] returns them. *)
Definition MonthFromTime (t : Z) : Z := (civil_from_days (Day t)).1.2 - 1.
Definition DateFromTime (t : Z) : Z := (civil_from_days (Day t)).2.

(** [MakeDay(year, month, date)]: the day number of the first of the
    month, plus [date - 1]; a month outside 0..11 carries into the year. *)
Definition MakeDay (year month date : Z) : Z :=
  days_from_civil (year + month / 12) (month mod 12 + 1) 1 + date - 1.

(** [MakeFullYear]: the Date constructor reads a year 0..99 as 1900+year. *)
Definition MakeFullYear (year : Z) : Z :=
  if (0 <=? year) && (year <=? 99) then 1900 + year else year.

Definition TimeClip (t : Z) : Date :=
  if Z.abs t <=? 8640000000000000 then Some t else None.

(** [a >= b] on two Date objects compares their time values; a NaN on
    either side makes the comparison false. *)
Definition ge (a b : Date) : bool :=
  match a, b with
  | Some x, Some y => y <=? x
  | _, _ => false
  end.

(** [a - b] on two Date objects: NaN when either is invalid.  The
    difference of two time values is taken exactly; the Number it rounds to
    has the same sign. *)
Definition sub (a b : Date) : JS.Number :=
  match a, b with
  | Some x, Some y => Some (x - y)
  | _, _ => None
  end.

(** A reader of the ISO forms [YYYY-MM-DD] and [YYYY-MM-DDTHH:mm:ssZ],
    which every implementation of [Date.parse] accepts; it serves as the
    parser in the concrete runs below. *)
Definition digits_of (s : string) : option Z :=
  if String.eqb s "" then None
  else if forallb (fun c => bool_decide (is_Some (JS.digit_value c))) (list_ascii_of_string s)
  then JS.read_digits None s else None.

Definition iso_date (s : string) : option Z :=
  if (String.length s =? 10)%nat
     && String.eqb (substring 4 1 s) "-" && String.eqb (substring 7 1 s) "-" then
    y ← digits_of (substring 0 4 s);
    m ← digits_of (substring 5 2 s);
    d ← digits_of (substring 8 2 s);
    if (1 <=? m) && (m <=? 12) && (1 <=? d)
       && (d <=? days_from_civil (y + m / 12) (m mod 12 + 1) 1 - days_from_civil y m 1)
    then Some (days_from_civil y m d * msPerDay) else None
  else None.

Definition iso_time (s : string) : option Z :=
  if (String.length s =? 10)%nat
     && String.eqb (substring 0 1 s) "T" && String.eqb (substring 3 1 s) ":"
     && String.eqb (substring 6 1 s) ":" && String.eqb (substring 9 1 s) "Z" then
    h ← digits_of (substring 1 2 s);
    mi ← digits_of (substring 4 2 s);
    se ← digits_of (substring 7 2 s);
    if (h <=? 23) && (mi <=? 59) && (se <=? 59)
    then Some (((h * 60 + mi) * 60 + se) * 1000) else None
  else None.

Definition parse_iso (s : string) : Date :=
  if (String.length s =? 10)%nat then iso_date s
  else
    day ← iso_date (substring 0 10 s);
    ms ← iso_time (JS.drop_string 10 s);
    Some (day + ms).

End EcmaDate.

(** ** Data model *)

(** An inbound or outbound document, a JSON:API resource. *)
Module Doc.
Record attrs : Type := {
  transmissionId : option string;
  createdAt : string;
  technicalStatus : option string;
  businessStatus : option string
}.
Record t : Type := { id : string; attributes : attrs }.
End Doc.

(** A business-status record of an inbound document. *)
Module Status.
Record attrs : Type := {
  code : option string;
  technicalStatus : option string;
  createdAt : string
}.
Record t : Type := { attributes : attrs }.
End Status.

(** A pairing of an inbound and an outbound document.  [outbound] is what
    [Map.get] returned. *)
Module Match.
Record t : Type := {
  inbound : Doc.t;
  outbound : option Doc.t;
  transmissionId : option string
}.
End Match.

(** What a failed call throws: an [Error] with its [message]; an HTTP error
    of the client carries the response, whose body may hold JSON:API
    [errors]. *)
Module Err.
Record json_api_error : Type := { detail : option string }.
Record body : Type := { errors : option (list json_api_error) }.
Record http_response : Type := { data : option body }.
Record t : Type := { message : string; response : option http_response }.
End Err.

Inductive Outcome (A : Type) : Type :=
| Return (a : A)
| Throw (e : Err.t).
Arguments Return {A} a.
Arguments Throw {A} e.

(** The resource a status submission answers with ([response.data.data]),
    of which [sendStatus] reads [id] and [attributes.technicalStatus]. *)
Module Created.
Record attrs : Type := { technicalStatus : option string }.
Record t : Type := { id : option string; attributes : JS.Nullable attrs }.
End Created.

(** ** Configuration *)

Module CONFIG.
Definition suppliers_outbound_id : string := "ef111c85-4315-4cde-bed9-efd29f25e19c".
Definition suppliers_inbound_id : string := "330a0188-1cda-4596-9715-23ddb4c33771".
Definition ACCEPTED : string := "accepted".
Definition REJECTED : string := "rejected".
Definition finalStatuses : list string := [ACCEPTED; REJECTED].
Definition finalStatusWaitTime : Z := 30000.
End CONFIG.

(** ** The remote service and the run state *)

(** A call that leaves the process. *)
Inductive Call : Type :=
| FetchInboundDocuments (supplierId : string)
| FetchOutboundDocuments (supplierId : string)
| FetchDocumentXml (documentId : string)
| FetchInboundBusinessStatuses (documentId : string)
| SendBusinessStatus (documentId statusCode : string)
| MathRandom.

(** The answers of the outside world.  The first argument is the number of
    calls made before this one, so that any sequence of answers, also one
    that changes between two identical requests, is some [Remote]. *)
Record Remote : Type := {
  inboundDocuments : nat -> string -> Outcome (list Doc.t);
  outboundDocuments : nat -> string -> Outcome (list Doc.t);
  documentXml : nat -> string -> Outcome string;
  inboundBusinessStatuses : nat -> string -> Outcome (list Status.t);
  businessStatusCreated : nat -> string -> string -> Outcome (JS.Nullable Created.t);
  (** [Math.floor(Math.random() * 2)] is 0 *)
  randomIsLow : nat -> bool;
  (** the [message] of the TypeError of the engine *)
  typeErrorMessage : JS.Nullish -> JS.Access -> string;
  (** [fs.existsSync(dir)], and [fs.mkdirSync(dir, ...)] when it says no *)
  outputDirReady : nat -> Outcome unit;
  (** [fs.writeFileSync(filename, content, 'utf8')] *)
  reportWritten : nat -> Outcome unit
}.

(** The result of [sendStatus]. *)
Record SendResult : Type := {
  success : bool;
  statusCode : string;
  statusId : option string;
  sentTechnicalStatus : option string;
  error : option string
}.

(** The run state: the calls made so far and [this.processResults], a Map
    from document ID to an object keyed by phase. *)
Record State : Type := {
  calls : list Call;
  processResults : gmap string (gmap string SendResult)
}.

Definition initialState : State := {| calls := []; processResults := ∅ |}.

(** An [async] method: it reads and extends the state, and either returns or
    throws. *)
Definition M (A : Type) : Type := State -> Outcome A * State.

Definition ret {A} (a : A) : M A := fun st => (Return a, st).

Definition throw {A} (e : Err.t) : M A := fun st => (Throw e, st).

Definition bind {A B} (m : M A) (k : A -> M B) : M B :=
  fun st =>
    match m st with
    | (Return a, st') => k a st'
    | (Throw e, st') => (Throw e, st')
    end.

(** [try { m } catch (e) { h e }] *)
Definition try_catch {A} (m : M A) (h : Err.t -> M A) : M A :=
  fun st =>
    match m st with
    | (Return a, st') => (Return a, st')
    | (Throw e, st') => h e st'
    end.

Notation "'let*' x := m 'in' k" := (bind m (fun x => k))
  (at level 10, x pattern, m at level 100, k at level 200).
Notation "m ;; k" := (bind m (fun _ => k))
  (at level 100, k at level 200, right associativity).

(** [m] only extends the log of calls, and every status submission it
    adds is for a document that satisfies [P]. *)
Definition sendsOnly {A} (P : string -> Prop) (m : M A) : Prop :=
  forall st, exists new,
    calls (m st).2 = calls st ++ new /\
    forall documentId code, SendBusinessStatus documentId code ∈ new -> P documentId.

(** A [for (const x of xs)] loop that threads the loop-carried variables. *)
Fixpoint for_of {A S} (xs : list A) (body : S -> A -> M S) (s : S) : M S :=
  match xs with
  | [] => ret s
  | x :: xs' => let* s' := body s x in for_of xs' body s'
  end.

(** The calls are issued in list order, one per element ([xs.map] of an
    async function that awaits a single call), and the results collected. *)
Fixpoint map_async {A B} (f : A -> M B) (xs : list A) : M (list B) :=
  match xs with
  | [] => ret []
  | x :: xs' => let* y := f x in let* ys := map_async f xs' in ret (y :: ys)
  end.

(** The result of [StatusResolver.getLatestStatus]. *)
Module Latest.
Record t : Type := { code : string; technicalStatus : string }.
End Latest.

(** The result of [XmlParser.parseInvoiceDetails]; [issueDate] is a Date
    object or [null]. *)
Module Details.
Record t : Type := {
  invoiceNumber : string;
  description : string;
  issueDate : option EcmaDate.Date
}.
End Details.

(** The result of [BusinessStatusManager.analyzeDocument]. *)
Module Analysis.
Record t : Type := {
  statuses : list Status.t;
  hasFinalStatus : bool;
  existingCodes : list (option string);
  needsFinalStatus : bool;
  isComplete : bool
}.
End Analysis.

(** An entry of [analyzeAllDocuments]: the analysis of one match (the
    source spreads its fields into the entry). *)
Module Item.
Record t : Type := {
  documentId : string;
  transmissionId : option string;
  match_ : Match.t;
  analysis : Analysis.t;
  outboundBusinessState : option string
}.
End Item.

(** Arrays of status records held by reference, for the functions whose
    effect on their argument is in question. *)
Module Store.
Definition read (h : gmap nat (list Status.t)) (a : nat) : list Status.t :=
  default [] (h !! a).

(** [[...a]]: a fresh array with the elements of [a]. *)
Definition spread (h : gmap nat (list Status.t)) (a : nat)
  : nat * gmap nat (list Status.t) :=
  let b := fresh (dom h) in (b, <[b := read h a]> h).

(** [a.sort(comparefn)] sorts [a] in place and returns [a]. *)
Definition sort_in_place (comparefn : Status.t -> Status.t -> JS.Number)
    (h : gmap nat (list Status.t)) (a : nat) : nat * gmap nat (list Status.t) :=
  (a, <[a := JS.sort comparefn (read h a)]> h).
End Store.

(** ** A sample world

    Two invoices sent and received, one of them already accepted, on which
    the statements below are exercised. *)
Module Sample.

(** Central European Time, as a fixed offset. *)
Definition LocalTZA (t : Z) (isUTC : bool) : Z := 3600000.

(** A [localeCompare] that orders strings by their bytes. *)
Definition localeCompare (a b : string) : Z :=
  match String.compare a b with
  | Lt => -1
  | Eq => 0
  | Gt => 1
  end.

Definition doc (id : string) (transmissionId : option string) (createdAt : string) : Doc.t :=
  {| Doc.id := id;
     Doc.attributes :=
       {| Doc.transmissionId := transmissionId;
          Doc.createdAt := createdAt;
          Doc.technicalStatus := Some "delivered";
          Doc.businessStatus := None |} |}.

Definition in1 : Doc.t := doc "in-1" (Some "T1") "2025-11-20T09:00:00Z".
Definition in2 : Doc.t := doc "in-2" (Some "T2") "2025-11-28T08:00:00Z".
Definition in3 : Doc.t := doc "in-3" None "2025-11-29T08:00:00Z".

Definition out1 : Doc.t := doc "out-1" (Some "T1") "2025-11-20T08:59:00Z".
Definition out1b : Doc.t := doc "out-1b" (Some "T1") "2025-11-20T08:59:30Z".
Definition out2 : Doc.t := doc "out-2" (Some "T2") "2025-11-28T07:59:00Z".
Definition out3 : Doc.t := doc "out-3" (Some "") "2025-11-28T07:59:00Z".
Definition out4 : Doc.t := doc "out-4" None "2025-11-28T07:59:00Z".

Definition inboundDocs : list Doc.t := [in1; in2; in3].
Definition outboundDocs : list Doc.t := [out1; out3; out2; out1b; out4].

Definition status (code technicalStatus : option string) (createdAt : string) : Status.t :=
  {| Status.attributes :=
       {| Status.code := code;
          Status.technicalStatus := technicalStatus;
          Status.createdAt := createdAt |} |}.

Definition received : Status.t :=
  status (Some "received") (Some "delivered") "2025-11-20T10:00:00Z".
Definition accepted : Status.t :=
  status (Some "accepted") None "2025-11-21T10:00:00Z".

Definition statusesOf (documentId : string) : list Status.t :=
  if String.eqb documentId "in-1" then [received; accepted] else [].

Definition xmlOf (documentId : string) : Outcome string :=
  if String.eqb documentId "in-1" then
    Return ("<Invoice><cbc:ID>12</cbc:ID><cbc:IssueDate>2025-11-20</cbc:IssueDate>"
            +:+ "<cbc:Note>Consulting</cbc:Note></Invoice>")
  else if String.eqb documentId "in-2" then
    Return "<Invoice><cbc:ID>7</cbc:ID><cbc:Note>Hosting</cbc:Note></Invoice>"
  else Throw {| Err.message := "Request failed with status code 404"; Err.response := None |}.

Definition notAllowed : Err.t :=
  {| Err.message := "Request failed with status code 403";
     Err.response :=
       Some {| Err.data :=
                 Some {| Err.errors :=
                           Some [ {| Err.detail := Some "Cannot transition from a final status" |} ]
                      |} |} |}.

Definition created : Created.t :=
  {| Created.id := Some "st-9";
     Created.attributes := JS.Object {| Created.technicalStatus := Some "pending" |} |}.

(** The messages of V8. *)
Definition v8Message (n : JS.Nullish) (access : JS.Access) : string :=
  let value := match n with JS.undefined => "undefined" | JS.null => "null" end in
  match access with
  | JS.Read property =>
      "Cannot read properties of " +:+ value +:+ " (reading '" +:+ property +:+ "')"
  | JS.Destructure property source =>
      "Cannot destructure property '" +:+ property +:+ "' of '" +:+ source
      +:+ "' as it is " +:+ value +:+ "."
  end.

Definition remote : Remote :=
  {| inboundDocuments := fun _ _ => Return inboundDocs;
     outboundDocuments := fun _ _ => Return outboundDocs;
     documentXml := fun _ documentId => xmlOf documentId;
     inboundBusinessStatuses := fun _ documentId => Return (statusesOf documentId);
     businessStatusCreated :=
       fun _ documentId _ =>
         if String.eqb documentId "in-1" then Throw notAllowed
         else Return (JS.Object created);
     randomIsLow := fun _ => true;
     typeErrorMessage := v8Message;
     outputDirReady := fun _ => Return tt;
     reportWritten := fun _ => Return tt |}.

Definition match1 : Match.t :=
  {| Match.inbound := in1; Match.outbound := Some out1b; Match.transmissionId := Some "T1" |}.
Definition match2 : Match.t :=
  {| Match.inbound := in2; Match.outbound := Some out2; Match.transmissionId := Some "T2" |}.

End Sample.

Section Program.

(** [new Date(s)] for a string: [Date.parse], implementation-defined
    outside the ISO format. *)
Variable Date_parse : string -> EcmaDate.Date.

(** [LocalTZA(t, isUTC)]: the offset of the local time zone, in
    milliseconds, at a UTC time ([true]) or at a local time ([false]). *)
Variable LocalTZA : Z -> bool -> Z.

(** [a.localeCompare(b)], which depends on the locale of the host. *)
Variable localeCompare : string -> string -> Z.

Variable remote : Remote.

(** *** Date objects in local time *)

Definition LocalTime (t : Z) : Z := t + LocalTZA t true.
Definition UTC (t : Z) : Z := t - LocalTZA t false.

Definition getFullYear (d : EcmaDate.Date) : JS.Number :=
  (fun t => EcmaDate.YearFromTime (LocalTime t)) <$> d.
Definition getMonth (d : EcmaDate.Date) : JS.Number :=
  (fun t => EcmaDate.MonthFromTime (LocalTime t)) <$> d.
Definition getDate (d : EcmaDate.Date) : JS.Number :=
  (fun t => EcmaDate.DateFromTime (LocalTime t)) <$> d.

(** [new Date(year, month, date)]: local midnight of that day. *)
Definition Date_of_fields (year month date : JS.Number) : EcmaDate.Date :=
  match year, month, date with
  | Some y, Some m, Some dt =>
      EcmaDate.TimeClip
        (UTC (EcmaDate.MakeDay (EcmaDate.MakeFullYear y) m dt * EcmaDate.msPerDay))
  | _, _, _ => None
  end.

(** *** XmlParser *)

Definition extractField (xml tagName : string) : option string :=
  JS.match_first ("<cbc:" +:+ tagName +:+ ">") ("</cbc:" +:+ tagName +:+ ">") xml.

Definition parseInvoiceDetails (xml : string) : Details.t :=
  let issueDate := extractField xml "IssueDate" in
  {| Details.invoiceNumber := JS.or_else (extractField xml "ID") "Niet gevonden";
     Details.description := JS.or_else (extractField xml "Note") "-";
     Details.issueDate :=
       match issueDate with
       | Some s => if JS.truthy issueDate then Some (Date_parse s) else None
       | None => None
       end |}.

(** *** StatusResolver *)

Definition createdAt_of (s : Status.t) : EcmaDate.Date :=
  Date_parse (Status.createdAt (Status.attributes s)).

(** Every record of the list has a [createdAt] that is a date. *)
Definition allDated (statuses : list Status.t) : Prop :=
  Forall (fun s => is_Some (createdAt_of s)) statuses.

(** The comparator of [getLatestStatus]:
    [(a, b) => new Date(b.attributes.createdAt) - new Date(a.attributes.createdAt)] *)
Definition byCreatedAtDescending (a b : Status.t) : JS.Number :=
  EcmaDate.sub (createdAt_of b) (createdAt_of a).

Definition sentinel : Latest.t := {| Latest.code := "-"; Latest.technicalStatus := "-" |}.

Definition latestOf (sorted : list Status.t) : Latest.t :=
  match sorted with
  | s0 :: _ =>
      let latest := Status.attributes s0 in
      {| Latest.code := JS.or_else (Status.code latest) "-";
         Latest.technicalStatus := JS.or_else (Status.technicalStatus latest) "-" |}
  | [] => sentinel (* not reached: the sorted copy is as long as the input *)
  end.

Definition getLatestStatus (statuses : list Status.t) : Latest.t :=
  if (length statuses =? 0)%nat then sentinel
  else
    let sorted := JS.sort byCreatedAtDescending statuses in
    latestOf sorted.

Definition hasStatus (statuses : list Status.t) (statusCode : string) : bool :=
  existsb (fun s => bool_decide (Status.code (Status.attributes s) = Some statusCode)) statuses.

(** [statusCodes.includes(v)] *)
Definition includes (statusCodes : list string) (v : option string) : bool :=
  match v with
  | Some c => existsb (String.eqb c) statusCodes
  | None => false
  end.

Definition hasAnyStatus (statuses : list Status.t) (statusCodes : list string) : bool :=
  existsb (fun s => includes statusCodes (Status.code (Status.attributes s))) statuses.

Definition getExistingStatusCodes (statuses : list Status.t) : list (option string) :=
  List.map (fun s => Status.code (Status.attributes s)) statuses.

(** The same three functions on an array held by reference: the argument
    is a location of the store, and the store after the call is returned
    with the result. *)
Definition getLatestStatus_in (h : gmap nat (list Status.t)) (statuses : nat)
  : Latest.t * gmap nat (list Status.t) :=
  if (length (Store.read h statuses) =? 0)%nat then (sentinel, h)
  else
    let '(copy, h1) := Store.spread h statuses in
    let '(sorted, h2) := Store.sort_in_place byCreatedAtDescending h1 copy in
    (latestOf (Store.read h2 sorted), h2).

Definition hasStatus_in (h : gmap nat (list Status.t)) (statuses : nat)
    (statusCode : string) : bool * gmap nat (list Status.t) :=
  (hasStatus (Store.read h statuses) statusCode, h).

Definition hasAnyStatus_in (h : gmap nat (list Status.t)) (statuses : nat)
    (statusCodes : list string) : bool * gmap nat (list Status.t) :=
  (hasAnyStatus (Store.read h statuses) statusCodes, h).

(** *** PeppolApiService: the boundary *)

Definition logged (c : Call) (st : State) : State :=
  {| calls := calls st ++ [c]; processResults := processResults st |}.

Definition call {A} (c : Call) (answer : nat -> Outcome A) : M A :=
  fun st => (answer (length (calls st)), logged c st).

Definition fetchOutboundDocuments (supplierId : string) : M (list Doc.t) :=
  call (FetchOutboundDocuments supplierId) (fun n => outboundDocuments remote n supplierId).

Definition fetchInboundDocuments (supplierId : string) : M (list Doc.t) :=
  call (FetchInboundDocuments supplierId) (fun n => inboundDocuments remote n supplierId).

Definition fetchDocumentXml (documentId : string) : M string :=
  call (FetchDocumentXml documentId) (fun n => documentXml remote n documentId).

Definition fetchInboundBusinessStatuses (documentId : string) : M (list Status.t) :=
  call (FetchInboundBusinessStatuses documentId)
       (fun n => inboundBusinessStatuses remote n documentId).

Definition sendBusinessStatus (documentId statusCode : string)
  : M (JS.Nullable Created.t) :=
  call (SendBusinessStatus documentId statusCode)
       (fun n => businessStatusCreated remote n documentId statusCode).

(** [randomChoice([ACCEPTED, REJECTED])] *)
Definition randomChoice2 (first second : string) : M string :=
  let* low := call MathRandom (fun n => Return (randomIsLow remote n)) in
  ret (if low then first else second).

(** *** BusinessStatusManager *)

Definition analyzeDocument (documentId : string) : M Analysis.t :=
  let* statuses := fetchInboundBusinessStatuses documentId in
  let finalStatuses := CONFIG.finalStatuses in
  let hasFinalStatus := hasAnyStatus statuses finalStatuses in
  let existingCodes := getExistingStatusCodes statuses in
  ret {| Analysis.statuses := statuses;
         Analysis.hasFinalStatus := hasFinalStatus;
         Analysis.existingCodes := existingCodes;
         Analysis.needsFinalStatus := negb hasFinalStatus;
         Analysis.isComplete := hasFinalStatus |}.

(** The TypeError that the engine throws when [access] meets [undefined]
    or [null]: an Error with the message of the engine and no [response]. *)
Definition TypeError (n : JS.Nullish) (access : JS.Access) : Err.t :=
  {| Err.message := typeErrorMessage remote n access; Err.response := None |}.

(** [error.response?.data?.errors?.[0]?.detail] *)
Definition firstErrorDetail (error : Err.t) : option string :=
  r ← Err.response error;
  b ← Err.data r;
  es ← Err.errors b;
  e0 ← head es;
  Err.detail e0.

Definition sendStatus (documentId statusCode : string) : M SendResult :=
  try_catch
    (let* response := sendBusinessStatus documentId statusCode in
     match response with
     | JS.Nothing n => throw (TypeError n (JS.Read "id"))
     | JS.Object r =>
         match Created.attributes r with
         | JS.Nothing n => throw (TypeError n (JS.Read "technicalStatus"))
         | JS.Object a =>
             ret {| success := true;
                    statusCode := statusCode;
                    statusId := Created.id r;
                    sentTechnicalStatus := Created.technicalStatus a;
                    error := None |}
         end
     end)
    (fun error =>
       let errorMessage := JS.or_else (firstErrorDetail error) (Err.message error) in
       ret {| success := false;
              statusCode := statusCode;
              statusId := None;
              sentTechnicalStatus := None;
              error := Some errorMessage |}).

Definition getRandomFinalStatus : M string :=
  randomChoice2 CONFIG.ACCEPTED CONFIG.REJECTED.

(** *** InvoiceReportGenerator *)

Definition tid (doc : Doc.t) : option string :=
  Doc.transmissionId (Doc.attributes doc).

(** The Map that [buildOutboundMap] returns for the fetched documents:
    [new Map(outboundDocs.filter(d => d.attributes.transmissionId)
                         .map(d => [d.attributes.transmissionId, d]))] *)
Definition outboundIndex (outboundDocs : list Doc.t) : gmap (option string) Doc.t :=
  JS.Map_new
    (List.map (fun doc => (tid doc, doc))
       (List.filter (fun doc => JS.truthy (tid doc)) outboundDocs)).

(** The date from which outbound documents are requested is the clock
    minus the look-back; it only reaches the remote side. *)
Definition buildOutboundMap : M (gmap (option string) Doc.t) :=
  let* outboundDocs := fetchOutboundDocuments CONFIG.suppliers_outbound_id in
  ret (outboundIndex outboundDocs).

Definition findMatches (inboundDocs : list Doc.t)
    (outboundMap : gmap (option string) Doc.t) : list Match.t :=
  List.map
    (fun inDoc =>
       {| Match.inbound := inDoc;
          Match.outbound := JS.Map_get outboundMap (tid inDoc);
          Match.transmissionId := tid inDoc |})
    (List.filter (fun doc => JS.Map_has outboundMap (tid doc)) inboundDocs).

Definition fetchAndMatchDocuments : M (list Match.t) :=
  let* inboundDocs := fetchInboundDocuments CONFIG.suppliers_inbound_id in
  if (length inboundDocs =? 0)%nat then ret []
  else
    let* outboundMap := buildOutboundMap in
    let matches := findMatches inboundDocs outboundMap in
    if (length matches =? 0)%nat then ret [] else ret matches.

(** [v || null] *)
Definition or_null (v : option string) : option string :=
  if JS.truthy v then v else None.

(** The body of the loop of [analyzeAllDocuments].  A match without an
    outbound document has [undefined] there, what [Map.get] returns for a
    key it does not hold. *)
Definition analyzeAllDocuments_body (results : list Item.t) (m : Match.t)
  : M (list Item.t) :=
  let* analysis := analyzeDocument (Doc.id (Match.inbound m)) in
  let* outboundBusinessState :=
    match Match.outbound m with
    | Some outbound => ret (or_null (Doc.businessStatus (Doc.attributes outbound)))
    | None => throw (TypeError JS.undefined (JS.Read "attributes"))
    end in
  ret (results ++
       [ {| Item.documentId := Doc.id (Match.inbound m);
            Item.transmissionId := Match.transmissionId m;
            Item.match_ := m;
            Item.analysis := analysis;
            Item.outboundBusinessState := outboundBusinessState |} ]).

Definition analyzeAllDocuments (matches : list Match.t) : M (list Item.t) :=
  for_of matches analyzeAllDocuments_body [].

(** An entry of the analysis belongs to its match, and says that a final
    status is needed exactly when its status list has none. *)
Definition analysed (m : Match.t) (a : Item.t) : Prop :=
  Item.documentId a = Doc.id (Match.inbound m) /\
  Analysis.needsFinalStatus (Item.analysis a)
    = negb (hasAnyStatus (Analysis.statuses (Item.analysis a)) CONFIG.finalStatuses).


Definition storeResult (documentId phase : string) (result : SendResult) : M unit :=
  fun st =>
    let results := processResults st in
    let results :=
      if bool_decide (is_Some (results !! documentId)) then results
      else <[documentId := ∅]> results in
    (Return tt,
     {| calls := calls st;
        processResults :=
          <[documentId := <[phase := result]> (default ∅ (results !! documentId))]> results |}).

Definition sendStatuses (documents : list Item.t) (phase : string)
    (getStatusCode : M string) : M Z :=
  for_of documents
    (fun successCount doc =>
       let* statusCode := getStatusCode in
       let* result := sendStatus (Item.documentId doc) statusCode in
       storeResult (Item.documentId doc) phase result ;;
       ret (if success result then successCount + 1 else successCount))
    0.

Definition sendFinalStatuses (documents : list Item.t) : M Z :=
  sendStatuses documents "final" getRandomFinalStatus.

(** The wait after a successful submission: it passes time and prints a
    countdown, and touches neither the remote side nor the state. *)
Definition handleWaitTime (successCount waitTimeMs : Z) : M unit := ret tt.

Definition errorDetails : Details.t :=
  {| Details.invoiceNumber := "Error";
     Details.description := "Error";
     Details.issueDate := None |}.

Definition fetchXmlDetailsSafe (docId : string) : M Details.t :=
  try_catch
    (let* xml := fetchDocumentXml docId in
     ret (parseInvoiceDetails xml))
    (fun _ => ret errorDetails).

(** What [fetchXmlDetailsSafe] returns for an answer of the document
    fetch. *)
Definition detailsOfAnswer (answer : Outcome string) : Details.t :=
  match answer with
  | Return xml => parseInvoiceDetails xml
  | Throw _ => errorDetails
  end.

Definition fetchBusinessStatusSafe (docId : string) : M (list Status.t) :=
  try_catch (fetchInboundBusinessStatuses docId) (fun _ => ret []).

(** [new Date(d.getFullYear(), d.getMonth(), d.getDate())] *)
Definition dateOnly (d : EcmaDate.Date) : EcmaDate.Date :=
  Date_of_fields (getFullYear d) (getMonth d) (getDate d).

(** [xmlDetails.issueDate || new Date(match.inbound.attributes.createdAt)]:
    a Date object is truthy, also an invalid one. *)
Definition invoiceDateOf (m : Match.t) (xmlDetails : Details.t) : EcmaDate.Date :=
  match Details.issueDate xmlDetails with
  | Some d => d
  | None => Date_parse (Doc.createdAt (Doc.attributes (Match.inbound m)))
  end.

(** The test of the loop body: [invoiceDateOnly >= cutoffDateOnly]. *)
Definition onOrAfter (invoiceDate cutoffDate : EcmaDate.Date) : bool :=
  let invoiceDateOnly := dateOnly invoiceDate in
  let cutoffDateOnly := dateOnly cutoffDate in
  EcmaDate.ge invoiceDateOnly cutoffDateOnly.

(** The body of the loop of [splitByDate]; the pair is
    [{ nov28AndLater, beforeNov28 }]. *)
Definition splitByDate_body (cutoffDate : EcmaDate.Date)
    (parts : list Match.t * list Match.t) (m : Match.t)
  : M (list Match.t * list Match.t) :=
  let '(nov28AndLater, beforeNov28) := parts in
  let* xmlDetails := fetchXmlDetailsSafe (Doc.id (Match.inbound m)) in
  let invoiceDate := invoiceDateOf m xmlDetails in
  if onOrAfter invoiceDate cutoffDate
  then ret (nov28AndLater ++ [m], beforeNov28)
  else ret (nov28AndLater, beforeNov28 ++ [m]).

Definition splitByDate (matches : list Match.t) (cutoffDate : EcmaDate.Date)
  : M (list Match.t * list Match.t) :=
  for_of matches (splitByDate_body cutoffDate) ([], []).

(** The comparator of [sortMatchesByInvoiceNumber]. *)
Definition byInvoiceNumber (a b : Match.t * string) : JS.Number :=
  let numA := JS.parseInt a.2 in
  let numB := JS.parseInt b.2 in
  if negb (JS.isNaN numA) && negb (JS.isNaN numB)
  then Some (default 0 numA - default 0 numB)
  else Some (localeCompare a.2 b.2).

(** The async function mapped over the matches: the pair is
    [{ match, invoiceNumber }]. *)
Definition withInvoiceNumber (m : Match.t) : M (Match.t * string) :=
  let* xmlDetails := fetchXmlDetailsSafe (Doc.id (Match.inbound m)) in
  ret (m, Details.invoiceNumber xmlDetails).

Definition sortMatchesByInvoiceNumber (matches : list Match.t) : M (list Match.t) :=
  let* matchesWithNumbers := map_async withInvoiceNumber matches in
  ret (List.map fst (JS.sort byInvoiceNumber matchesWithNumbers)).

(** [printOutboundSection(doc)] starts with [const { id, attributes } = doc],
    which throws for a match without an outbound document; the lines it
    prints are left out. *)
Definition printOutboundSection (doc : option Doc.t) : M unit :=
  match doc with
  | Some _ => ret tt
  | None => throw (TypeError JS.undefined (JS.Destructure "id" "doc"))
  end.

(** [printMatch]: the two fetches are started in this order and awaited;
    then the sections are printed, of which the outbound one can throw. *)
Definition printMatch (m : Match.t) (inboundStatus : option Latest.t) : M unit :=
  let* xmlDetails := fetchXmlDetailsSafe (Doc.id (Match.inbound m)) in
  let* statuses :=
    match inboundStatus with
    | Some _ => ret []
    | None => fetchBusinessStatusSafe (Doc.id (Match.inbound m))
    end in
  let status := default (getLatestStatus statuses) inboundStatus in
  printOutboundSection (Match.outbound m).

(** [freshOutboundMap.get(match.transmissionId) || match.outbound] *)
Definition freshOutboundOf (freshOutboundMap : gmap (option string) Doc.t)
    (m : Match.t) : option Doc.t :=
  match JS.Map_get freshOutboundMap (Match.transmissionId m) with
  | Some doc => Some doc
  | None => Match.outbound m
  end.

Definition withOutbound (m : Match.t) (outbound : option Doc.t) : Match.t :=
  {| Match.inbound := Match.inbound m;
     Match.outbound := outbound;
     Match.transmissionId := Match.transmissionId m |}.

Definition printFinalResults (matches : list Match.t) : M unit :=
  let* sortedMatches := sortMatchesByInvoiceNumber matches in
  let* freshOutboundMap := buildOutboundMap in
  for_of sortedMatches
    (fun _ m =>
       let freshOutbound := freshOutboundOf freshOutboundMap m in
       let* freshInboundStatuses := fetchBusinessStatusSafe (Doc.id (Match.inbound m)) in
       let freshInboundStatus := getLatestStatus freshInboundStatuses in
       printMatch (withOutbound m freshOutbound) (Some freshInboundStatus))
    tt.

(** An effect on the file system: it may throw, and it is no call of the
    log. *)
Definition ask {A} (answer : nat -> Outcome A) : M A :=
  fun st => (answer (length (calls st)), st).

(** [ReportFileWriter.init]: the directory is made when it is missing. *)
Definition fileWriter_init : M unit := ask (outputDirReady remote).

(** [ReportFileWriter.save]: the lines are written to the file. *)
Definition fileWriter_save : M unit := ask (reportWritten remote).

(** [writeInvoiceToFile]: the first line that reads the outbound document
    is [`... ${outbound.id}`], which throws for a match without one; the
    lines themselves are left out. *)
Definition writeInvoiceToFile (m : Match.t) : M unit :=
  match Match.outbound m with
  | Some _ => ret tt
  | None => throw (TypeError JS.undefined (JS.Read "id"))
  end.

Definition saveReportToFile (matches : list Match.t) : M unit :=
  fileWriter_init ;;
  let* sortedMatches := sortMatchesByInvoiceNumber matches in
  let* freshOutboundMap := buildOutboundMap in
  for_of sortedMatches
    (fun _ m =>
       let freshOutbound := freshOutboundOf freshOutboundMap m in
       let* xmlDetails := fetchXmlDetailsSafe (Doc.id (Match.inbound m)) in
       let* inboundStatuses := fetchBusinessStatusSafe (Doc.id (Match.inbound m)) in
       let inboundStatus := getLatestStatus inboundStatuses in
       writeInvoiceToFile (withOutbound m freshOutbound))
    tt ;;
  fileWriter_save.

(** [new Date('2025-11-28T00:00:00Z')]: an ISO string, whose time value
    ECMAScript fixes. *)
Definition cutoffDate : EcmaDate.Date := Some 1764288000000.

(** A status code is one of the final ones. *)
Definition isFinal (code : string) : bool :=
  includes CONFIG.finalStatuses (Some code).

(** The analysis entries of the matches of one partition. *)
Definition analysisOf (analysis : list Item.t) (part : list Match.t) : list Item.t :=
  List.filter
    (fun a => existsb (fun m => String.eqb (Doc.id (Match.inbound m)) (Item.documentId a)) part)
    analysis.

Definition needingFinal (analysis : list Item.t) : list Item.t :=
  List.filter (fun a => Analysis.needsFinalStatus (Item.analysis a)) analysis.

(** Step 2 for one partition: the body of [if (part.length > 0)]. *)
Definition sendForPartition (analysis : list Item.t) (part : list Match.t) : M unit :=
  if (0 <? length part)%nat then
    let partAnalysis := analysisOf analysis part in
    let needsFinal := needingFinal partAnalysis in
    if (0 <? length needsFinal)%nat then
      let* successCount := sendFinalStatuses needsFinal in
      handleWaitTime successCount CONFIG.finalStatusWaitTime
    else ret tt
  else ret tt.

(** What [generateReport] does once the matches are analysed. *)
Definition afterAnalysis (matches : list Match.t) (analysis : list Item.t) : M unit :=
  let* (nov28AndLater, beforeNov28) := splitByDate matches cutoffDate in
  sendForPartition analysis nov28AndLater ;;
  sendForPartition analysis beforeNov28 ;;
  printFinalResults matches ;;
  saveReportToFile matches.

Definition generateReport : M unit :=
  let* matches := fetchAndMatchDocuments in
  if (length matches =? 0)%nat then ret tt
  else
    let* analysis := analyzeAllDocuments matches in
    afterAnalysis matches analysis.

(** *** Further parts of the program *)

(** A tag name that [new RegExp] reads literally, as [extractField] is
    called with ('ID', 'Note', 'IssueDate'): letters and digits only, none
    of the characters that have a meaning in a pattern. *)
Fixpoint literalTag (tagName : string) : bool :=
  match tagName with
  | EmptyString => true
  | String c rest =>
      let n := nat_of_ascii c in
      (((48 <=? n) && (n <=? 57)) || ((65 <=? n) && (n <=? 90)) || ((97 <=? n) && (n <=? 122)))%nat
      && literalTag rest
  end.

(** [`${v}`] for a property that may be [undefined]. *)
Definition template (v : option string) : string := default "undefined" v.

(** [formatActions(processResult)]: the action of this run for a document,
    as the report shows it. *)
Definition formatActions (processResult : gmap string SendResult) : list string :=
  match processResult !! "final" with
  | Some fin =>
      let emoji := if String.eqb (statusCode fin) "accepted" then "👍" else "👎" in
      [ if success fin
        then statusCode fin +:+ " " +:+ emoji
        else statusCode fin +:+ " ❌ (" +:+ template (error fin) +:+ ")" ]
  | None => []
  end.

(** [this.processResults.get(documentId) || {}] *)
Definition processResultOf (st : State) (documentId : string) : gmap string SendResult :=
  default ∅ (processResults st !! documentId).

(** What [sendStatus] returns for an answer of the submission. *)
Definition sendResultOf (code : string) (answer : Outcome (JS.Nullable Created.t))
  : SendResult :=
  match answer with
  | Return (JS.Object r) =>
      match Created.attributes r with
      | JS.Object a =>
          {| success := true; statusCode := code; statusId := Created.id r;
             sentTechnicalStatus := Created.technicalStatus a; error := None |}
      | JS.Nothing n =>
          {| success := false; statusCode := code; statusId := None;
             sentTechnicalStatus := None;
             error := Some (Err.message (TypeError n (JS.Read "technicalStatus"))) |}
      end
  | Return (JS.Nothing n) =>
      {| success := false; statusCode := code; statusId := None;
         sentTechnicalStatus := None;
         error := Some (Err.message (TypeError n (JS.Read "id"))) |}
  | Throw e =>
      {| success := false; statusCode := code; statusId := None;
         sentTechnicalStatus := None;
         error := Some (JS.or_else (firstErrorDetail e) (Err.message e)) |}
  end.

(** The code that [getRandomFinalStatus] draws when [n] calls were made
    before. *)
Definition drawnStatus (n : nat) : string :=
  if randomIsLow remote n then CONFIG.ACCEPTED else CONFIG.REJECTED.

(** The results of the submissions that [sendFinalStatuses] makes for the
    documents, one after the other, when [n] calls were made before: for
    each document a draw, then the submission of the drawn code. *)
Fixpoint finalResults (n : nat) (documents : list Item.t) : list SendResult :=
  match documents with
  | [] => []
  | doc :: documents' =>
      sendResultOf (drawnStatus n)
        (businessStatusCreated remote (S n) (Item.documentId doc) (drawnStatus n))
      :: finalResults (S (S n)) documents'
  end.

(** The calls that [sendFinalStatuses] makes for documents and results. *)
Definition submissionCalls (documents : list Item.t) (results : list SendResult) : list Call :=
  concat (zip_with
            (fun doc result =>
               [MathRandom; SendBusinessStatus (Item.documentId doc) (statusCode result)])
            documents results).

(** The documents for which a list of calls submits a status, in order. *)
Definition sentIds (cs : list Call) : list string :=
  omap (fun c => match c with
                 | SendBusinessStatus documentId _ => Some documentId
                 | _ => None
                 end) cs.

(** A call that fetches, from the configured suppliers where a supplier is
    named. *)
Definition fetchCall (c : Call) : Prop :=
  match c with
  | FetchInboundDocuments supplierId => supplierId = CONFIG.suppliers_inbound_id
  | FetchOutboundDocuments supplierId => supplierId = CONFIG.suppliers_outbound_id
  | SendBusinessStatus _ _ => False
  | _ => True
  end.

(** A call that a run may make: a fetch, a draw, or the submission of a
    final status code. *)
Definition allowedCall (c : Call) : Prop :=
  match c with
  | SendBusinessStatus _ code => code = "accepted" \/ code = "rejected"
  | _ => fetchCall c
  end.

(** [m] only fetches: it extends the log by fetches and leaves the process
    results as they are. *)
Definition quiet {A} (m : M A) : Prop :=
  forall st, exists new,
    calls (m st).2 = calls st ++ new /\
    Forall fetchCall new /\
    processResults (m st).2 = processResults st.

(** [m] keeps the property [I] of the run state. *)
Definition preserves {A} (I : State -> Prop) (m : M A) : Prop :=
  forall st, I st -> I (m st).2.

(** A property of the state that fetches do not disturb. *)
Definition fetchStable (I : State -> Prop) : Prop :=
  forall st st' new,
    calls st' = calls st ++ new -> Forall fetchCall new ->
    processResults st' = processResults st -> I st -> I st'.

(** The status codes that a list of calls submits for a document, in
    order. *)
Definition submittedCodes (cs : list Call) (documentId : string) : list string :=
  omap (fun c => match c with
                 | SendBusinessStatus d code =>
                     if String.eqb d documentId then Some code else None
                 | _ => None
                 end) cs.

(** The process results belong to the submissions: a document has an entry
    exactly when a status was submitted for it, and the entry has under
    'final' a result whose status code is the code that was submitted for
    the document last. *)
Definition resultsMatchSubmissions (st : State) : Prop :=
  forall documentId,
    (is_Some (processResults st !! documentId) <-> documentId ∈ sentIds (calls st)) /\
    (forall pr, processResults st !! documentId = Some pr ->
       exists fin, pr !! "final" = Some fin /\
         last (submittedCodes (calls st) documentId) = Some (statusCode fin)).

(** [countdown(totalMs, intervalMs)], for times in whole milliseconds: the
    values of [remaining] at which the loop sleeps for one interval, or
    [None] when the fuel, the number of turns allowed, does not suffice for
    the loop to end.  [remaining -= intervalMs] is a subtraction of Numbers:
    its result is rounded as a double is. *)
Fixpoint countdown (fuel : nat) (totalMs intervalMs : Z) : option (list Z) :=
  if 0 <? totalMs then
    match fuel with
    | O => None
    | S fuel' =>
        (fun rest => totalMs :: rest)
          <$> countdown fuel' (JS.Number_sub totalMs intervalMs) intervalMs
    end
  else Some [].

(** [handleWaitTime(successCount, waitTimeMs, label)] as far as it waits:
    the countdown when a submission succeeded, nothing otherwise. *)
Definition handleWaitTime_sleeps (fuel : nat) (successCount waitTimeMs : Z) : option (list Z) :=
  if 0 <? successCount then countdown fuel waitTimeMs 5000 else Some [].

(** The assignment of [storeResult], on the Map itself. *)
Definition storeInto (results : gmap string (gmap string SendResult))
    (documentId phase : string) (result : SendResult)
  : gmap string (gmap string SendResult) :=
  let results :=
    if bool_decide (is_Some (results !! documentId)) then results
    else <[documentId := ∅]> results in
  <[documentId := <[phase := result]> (default ∅ (results !! documentId))]> results.

(** The body of the loop of [sendStatuses] as [sendFinalStatuses] runs it. *)
Definition sendFinalStatuses_body (successCount : Z) (doc : Item.t) : M Z :=
  let* statusCode := getRandomFinalStatus in
  let* result := sendStatus (Item.documentId doc) statusCode in
  storeResult (Item.documentId doc) "final" result ;;
  ret (if success result then successCount + 1 else successCount).

(** The process results after the results of a list of documents were
    stored one after the other. *)
Definition storeAll (results : gmap string (gmap string SendResult))
    (documents : list Item.t) (sent : list SendResult)
  : gmap string (gmap string SendResult) :=
  fold_left (fun acc dr => storeInto acc (Item.documentId dr.1) "final" dr.2)
    (zip documents sent) results.

(** The entry that [analyzeAllDocuments] makes for a match whose status
    list is fetched by call number [n]. *)
Definition analysedAt (n : nat) (m : Match.t) (a : Item.t) : Prop :=
  exists statuses outbound,
    inboundBusinessStatuses remote n (Doc.id (Match.inbound m)) = Return statuses /\
    Match.outbound m = Some outbound /\
    a = {| Item.documentId := Doc.id (Match.inbound m);
           Item.transmissionId := Match.transmissionId m;
           Item.match_ := m;
           Item.analysis :=
             {| Analysis.statuses := statuses;
                Analysis.hasFinalStatus := hasAnyStatus statuses CONFIG.finalStatuses;
                Analysis.existingCodes := getExistingStatusCodes statuses;
                Analysis.needsFinalStatus := negb (hasAnyStatus statuses CONFIG.finalStatuses);
                Analysis.isComplete := hasAnyStatus statuses CONFIG.finalStatuses |};
           Item.outboundBusinessState :=
             or_null (Doc.businessStatus (Doc.attributes outbound)) |}.

(** The status fetches of [analyzeAllDocuments] for a list of matches. *)
Definition statusFetches (matches : list Match.t) : list Call :=
  List.map (fun m => FetchInboundBusinessStatuses (Doc.id (Match.inbound m))) matches.

(** The XML fetches of a loop over a list of matches. *)
Definition xmlFetches (matches : list Match.t) : list Call :=
  List.map (fun m => FetchDocumentXml (Doc.id (Match.inbound m))) matches.

(** The fetches of the loop of [printFinalResults] over the sorted matches:
    for each match its status list, then its XML. *)
Definition printFetches (sorted : list Match.t) : list Call :=
  concat (List.map (fun m => [FetchInboundBusinessStatuses (Doc.id (Match.inbound m));
                              FetchDocumentXml (Doc.id (Match.inbound m))]) sorted).

(** The fetches of the loop of [saveReportToFile]: for each match its XML,
    then its status list. *)
Definition saveFetches (sorted : list Match.t) : list Call :=
  concat (List.map (fun m => [FetchDocumentXml (Doc.id (Match.inbound m));
                              FetchInboundBusinessStatuses (Doc.id (Match.inbound m))]) sorted).

(** ** Facts about the built-ins *)

Section SortFacts.
Context {A : Type} (comparefn : A -> A -> JS.Number).

Local Abbreviation before := (JS.before comparefn).
Local Abbreviation consistentOn := (JS.consistentOn comparefn).

Lemma sort_insert_Permutation (x : A) (l : list A) :
  JS.sort_insert comparefn x l ≡ₚ x :: l.
Proof.
  induction l as [|y l IH]; simpl; [done|].
  destruct (JS.sort_key comparefn x y <=? 0); [done|].
  rewrite IH. apply Permutation_swap.
Qed.

Lemma sort_Permutation (l : list A) : JS.sort comparefn l ≡ₚ l.
Proof.
  induction l as [|x l IH]; simpl; [done|].
  by rewrite sort_insert_Permutation, IH.
Qed.

Lemma sort_length (l : list A) : length (JS.sort comparefn l) = length l.
Proof. by rewrite sort_Permutation. Qed.

Lemma consistentOn_cons (x : A) (l : list A) :
  consistentOn (x :: l) -> consistentOn l.
Proof.
  intros [Htot Htrans]. split.
  - intros a b Ha Hb. apply Htot; by right.
  - intros a b c Ha Hb Hc. apply Htrans; by right.
Qed.

Lemma sort_insert_sorted (x : A) (l : list A) :
  consistentOn (x :: l) ->
  StronglySorted before l ->
  StronglySorted before (JS.sort_insert comparefn x l).
Proof.
  intros Hcons. induction 1 as [|y l Hsorted IH Hall]; simpl.
  - repeat constructor.
  - destruct Hcons as [Htot Htrans].
    destruct (Z.leb_spec (JS.sort_key comparefn x y) 0) as [Hle|Hgt].
    + constructor; [by constructor|].
      constructor; [exact Hle|].
      rewrite Forall_forall in Hall |- *. intros z Hz.
      apply (Htrans x y z); [by left|right; by left|do 2 right; done|exact Hle|by apply Hall].
    + constructor.
      * apply IH. split.
        -- intros a b Ha Hb. apply Htot.
           ++ apply elem_of_cons in Ha as [->|Ha]; [by left|do 2 right; done].
           ++ apply elem_of_cons in Hb as [->|Hb]; [by left|do 2 right; done].
        -- intros a b c Ha Hb Hc. apply Htrans.
           ++ apply elem_of_cons in Ha as [->|Ha]; [by left|do 2 right; done].
           ++ apply elem_of_cons in Hb as [->|Hb]; [by left|do 2 right; done].
           ++ apply elem_of_cons in Hc as [->|Hc]; [by left|do 2 right; done].
      * rewrite Forall_forall. intros z Hz.
        rewrite sort_insert_Permutation in Hz.
        apply elem_of_cons in Hz as [->|Hz].
        -- destruct (Htot x y) as [Hxy|Hyx]; [by left|right; by left| |exact Hyx].
           unfold JS.before in Hxy. lia.
        -- rewrite Forall_forall in Hall. by apply Hall.
Qed.

Lemma sort_sorted (l : list A) :
  consistentOn l -> StronglySorted before (JS.sort comparefn l).
Proof.
  induction l as [|x l IH]; simpl; intros Hcons; [constructor|].
  apply sort_insert_sorted.
  - destruct Hcons as [Htot Htrans]. split.
    + intros a b Ha Hb. apply Htot.
      * apply elem_of_cons in Ha as [->|Ha]; [by left|right; by rewrite <- sort_Permutation].
      * apply elem_of_cons in Hb as [->|Hb]; [by left|right; by rewrite <- sort_Permutation].
    + intros a b c Ha Hb Hc. apply Htrans.
      * apply elem_of_cons in Ha as [->|Ha]; [by left|right; by rewrite <- sort_Permutation].
      * apply elem_of_cons in Hb as [->|Hb]; [by left|right; by rewrite <- sort_Permutation].
      * apply elem_of_cons in Hc as [->|Hc]; [by left|right; by rewrite <- sort_Permutation].
  - apply IH. by eapply consistentOn_cons.
Qed.

(** The first element of the sorted array may stand before every
    element of the input. *)
Lemma sort_head_before (l : list A) (r : A) (rest : list A) :
  consistentOn l ->
  JS.sort comparefn l = r :: rest ->
  forall y, y ∈ l -> before r y.
Proof.
  intros Hcons Hsort y Hy.
  pose proof (sort_sorted l Hcons) as Hsorted. rewrite Hsort in Hsorted.
  apply StronglySorted_inv in Hsorted as [_ Hall].
  rewrite <- (sort_Permutation l), Hsort in Hy.
  apply elem_of_cons in Hy as [->|Hy].
  - destruct Hcons as [Htot _].
    assert (r ∈ l) as Hr by (rewrite <- (sort_Permutation l), Hsort; by left).
    by destruct (Htot r r Hr Hr).
  - rewrite Forall_forall in Hall. by apply Hall.
Qed.

End SortFacts.

(** ** StatusResolver *)

Lemma existsb_Permutation {A} (f : A -> bool) (l l' : list A) :
  l ≡ₚ l' -> existsb f l = existsb f l'.
Proof.
  induction 1 as [|x l l' _ IH|x y l|l l' l'' _ IH1 _ IH2]; simpl.
  - reflexivity.
  - by rewrite IH.
  - by destruct (f x), (f y).
  - by rewrite IH1.
Qed.

Lemma NoDup_map_injective {A B} (f : A -> B) (l : list A) (x y : A) :
  NoDup (List.map f l) -> x ∈ l -> y ∈ l -> f x = f y -> x = y.
Proof.
  induction l as [|a l IH]; simpl; intros Hnd Hx Hy Hf.
  - by apply elem_of_nil in Hx.
  - apply NoDup_cons in Hnd as [Ha Hnd].
    apply elem_of_cons in Hx as [->|Hx]; apply elem_of_cons in Hy as [->|Hy].
    + reflexivity.
    + exfalso. apply Ha. rewrite Hf. apply list_elem_of_In, in_map, list_elem_of_In, Hy.
    + exfalso. apply Ha. rewrite <- Hf. apply list_elem_of_In, in_map, list_elem_of_In, Hx.
    + by apply IH.
Qed.

Lemma byCreatedAtDescending_before (a b : Status.t) (ta tb : Z) :
  createdAt_of a = Some ta -> createdAt_of b = Some tb ->
  JS.before byCreatedAtDescending a b <-> tb <= ta.
Proof.
  intros Ha Hb. unfold JS.before, JS.sort_key, byCreatedAtDescending.
  rewrite Ha, Hb. simpl. lia.
Qed.

Lemma byCreatedAtDescending_consistent (statuses : list Status.t) :
  allDated statuses -> JS.consistentOn byCreatedAtDescending statuses.
Proof.
  unfold allDated. rewrite Forall_forall. intros Hdated. split.
  - intros x y Hx Hy.
    destruct (Hdated x Hx) as [tx Htx], (Hdated y Hy) as [ty Hty].
    rewrite (byCreatedAtDescending_before x y tx ty), (byCreatedAtDescending_before y x ty tx)
      by done. lia.
  - intros x y z Hx Hy Hz.
    destruct (Hdated x Hx) as [tx Htx], (Hdated y Hy) as [ty Hty], (Hdated z Hz) as [tz Htz].
    rewrite (byCreatedAtDescending_before x y tx ty), (byCreatedAtDescending_before y z ty tz),
      (byCreatedAtDescending_before x z tx tz) by done. lia.
Qed.

(** The record that [getLatestStatus] reads is in the list and no record of
    the list is younger. *)
Lemma sorted_head_latest (statuses : list Status.t) :
  allDated statuses -> statuses <> [] ->
  exists r rest t,
    JS.sort byCreatedAtDescending statuses = r :: rest /\
    r ∈ statuses /\ createdAt_of r = Some t /\
    forall s t', s ∈ statuses -> createdAt_of s = Some t' -> t' <= t.
Proof.
  intros Hdated Hne.
  destruct (JS.sort byCreatedAtDescending statuses) as [|r rest] eqn:Hsort.
  - apply (f_equal length) in Hsort. rewrite sort_length in Hsort.
    destruct statuses; [done|discriminate].
  - assert (r ∈ statuses) as Hr
      by (rewrite <- (sort_Permutation byCreatedAtDescending statuses), Hsort; by left).
    pose proof Hdated as Hall. unfold allDated in Hall. rewrite Forall_forall in Hall.
    destruct (Hall r Hr) as [t Ht].
    exists r, rest, t. repeat split; try done.
    intros s t' Hs Ht'.
    pose proof (sort_head_before byCreatedAtDescending statuses r rest
                  (byCreatedAtDescending_consistent statuses Hdated) Hsort s Hs) as Hbefore.
    by apply (byCreatedAtDescending_before r s t t') in Hbefore.
Qed.

Lemma getLatestStatus_unfold (statuses : list Status.t) :
  statuses <> [] ->
  getLatestStatus statuses = latestOf (JS.sort byCreatedAtDescending statuses).
Proof. intros Hne. unfold getLatestStatus. by destruct statuses. Qed.

(** C2, as the code has it.  For the empty list [getLatestStatus] returns
    the sentinel ("-", "-").  For a non-empty list of records whose
    [createdAt] are dates, it reads a record whose [createdAt] is maximal in
    the list and returns its code and technical status, each replaced by "-"
    when it is missing or empty. *)
Theorem getLatestStatus_reads_a_latest_record (statuses : list Status.t) :
  (statuses = [] -> getLatestStatus statuses = sentinel) /\
  (statuses <> [] -> allDated statuses ->
   exists r t,
     r ∈ statuses /\ createdAt_of r = Some t /\
     (forall s t', s ∈ statuses -> createdAt_of s = Some t' -> t' <= t) /\
     Latest.code (getLatestStatus statuses)
       = JS.or_else (Status.code (Status.attributes r)) "-" /\
     Latest.technicalStatus (getLatestStatus statuses)
       = JS.or_else (Status.technicalStatus (Status.attributes r)) "-").
Proof.
  split.
  - by intros ->.
  - intros Hne Hdated.
    destruct (sorted_head_latest statuses Hdated Hne) as (r & rest & t & Hsort & Hr & Ht & Hmax).
    exists r, t. rewrite (getLatestStatus_unfold statuses Hne), Hsort. by simpl.
Qed.

Lemma hasStatus_Permutation (l l' : list Status.t) (statusCode : string) :
  l ≡ₚ l' -> hasStatus l statusCode = hasStatus l' statusCode.
Proof. apply existsb_Permutation. Qed.

Lemma hasAnyStatus_Permutation (l l' : list Status.t) (statusCodes : list string) :
  l ≡ₚ l' -> hasAnyStatus l statusCodes = hasAnyStatus l' statusCodes.
Proof. apply existsb_Permutation. Qed.

Lemma getLatestStatus_Permutation (l l' : list Status.t) :
  l ≡ₚ l' -> allDated l -> NoDup (List.map createdAt_of l) ->
  getLatestStatus l = getLatestStatus l'.
Proof.
  intros Hperm Hdated Hnodup.
  destruct l as [|x l0].
  - apply Permutation_nil_l in Hperm. by subst.
  - set (l := x :: l0) in *.
    assert (l <> []) as Hne by done.
    assert (l' <> []) as Hne' by (intros ->; by apply Permutation_nil_r in Hperm).
    assert (allDated l') as Hdated' by (unfold allDated; by rewrite <- Hperm).
    destruct (sorted_head_latest l Hdated Hne) as (r & rest & t & Hsort & Hr & Ht & Hmax).
    destruct (sorted_head_latest l' Hdated' Hne') as (r' & rest' & t' & Hsort' & Hr' & Ht' & Hmax').
    rewrite (getLatestStatus_unfold l Hne), (getLatestStatus_unfold l' Hne'), Hsort, Hsort'.
    assert (r = r') as ->; [|done].
    rewrite <- Hperm in Hr'.
    apply (NoDup_map_injective createdAt_of l); try done.
    rewrite Ht, Ht'. f_equal.
    pose proof (Hmax r' t' Hr' Ht').
    assert (r ∈ l') as Hrl' by (by rewrite <- Hperm).
    pose proof (Hmax' r t Hrl' Ht). lia.
Qed.

(** On an array held by reference, [getLatestStatus] computes what it
    computes on the elements, and leaves every array of the store as it
    was: the sort works on the copy. *)
Lemma getLatestStatus_in_result (h : gmap nat (list Status.t)) (statuses : nat) :
  (getLatestStatus_in h statuses).1 = getLatestStatus (Store.read h statuses).
Proof.
  unfold getLatestStatus_in, getLatestStatus.
  destruct (length (Store.read h statuses) =? 0)%nat; [done|].
  cbv [Store.spread Store.sort_in_place fst snd].
  unfold Store.read at 1 2. by rewrite !lookup_insert_eq.
Qed.

Lemma getLatestStatus_in_store (h : gmap nat (list Status.t)) (statuses a : nat) :
  is_Some (h !! a) -> (getLatestStatus_in h statuses).2 !! a = h !! a.
Proof.
  intros Ha. unfold getLatestStatus_in.
  destruct (length (Store.read h statuses) =? 0)%nat; [done|].
  cbv [Store.spread Store.sort_in_place fst snd].
  assert (fresh (dom h) <> a) as Hfresh.
  { intros <-. apply elem_of_dom in Ha. by apply is_fresh in Ha. }
  by rewrite !lookup_insert_ne.
Qed.

(** C9.  [hasStatus], [hasAnyStatus] and [getLatestStatus] give the same
    result on every permutation of a status list, the last one for records
    whose [createdAt] are dates that differ from one another; and a call of
    any of the three on an array of the store returns what the function
    computes on its elements and leaves every array of the store, the
    argument among them, as it was. *)
Theorem status_resolver_is_order_independent_and_pure
    (l l' : list Status.t) (statusCode : string) (statusCodes : list string)
    (h : gmap nat (list Status.t)) (statuses a : nat) :
  l ≡ₚ l' ->
  (hasStatus l statusCode = hasStatus l' statusCode /\
   hasAnyStatus l statusCodes = hasAnyStatus l' statusCodes /\
   (allDated l -> NoDup (List.map createdAt_of l) ->
    getLatestStatus l = getLatestStatus l')) /\
  ((getLatestStatus_in h statuses).1 = getLatestStatus (Store.read h statuses) /\
   (hasStatus_in h statuses statusCode).1 = hasStatus (Store.read h statuses) statusCode /\
   (hasAnyStatus_in h statuses statusCodes).1
     = hasAnyStatus (Store.read h statuses) statusCodes) /\
  (is_Some (h !! a) ->
   (getLatestStatus_in h statuses).2 !! a = h !! a /\
   (hasStatus_in h statuses statusCode).2 !! a = h !! a /\
   (hasAnyStatus_in h statuses statusCodes).2 !! a = h !! a).
Proof.
  intros Hperm. split; [|split].
  - split; [|split].
    + by apply hasStatus_Permutation.
    + by apply hasAnyStatus_Permutation.
    + by apply getLatestStatus_Permutation.
  - split; [|split]; [apply getLatestStatus_in_result|done|done].
  - intros Ha. split; [|split]; [by apply getLatestStatus_in_store|done|done].
Qed.

(** ** BusinessStatusManager *)

Lemma includes_final (v : option string) :
  includes CONFIG.finalStatuses v = true <-> v = Some "accepted" \/ v = Some "rejected".
Proof.
  unfold includes, CONFIG.finalStatuses, CONFIG.ACCEPTED, CONFIG.REJECTED.
  destruct v as [c|]; simpl.
  - rewrite !orb_true_iff, !String.eqb_eq. split.
    + intros [->|[->|Hfalse]]; [by left|by right|discriminate].
    + intros [[= ->]|[= ->]]; [by left|right; by left].
  - split; [done|]. by intros [|].
Qed.

Lemma hasAnyStatus_final (statuses : list Status.t) :
  hasAnyStatus statuses CONFIG.finalStatuses = true <->
  exists s, s ∈ statuses /\
    (Status.code (Status.attributes s) = Some "accepted" \/
     Status.code (Status.attributes s) = Some "rejected").
Proof.
  unfold hasAnyStatus. rewrite existsb_exists. split.
  - intros (s & Hs & Hfinal). exists s. split; [by apply list_elem_of_In|].
    by apply includes_final.
  - intros (s & Hs & Hfinal). exists s. split; [by apply list_elem_of_In|].
    by apply includes_final.
Qed.

(** C4.  When the status list of the document is fetched, [analyzeDocument]
    returns an analysis of that list in which [needsFinalStatus] is true
    exactly when no record has code 'accepted' or 'rejected', and
    [isComplete] is the negation of [needsFinalStatus]; when the fetch
    throws, so does [analyzeDocument]. *)
Theorem analyzeDocument_needsFinalStatus (documentId : string) (st : State) :
  match inboundBusinessStatuses remote (length (calls st)) documentId with
  | Return statuses =>
      exists a st',
        analyzeDocument documentId st = (Return a, st') /\
        Analysis.statuses a = statuses /\
        (Analysis.needsFinalStatus a = true <->
         forall s, s ∈ statuses ->
           Status.code (Status.attributes s) <> Some "accepted" /\
           Status.code (Status.attributes s) <> Some "rejected") /\
        Analysis.isComplete a = negb (Analysis.needsFinalStatus a)
  | Throw e => exists st', analyzeDocument documentId st = (Throw e, st')
  end.
Proof.
  unfold analyzeDocument, bind, fetchInboundBusinessStatuses, call.
  destruct (inboundBusinessStatuses remote (length (calls st)) documentId)
    as [statuses|e]; [|by eexists].
  eexists _, _. split; [reflexivity|]. simpl. split; [done|]. split.
  - rewrite negb_true_iff, <- not_true_iff_false, hasAnyStatus_final. split.
    + intros Hnone s Hs. split; intros Hcode; apply Hnone; exists s; auto.
    + intros Hall (s & Hs & [Hcode|Hcode]); by destruct (Hall s Hs).
  - by rewrite negb_involutive.
Qed.

Lemma sendStatus_unfold (documentId statusCode : string) (st : State) :
  sendStatus documentId statusCode st =
  (Return
     match businessStatusCreated remote (length (calls st)) documentId statusCode with
     | Return (JS.Object r) =>
         match Created.attributes r with
         | JS.Object a =>
             {| success := true; statusCode := statusCode; statusId := Created.id r;
                sentTechnicalStatus := Created.technicalStatus a; error := None |}
         | JS.Nothing n =>
             {| success := false; statusCode := statusCode; statusId := None;
                sentTechnicalStatus := None;
                error := Some (Err.message (TypeError n (JS.Read "technicalStatus"))) |}
         end
     | Return (JS.Nothing n) =>
         {| success := false; statusCode := statusCode; statusId := None;
            sentTechnicalStatus := None;
            error := Some (Err.message (TypeError n (JS.Read "id"))) |}
     | Throw e =>
         {| success := false; statusCode := statusCode; statusId := None;
            sentTechnicalStatus := None;
            error := Some (JS.or_else (firstErrorDetail e) (Err.message e)) |}
     end,
   logged (SendBusinessStatus documentId statusCode) st).
Proof.
  unfold sendStatus, try_catch, bind, sendBusinessStatus, call.
  destruct (businessStatusCreated remote (length (calls st)) documentId statusCode)
    as [[r|n]|e]; try reflexivity.
  by destruct (Created.attributes r).
Qed.

(** C6.  [sendStatus] returns and never throws.  When the submission
    answers with a resource that has attributes, the result has
    [success = true], the attempted status code, the ID of the resource and
    its technical status.  When the submission throws, the result has
    [success = false], the attempted status code, and as error the [detail]
    of the first entry of the [errors] of the response body when that is
    present and not empty, and the [message] of the error otherwise.  An
    answer that is [undefined] or [null] where the resource or its
    attributes should be is a failure too: the error is the message of the
    TypeError that the engine throws for the read of [id], or of
    [technicalStatus], on that value. *)
Theorem sendStatus_never_throws (documentId code : string) (st : State) :
  exists result,
    sendStatus documentId code st
      = (Return result, logged (SendBusinessStatus documentId code) st) /\
    statusCode result = code /\
    match businessStatusCreated remote (length (calls st)) documentId code with
    | Return (JS.Object r) =>
        match Created.attributes r with
        | JS.Object a =>
            success result = true /\ statusId result = Created.id r /\
            sentTechnicalStatus result = Created.technicalStatus a /\
            error result = None
        | JS.Nothing n =>
            success result = false /\
            error result = Some (typeErrorMessage remote n (JS.Read "technicalStatus"))
        end
    | Return (JS.Nothing n) =>
        success result = false /\
        error result = Some (typeErrorMessage remote n (JS.Read "id"))
    | Throw e =>
        success result = false /\
        (forall r b e0 rest d,
           Err.response e = Some r -> Err.data r = Some b ->
           Err.errors b = Some (e0 :: rest) -> Err.detail e0 = Some d -> d <> "" ->
           error result = Some d) /\
        (firstErrorDetail e = None \/ firstErrorDetail e = Some "" ->
         error result = Some (Err.message e))
    end.
Proof.
  eexists. split; [apply sendStatus_unfold|].
  destruct (businessStatusCreated remote (length (calls st)) documentId code)
    as [[r|n]|e]; simpl.
  - destruct (Created.attributes r); simpl; auto.
  - auto.
  - split; [done|]. split; [done|]. split.
    + intros r b e0 rest d Hr Hb Hes He0 Hd.
      unfold firstErrorDetail. rewrite Hr. simpl. rewrite Hb. simpl. rewrite Hes. simpl.
      rewrite He0. simpl. apply String.eqb_neq in Hd. by rewrite Hd.
    + by intros [->| ->].
Qed.

(** ** Matching by transmission identifier *)

Section MapFacts.
Context {V : Type}.
Implicit Types (entries : list (option string * V)) (m : gmap (option string) V).

Lemma fold_insert_other entries m (k : option string) :
  (forall kv, kv ∈ entries -> kv.1 <> k) ->
  fold_left (fun m kv => <[kv.1 := kv.2]> m) entries m !! k = m !! k.
Proof.
  revert m. induction entries as [|kv entries IH]; intros m Hother; simpl; [done|].
  rewrite IH by (intros kv' Hkv'; apply Hother; by right).
  apply lookup_insert_ne, Hother. by left.
Qed.

(** Last write wins: the entry for a key after which no entry has the same
    key is the one the Map holds. *)
Lemma Map_new_last entries1 entries2 (k : option string) (v : V) :
  (forall kv, kv ∈ entries2 -> kv.1 <> k) ->
  JS.Map_new (entries1 ++ (k, v) :: entries2) !! k = Some v.
Proof.
  intros Hother. unfold JS.Map_new. rewrite fold_left_app. simpl.
  rewrite fold_insert_other by done. apply lookup_insert_eq.
Qed.

Lemma fold_insert_lookup entries m (k : option string) (v : V) :
  fold_left (fun m kv => <[kv.1 := kv.2]> m) entries m !! k = Some v ->
  (k, v) ∈ entries \/ m !! k = Some v.
Proof.
  revert m. induction entries as [|[k' v'] entries IH]; intros m Hlookup; simpl in *.
  - by right.
  - destruct (IH _ Hlookup) as [Hin|Hm]; [left; by right|].
    destruct (decide (k' = k)) as [->|Hne].
    + rewrite lookup_insert_eq in Hm. injection Hm as ->. left. by left.
    + rewrite lookup_insert_ne in Hm by done. by right.
Qed.

Lemma Map_new_lookup entries (k : option string) (v : V) :
  JS.Map_new entries !! k = Some v -> (k, v) ∈ entries.
Proof.
  intros Hlookup. by destruct (fold_insert_lookup entries ∅ k v Hlookup).
Qed.

Lemma Map_new_is_Some entries (k : option string) :
  is_Some (JS.Map_new entries !! k) <-> exists v, (k, v) ∈ entries.
Proof.
  split.
  - intros [v Hv]. exists v. by apply Map_new_lookup.
  - intros [v Hin]. induction entries as [|[k' v'] entries IH] using rev_ind.
    + by apply elem_of_nil in Hin.
    + unfold JS.Map_new. rewrite fold_left_app. simpl.
      destruct (decide (k' = k)) as [->|Hne].
      * rewrite lookup_insert_eq. by eexists.
      * rewrite lookup_insert_ne by done. apply IH.
        apply elem_of_app in Hin as [Hin|Hin]; [done|].
        apply list_elem_of_singleton in Hin. congruence.
Qed.

End MapFacts.

Lemma truthy_spec (v : option string) :
  JS.truthy v = true <-> exists t, v = Some t /\ t <> "".
Proof.
  destruct v as [t|]; simpl.
  - rewrite negb_true_iff, String.eqb_neq. split; [by exists t|]. by intros (? & [= <-] & ?).
  - split; [done|]. by intros (? & ? & ?).
Qed.

Lemma outboundIndex_entries (outboundDocs : list Doc.t) (k : option string) (doc : Doc.t) :
  (k, doc) ∈ List.map (fun doc => (tid doc, doc))
               (List.filter (fun doc => JS.truthy (tid doc)) outboundDocs) <->
  doc ∈ outboundDocs /\ tid doc = k /\ JS.truthy k = true.
Proof.
  rewrite list_elem_of_In, in_map_iff. split.
  - intros (d & [= <- <-] & Hd). apply filter_In in Hd as [Hd Htruthy].
    by rewrite list_elem_of_In.
  - intros (Hdoc & <- & Htruthy). exists doc. split; [done|].
    apply filter_In. by rewrite <- list_elem_of_In.
Qed.

Lemma outboundIndex_lookup (outboundDocs : list Doc.t) (k : option string) (doc : Doc.t) :
  outboundIndex outboundDocs !! k = Some doc ->
  doc ∈ outboundDocs /\ tid doc = k /\ JS.truthy k = true.
Proof.
  intros Hlookup. apply outboundIndex_entries. by apply Map_new_lookup.
Qed.

Lemma outboundIndex_is_Some (outboundDocs : list Doc.t) (k : option string) :
  is_Some (outboundIndex outboundDocs !! k) <->
  exists doc, doc ∈ outboundDocs /\ tid doc = k /\ JS.truthy k = true.
Proof.
  unfold outboundIndex. rewrite Map_new_is_Some.
  split; intros [doc Hdoc]; exists doc; by apply outboundIndex_entries.
Qed.

Lemma outboundIndex_last (earlier later : list Doc.t) (doc : Doc.t) (t : string) :
  tid doc = Some t -> t <> "" ->
  (forall d, d ∈ later -> tid d <> Some t) ->
  outboundIndex (earlier ++ doc :: later) !! Some t = Some doc.
Proof.
  intros Htid Ht Hlater. unfold outboundIndex.
  rewrite List.filter_app. simpl.
  assert (JS.truthy (tid doc) = true) as -> by (apply truthy_spec; by exists t).
  rewrite List.map_app. simpl. rewrite Htid.
  apply Map_new_last. intros [k d] Hkd. simpl.
  apply list_elem_of_In, in_map_iff in Hkd as (d' & [= <- <-] & Hd').
  apply filter_In in Hd' as [Hd' _]. apply Hlater. by apply list_elem_of_In.
Qed.

Lemma buildOutboundMap_unfold (st : State) :
  buildOutboundMap st =
  match outboundDocuments remote (length (calls st)) CONFIG.suppliers_outbound_id with
  | Return outboundDocs =>
      (Return (outboundIndex outboundDocs),
       logged (FetchOutboundDocuments CONFIG.suppliers_outbound_id) st)
  | Throw e => (Throw e, logged (FetchOutboundDocuments CONFIG.suppliers_outbound_id) st)
  end.
Proof.
  unfold buildOutboundMap, bind, fetchOutboundDocuments, call.
  by destruct (outboundDocuments remote (length (calls st)) CONFIG.suppliers_outbound_id).
Qed.

(** C7.  When the outbound documents are fetched, [buildOutboundMap]
    returns a Map in which a transmission identifier that is present and
    not empty is mapped to the last fetched document that carries it, and
    in which every entry is a fetched document under its own transmission
    identifier, present and not empty: a document without one is in no
    entry, and neither [undefined] nor the empty string is a key. *)
Theorem buildOutboundMap_last_write_wins (st : State) (outboundDocs : list Doc.t) :
  outboundDocuments remote (length (calls st)) CONFIG.suppliers_outbound_id
    = Return outboundDocs ->
  exists outboundMap st',
    buildOutboundMap st = (Return outboundMap, st') /\
    (forall earlier doc later t,
       outboundDocs = earlier ++ doc :: later ->
       tid doc = Some t -> t <> "" ->
       (forall d, d ∈ later -> tid d <> Some t) ->
       JS.Map_get outboundMap (Some t) = Some doc) /\
    (forall k doc,
       JS.Map_get outboundMap k = Some doc ->
       doc ∈ outboundDocs /\ tid doc = k /\ exists t, k = Some t /\ t <> "") /\
    JS.Map_has outboundMap None = false /\
    JS.Map_has outboundMap (Some "") = false.
Proof.
  intros Hfetch. rewrite buildOutboundMap_unfold, Hfetch.
  eexists _, _. split; [reflexivity|]. unfold JS.Map_get, JS.Map_has.
  split; [|split; [|split]].
  - intros earlier doc later t -> Htid Ht Hlater. by apply outboundIndex_last.
  - intros k doc Hlookup.
    apply outboundIndex_lookup in Hlookup as (Hdoc & Htid & Htruthy).
    repeat split; [done|done|]. by apply truthy_spec.
  - apply bool_decide_eq_false. intros [doc Hdoc].
    by apply outboundIndex_lookup in Hdoc as (? & ? & ?).
  - apply bool_decide_eq_false. intros [doc Hdoc].
    by apply outboundIndex_lookup in Hdoc as (? & ? & ?).
Qed.

Lemma findMatches_inbound (inboundDocs : list Doc.t)
    (outboundMap : gmap (option string) Doc.t) :
  List.map Match.inbound (findMatches inboundDocs outboundMap)
  = List.filter (fun doc => JS.Map_has outboundMap (tid doc)) inboundDocs.
Proof. unfold findMatches. rewrite map_map. simpl. apply map_id. Qed.

Lemma fetchAndMatchDocuments_unfold (st : State) (inboundDocs outboundDocs : list Doc.t) :
  inboundDocuments remote (length (calls st)) CONFIG.suppliers_inbound_id
    = Return inboundDocs ->
  outboundDocuments remote (S (length (calls st))) CONFIG.suppliers_outbound_id
    = Return outboundDocs ->
  inboundDocs <> [] ->
  fetchAndMatchDocuments st =
  (Return (findMatches inboundDocs (outboundIndex outboundDocs)),
   logged (FetchOutboundDocuments CONFIG.suppliers_outbound_id)
     (logged (FetchInboundDocuments CONFIG.suppliers_inbound_id) st)).
Proof.
  intros Hin Hout Hne.
  unfold fetchAndMatchDocuments, bind at 1, fetchInboundDocuments, call. rewrite Hin.
  destruct inboundDocs as [|d ds]; [done|].
  change (length (d :: ds) =? 0)%nat with false. cbv iota.
  unfold bind. rewrite buildOutboundMap_unfold.
  replace (length (calls (logged _ st))) with (S (length (calls st)))
    by (simpl; rewrite length_app; simpl; lia).
  rewrite Hout.
  by destruct (findMatches (d :: ds) (outboundIndex outboundDocs)).
Qed.

(** C3.  For fetched inbound and outbound lists, the matches have as inbound
    documents exactly the inbound documents whose transmission identifier is
    a key of the outbound index, each paired with the document the index
    holds for it; and an inbound document is the inbound side of a match if
    and only if it was fetched and some fetched outbound document has the
    same transmission identifier, present and not empty.  When both lists
    are fetched and the inbound one is not empty, these are the matches that
    [fetchAndMatchDocuments] returns. *)
Theorem findMatches_iff_shared_transmissionId
    (inboundDocs outboundDocs : list Doc.t) (st : State) :
  let outboundMap := outboundIndex outboundDocs in
  let matches := findMatches inboundDocs outboundMap in
  List.map Match.inbound matches
    = List.filter (fun doc => JS.Map_has outboundMap (tid doc)) inboundDocs /\
  (forall m, m ∈ matches ->
     Match.transmissionId m = tid (Match.inbound m) /\
     exists outDoc, Match.outbound m = Some outDoc /\
       JS.Map_get outboundMap (tid (Match.inbound m)) = Some outDoc) /\
  (forall inDoc,
     (exists m, m ∈ matches /\ Match.inbound m = inDoc) <->
     inDoc ∈ inboundDocs /\
     exists outDoc t,
       outDoc ∈ outboundDocs /\ t <> "" /\ tid outDoc = Some t /\ tid inDoc = Some t) /\
  (inboundDocuments remote (length (calls st)) CONFIG.suppliers_inbound_id
     = Return inboundDocs ->
   outboundDocuments remote (S (length (calls st))) CONFIG.suppliers_outbound_id
     = Return outboundDocs ->
   inboundDocs <> [] ->
   (fetchAndMatchDocuments st).1 = Return matches).
Proof.
  intros outboundMap matches. split; [apply findMatches_inbound|]. split; [|split].
  - intros m Hm. apply list_elem_of_In, in_map_iff in Hm as (inDoc & <- & HinDoc).
    simpl. split; [done|].
    apply filter_In in HinDoc as [_ Hhas]. apply bool_decide_eq_true in Hhas as [outDoc Hout].
    by exists outDoc.
  - intros inDoc. split.
    + intros (m & Hm & <-).
      apply list_elem_of_In, in_map_iff in Hm as (inDoc & <- & HinDoc). simpl.
      apply filter_In in HinDoc as [HinDoc Hhas]. split; [by apply list_elem_of_In|].
      apply bool_decide_eq_true, outboundIndex_is_Some in Hhas
        as (outDoc & Hout & Htid & Htruthy).
      apply truthy_spec in Htruthy as (t & Ht & Hne).
      exists outDoc, t. by rewrite Htid.
    + intros (HinDoc & outDoc & t & Hout & Hne & HtidOut & HtidIn).
      exists {| Match.inbound := inDoc;
                Match.outbound := JS.Map_get outboundMap (tid inDoc);
                Match.transmissionId := tid inDoc |}.
      split; [|reflexivity].
      apply list_elem_of_In, in_map_iff.
      exists inDoc. split; [done|]. apply filter_In. split; [by apply list_elem_of_In|].
      apply bool_decide_eq_true, outboundIndex_is_Some.
      exists outDoc. rewrite HtidIn. repeat split; try done.
      apply truthy_spec. by exists t.
  - intros Hin Hout Hne. by rewrite (fetchAndMatchDocuments_unfold st inboundDocs outboundDocs).
Qed.

(** ** The loops of the run *)

Lemma for_of_app {A S} (xs ys : list A) (body : S -> A -> M S) (s : S) (st : State) :
  for_of (xs ++ ys) body s st = bind (for_of xs body s) (for_of ys body) st.
Proof.
  revert s st. induction xs as [|x xs IH]; intros s st; [reflexivity|].
  simpl. unfold bind in *. destruct (body s x st) as [[s'|e] st']; [apply IH|reflexivity].
Qed.

Lemma fetchXmlDetailsSafe_unfold (docId : string) (st : State) :
  fetchXmlDetailsSafe docId st =
  (Return (detailsOfAnswer (documentXml remote (length (calls st)) docId)),
   logged (FetchDocumentXml docId) st).
Proof.
  unfold fetchXmlDetailsSafe, try_catch, bind, fetchDocumentXml, call.
  by destruct (documentXml remote (length (calls st)) docId).
Qed.

(** ** Partition by invoice date *)

(** Where the loop of [splitByDate] puts one match, given the answer to the
    fetch of its XML. *)
Lemma splitByDate_body_unfold (cutoff : EcmaDate.Date)
    (a b : list Match.t) (m : Match.t) (st : State) :
  splitByDate_body cutoff (a, b) m st =
  (Return
     (if onOrAfter
           (invoiceDateOf m
              (detailsOfAnswer
                 (documentXml remote (length (calls st)) (Doc.id (Match.inbound m)))))
           cutoff
      then (a ++ [m], b) else (a, b ++ [m])),
   logged (FetchDocumentXml (Doc.id (Match.inbound m))) st).
Proof.
  unfold splitByDate_body, bind. rewrite fetchXmlDetailsSafe_unfold.
  by destruct (onOrAfter _ _).
Qed.

Lemma splitByDate_acc (cutoff : EcmaDate.Date) (matches a b : list Match.t) (st : State) :
  for_of matches (splitByDate_body cutoff) (a, b) st =
  match splitByDate matches cutoff st with
  | (Return (a', b'), st') => (Return (a ++ a', b ++ b'), st')
  | (Throw e, st') => (Throw e, st')
  end.
Proof.
  unfold splitByDate. revert a b st.
  induction matches as [|m matches IH]; intros a b st; cbn [for_of].
  - unfold ret. by rewrite !app_nil_r.
  - unfold bind. rewrite !splitByDate_body_unfold.
    destruct (onOrAfter _ _).
    + rewrite (IH (a ++ [m]) b), (IH ([] ++ [m]) []).
      destruct (for_of matches _ _ _) as [[[a' b']|e] st']; [|done].
      simpl. by rewrite <- app_assoc.
    + rewrite (IH a (b ++ [m])), (IH [] ([] ++ [m])).
      destruct (for_of matches _ _ _) as [[[a' b']|e] st']; [|done].
      simpl. by rewrite <- app_assoc.
Qed.

Lemma splitByDate_cons (cutoff : EcmaDate.Date) (m : Match.t) (matches : list Match.t)
    (st : State) :
  splitByDate (m :: matches) cutoff st =
  match splitByDate matches cutoff
          (logged (FetchDocumentXml (Doc.id (Match.inbound m))) st) with
  | (Return (a, b), st') =>
      (Return
         (if onOrAfter
               (invoiceDateOf m
                  (detailsOfAnswer
                     (documentXml remote (length (calls st)) (Doc.id (Match.inbound m)))))
               cutoff
          then (m :: a, b) else (a, m :: b)),
       st')
  | (Throw e, st') => (Throw e, st')
  end.
Proof.
  unfold splitByDate at 1. cbn [for_of]. unfold bind. rewrite splitByDate_body_unfold.
  destruct (onOrAfter _ _); rewrite splitByDate_acc;
    by destruct (splitByDate matches cutoff _) as [[[a b]|e] st'].
Qed.

(** [splitByDate] returns, and its two lists together are the matches. *)
Lemma splitByDate_partitions (cutoff : EcmaDate.Date) (matches : list Match.t) (st : State) :
  exists nov28AndLater beforeNov28 st',
    splitByDate matches cutoff st = (Return (nov28AndLater, beforeNov28), st') /\
    nov28AndLater ++ beforeNov28 ≡ₚ matches.
Proof.
  revert st. induction matches as [|m matches IH]; intros st.
  - by exists [], [], st.
  - rewrite splitByDate_cons.
    destruct (IH (logged (FetchDocumentXml (Doc.id (Match.inbound m))) st))
      as (a & b & st' & -> & Hperm).
    destruct (onOrAfter _ _); eexists _, _, _; (split; [reflexivity|]).
    + simpl. by rewrite Hperm.
    + rewrite <- Permutation_middle. by rewrite Hperm.
Qed.

Lemma splitByDate_app (cutoff : EcmaDate.Date) (pre post : list Match.t) (st : State) :
  splitByDate (pre ++ post) cutoff st =
  match splitByDate pre cutoff st with
  | (Return (a1, b1), st1) =>
      match splitByDate post cutoff st1 with
      | (Return (a2, b2), st2) => (Return (a1 ++ a2, b1 ++ b2), st2)
      | (Throw e, st2) => (Throw e, st2)
      end
  | (Throw e, st1) => (Throw e, st1)
  end.
Proof.
  unfold splitByDate at 1. rewrite for_of_app. unfold bind.
  fold (splitByDate pre cutoff).
  destruct (splitByDate pre cutoff st) as [[[a1 b1]|e] st1]; [|done].
  apply splitByDate_acc.
Qed.

(** The place of one match in the result: the lists of the matches before
    it, then the match in the list its date selects, then the lists of the
    matches after it. *)
Lemma splitByDate_places (cutoff : EcmaDate.Date) (pre post : list Match.t) (m : Match.t)
    (st : State) :
  let st_m := (splitByDate pre cutoff st).2 in
  let xmlDetails :=
    detailsOfAnswer (documentXml remote (length (calls st_m)) (Doc.id (Match.inbound m))) in
  exists a1 b1 a2 b2 st2,
    splitByDate pre cutoff st = (Return (a1, b1), st_m) /\
    splitByDate post cutoff (logged (FetchDocumentXml (Doc.id (Match.inbound m))) st_m)
      = (Return (a2, b2), st2) /\
    splitByDate (pre ++ m :: post) cutoff st =
      (Return (if onOrAfter (invoiceDateOf m xmlDetails) cutoff
               then (a1 ++ m :: a2, b1 ++ b2)
               else (a1 ++ a2, b1 ++ m :: b2)),
       st2).
Proof.
  intros st_m xmlDetails. subst st_m xmlDetails.
  rewrite splitByDate_app.
  destruct (splitByDate_partitions cutoff pre st) as (a1 & b1 & st1 & Hpre & _).
  rewrite Hpre. cbn [fst snd]. rewrite splitByDate_cons.
  destruct (splitByDate_partitions cutoff post
              (logged (FetchDocumentXml (Doc.id (Match.inbound m))) st1))
    as (a2 & b2 & st2 & Hpost & _).
  rewrite Hpost. exists a1, b1, a2, b2, st2. repeat split.
  by destruct (onOrAfter _ _).
Qed.

(** The day of the cutoff is a date in every time zone whose offset is
    less than a day. *)
Lemma dateOnly_cutoffDate_valid :
  (forall t b, - EcmaDate.msPerDay < LocalTZA t b < EcmaDate.msPerDay) ->
  is_Some (dateOnly cutoffDate).
Proof.
  intros Htz. unfold dateOnly, getFullYear, getMonth, getDate, cutoffDate.
  cbn [fmap option_fmap option_map].
  unfold EcmaDate.YearFromTime, EcmaDate.MonthFromTime, EcmaDate.DateFromTime, LocalTime.
  pose proof (Htz 1764288000000 true) as Hoff. unfold EcmaDate.msPerDay in Hoff.
  set (off := LocalTZA 1764288000000 true) in *.
  assert (EcmaDate.Day (1764288000000 + off) = 20419 \/
          EcmaDate.Day (1764288000000 + off) = 20420) as [-> | ->].
  { unfold EcmaDate.Day, EcmaDate.msPerDay.
    destruct (Z.lt_ge_cases off 0).
    - left. symmetry. apply (Z.div_unique _ _ _ (86400000 + off)); lia.
    - right. symmetry. apply (Z.div_unique _ _ _ off); lia. }
  - replace (EcmaDate.civil_from_days 20419) with (2025, 11, 27) by (by vm_compute).
    cbn [fst snd]. unfold Date_of_fields.
    replace (EcmaDate.MakeDay (EcmaDate.MakeFullYear 2025) (11 - 1) 27 * EcmaDate.msPerDay)
      with 1764201600000 by (by vm_compute).
    unfold UTC, EcmaDate.TimeClip.
    pose proof (Htz 1764201600000 false) as Hoff'. unfold EcmaDate.msPerDay in Hoff'.
    destruct (Z.leb_spec (Z.abs (1764201600000 - LocalTZA 1764201600000 false))
                8640000000000000); [by eexists|lia].
  - replace (EcmaDate.civil_from_days 20420) with (2025, 11, 28) by (by vm_compute).
    cbn [fst snd]. unfold Date_of_fields.
    replace (EcmaDate.MakeDay (EcmaDate.MakeFullYear 2025) (11 - 1) 28 * EcmaDate.msPerDay)
      with 1764288000000 by (by vm_compute).
    unfold UTC, EcmaDate.TimeClip.
    pose proof (Htz 1764288000000 false) as Hoff'. unfold EcmaDate.msPerDay in Hoff'.
    destruct (Z.leb_spec (Z.abs (1764288000000 - LocalTZA 1764288000000 false))
                8640000000000000); [by eexists|lia].
Qed.

Lemma onOrAfter_same_day (invoiceDate cutoff : EcmaDate.Date) :
  is_Some (dateOnly cutoff) -> dateOnly invoiceDate = dateOnly cutoff ->
  onOrAfter invoiceDate cutoff = true.
Proof.
  intros [t Ht] Hsame. unfold onOrAfter. rewrite Hsame, Ht. simpl. apply Z.leb_refl.
Qed.

(** C5.  In a time zone whose offset is less than a day, a match whose
    invoice date (the issue date of its XML, or else the [createdAt] of the
    inbound document) has the same day as the cutoff 2025-11-28T00:00:00Z,
    both reduced to local midnight as [splitByDate] reduces them, is put in
    [nov28AndLater] and not in [beforeNov28]: the result of [splitByDate]
    is the result for the matches before it, then this match in
    [nov28AndLater], then the result for the matches after it. *)
Theorem splitByDate_cutoff_day_is_on_or_after
    (pre post : list Match.t) (m : Match.t) (st : State) :
  (forall t b, - EcmaDate.msPerDay < LocalTZA t b < EcmaDate.msPerDay) ->
  let st_m := (splitByDate pre cutoffDate st).2 in
  let xmlDetails :=
    detailsOfAnswer (documentXml remote (length (calls st_m)) (Doc.id (Match.inbound m))) in
  dateOnly (invoiceDateOf m xmlDetails) = dateOnly cutoffDate ->
  onOrAfter (invoiceDateOf m xmlDetails) cutoffDate = true /\
  exists a1 b1 a2 b2 st2,
    splitByDate pre cutoffDate st = (Return (a1, b1), st_m) /\
    splitByDate post cutoffDate (logged (FetchDocumentXml (Doc.id (Match.inbound m))) st_m)
      = (Return (a2, b2), st2) /\
    splitByDate (pre ++ m :: post) cutoffDate st
      = (Return (a1 ++ m :: a2, b1 ++ b2), st2).
Proof.
  intros Htz st_m xmlDetails Hsame.
  assert (onOrAfter (invoiceDateOf m xmlDetails) cutoffDate = true) as Hon
    by (apply onOrAfter_same_day; [by apply dateOnly_cutoffDate_valid|done]).
  split; [done|].
  destruct (splitByDate_places cutoffDate pre post m st)
    as (a1 & b1 & a2 & b2 & st2 & Hpre & Hpost & Hall).
  fold st_m in Hpre, Hpost, Hall. fold xmlDetails in Hall. rewrite Hon in Hall.
  by exists a1, b1, a2, b2, st2.
Qed.

Lemma match_first_absent (open close s : string) :
  JS.occurs_in open s = false -> JS.match_first open close s = None.
Proof.
  induction s as [|c s IH]; cbn [JS.occurs_in JS.match_first]; intros Habsent.
  - apply orb_false_iff in Habsent as [Hprefix _].
    unfold JS.match_here. by rewrite Hprefix.
  - apply orb_false_iff in Habsent as [Hprefix Hrest].
    unfold JS.match_here. rewrite Hprefix. by apply IH.
Qed.

Lemma parseInvoiceDetails_no_issueDate (xml : string) :
  JS.occurs_in "<cbc:IssueDate>" xml = false ->
  Details.issueDate (parseInvoiceDetails xml) = None.
Proof.
  intros Habsent. unfold parseInvoiceDetails, extractField. simpl.
  change ("<cbc:" +:+ "IssueDate" +:+ ">") with "<cbc:IssueDate>".
  by rewrite (match_first_absent _ _ _ Habsent).
Qed.

(** C10.  [splitByDate] returns for every list of matches, and its two
    lists together hold every match once.  A match whose XML fetch throws,
    or whose XML has no [<cbc:IssueDate>] element, is placed by the
    [createdAt] of its inbound document: in [nov28AndLater] when the day of
    that date is on or after the day of the cutoff, in [beforeNov28]
    otherwise. *)
Theorem splitByDate_falls_back_to_createdAt
    (cutoff : EcmaDate.Date) (pre post : list Match.t) (m : Match.t) (st : State) :
  (forall matches st0,
     exists nov28AndLater beforeNov28 st',
       splitByDate matches cutoff st0 = (Return (nov28AndLater, beforeNov28), st') /\
       nov28AndLater ++ beforeNov28 ≡ₚ matches) /\
  let st_m := (splitByDate pre cutoff st).2 in
  let createdAt := Date_parse (Doc.createdAt (Doc.attributes (Match.inbound m))) in
  (match documentXml remote (length (calls st_m)) (Doc.id (Match.inbound m)) with
   | Return xml => JS.occurs_in "<cbc:IssueDate>" xml = false
   | Throw _ => True
   end) ->
  exists a1 b1 a2 b2 st2,
    splitByDate pre cutoff st = (Return (a1, b1), st_m) /\
    splitByDate post cutoff (logged (FetchDocumentXml (Doc.id (Match.inbound m))) st_m)
      = (Return (a2, b2), st2) /\
    splitByDate (pre ++ m :: post) cutoff st
      = (Return (if onOrAfter createdAt cutoff
                 then (a1 ++ m :: a2, b1 ++ b2)
                 else (a1 ++ a2, b1 ++ m :: b2)),
         st2).
Proof.
  split; [intros matches st0; apply splitByDate_partitions|].
  intros st_m createdAt Hanswer.
  destruct (splitByDate_places cutoff pre post m st)
    as (a1 & b1 & a2 & b2 & st2 & Hpre & Hpost & Hall).
  fold st_m in Hpre, Hpost, Hall.
  exists a1, b1, a2, b2, st2. split; [done|]. split; [done|].
  rewrite Hall. unfold invoiceDateOf.
  destruct (documentXml remote (length (calls st_m)) (Doc.id (Match.inbound m)))
    as [xml|e]; cbn [detailsOfAnswer].
  - by rewrite (parseInvoiceDetails_no_issueDate xml Hanswer).
  - done.
Qed.

(** ** Sorting the matches by invoice number *)

Lemma consistentOnb_sound {A} (comparefn : A -> A -> JS.Number) (l : list A) :
  JS.consistentOnb comparefn l = true -> JS.consistentOn comparefn l.
Proof.
  unfold JS.consistentOnb, JS.consistentOn, JS.before.
  rewrite andb_true_iff, !forallb_forall. intros [Htot Htrans]. split.
  - intros x y Hx%list_elem_of_In Hy%list_elem_of_In.
    specialize (Htot x Hx). rewrite forallb_forall in Htot. specialize (Htot y Hy).
    apply orb_true_iff in Htot as [H|H]; apply Z.leb_le in H; auto.
  - intros x y z Hx%list_elem_of_In Hy%list_elem_of_In Hz%list_elem_of_In Hxy Hyz.
    specialize (Htrans x Hx). rewrite forallb_forall in Htrans.
    specialize (Htrans y Hy). rewrite forallb_forall in Htrans.
    specialize (Htrans z Hz).
    apply Z.leb_le in Hxy, Hyz. rewrite Hxy, Hyz in Htrans. simpl in Htrans.
    by apply Z.leb_le.
Qed.

Lemma StronglySorted_lookup {A} (R : A -> A -> Prop) (l : list A) (i j : nat) (a b : A) :
  StronglySorted R l -> (i < j)%nat -> l !! i = Some a -> l !! j = Some b -> R a b.
Proof.
  intros Hsorted. revert i j. induction Hsorted as [|x l Hsorted IH Hall]; intros i j Hij Hi Hj.
  - by rewrite lookup_nil in Hi.
  - destruct j as [|j]; [lia|]. simpl in Hj. destruct i as [|i].
    + injection Hi as <-. rewrite Forall_forall in Hall.
      apply Hall. by eapply list_elem_of_lookup_2.
    + simpl in Hi. apply (IH i j); [lia|done|done].
Qed.

Lemma withInvoiceNumber_unfold (m : Match.t) (st : State) :
  withInvoiceNumber m st =
  (Return (m, Details.invoiceNumber
                (detailsOfAnswer
                   (documentXml remote (length (calls st)) (Doc.id (Match.inbound m))))),
   logged (FetchDocumentXml (Doc.id (Match.inbound m))) st).
Proof. unfold withInvoiceNumber, bind. by rewrite fetchXmlDetailsSafe_unfold. Qed.

(** The invoice numbers are fetched for the matches in their order, and
    the fetch of none of them throws. *)
Lemma withInvoiceNumber_all (matches : list Match.t) (st : State) :
  exists numbered st',
    map_async withInvoiceNumber matches st = (Return numbered, st') /\
    List.map fst numbered = matches.
Proof.
  revert st. induction matches as [|m matches IH]; intros st.
  - by exists [], st.
  - cbn [map_async]. unfold bind. rewrite withInvoiceNumber_unfold.
    destruct (IH (logged (FetchDocumentXml (Doc.id (Match.inbound m))) st))
      as (numbered & st' & -> & Hfst).
    eexists _, _. split; [reflexivity|]. simpl. by rewrite Hfst.
Qed.

Lemma byInvoiceNumber_before (a b : Match.t * string) :
  JS.before byInvoiceNumber a b <->
  match JS.parseInt a.2, JS.parseInt b.2 with
  | Some x, Some y => x <= y
  | _, _ => localeCompare a.2 b.2 <= 0
  end.
Proof.
  unfold JS.before, JS.sort_key, byInvoiceNumber.
  destruct (JS.parseInt a.2) as [x|], (JS.parseInt b.2) as [y|]; simpl; try done. lia.
Qed.

(** C8.  [sortMatchesByInvoiceNumber] returns, for the invoice numbers it
    fetched, the matches rearranged by [Array.prototype.sort] under the
    comparator that subtracts the two [parseInt(_, 10)] values when both
    are numbers and calls [localeCompare] otherwise.  The result is a
    rearrangement of the matches; and when that comparator is consistent on
    the fetched numbers, of which the ones that parse are safe integers,
    then of any two entries of the result the earlier has the smaller or
    equal number when both parse, and does not follow the later under
    [localeCompare] when at least one does not parse. *)
Theorem sortMatchesByInvoiceNumber_orders (matches : list Match.t) (st : State) :
  exists numbered st',
    map_async withInvoiceNumber matches st = (Return numbered, st') /\
    List.map fst numbered = matches /\
    let sorted := JS.sort byInvoiceNumber numbered in
    sortMatchesByInvoiceNumber matches st = (Return (List.map fst sorted), st') /\
    sorted ≡ₚ numbered /\
    List.map fst sorted ≡ₚ matches /\
    (JS.consistentOn byInvoiceNumber numbered ->
     (forall mn n, mn ∈ numbered -> JS.parseInt mn.2 = Some n -> Z.abs n <= 2 ^ 53) ->
     forall i j a b,
       (i < j)%nat -> sorted !! i = Some a -> sorted !! j = Some b ->
       match JS.parseInt a.2, JS.parseInt b.2 with
       | Some x, Some y => x <= y
       | _, _ => localeCompare a.2 b.2 <= 0
       end).
Proof.
  destruct (withInvoiceNumber_all matches st) as (numbered & st' & Hasync & Hfst).
  exists numbered, st'. split; [done|]. split; [done|]. intros sorted.
  split; [|split; [|split]].
  - unfold sortMatchesByInvoiceNumber, bind. by rewrite Hasync.
  - apply sort_Permutation.
  - rewrite <- Hfst. apply Permutation_map, sort_Permutation.
  - intros Hcons _ i j a b Hij Hi Hj.
    apply byInvoiceNumber_before.
    by apply (StronglySorted_lookup _ sorted i j a b (sort_sorted _ _ Hcons)).
Qed.

(** ** The calls of a run *)

Lemma sendsOnly_ret {A} (P : string -> Prop) (a : A) : sendsOnly P (ret a).
Proof. intros st. exists []. split; [by rewrite app_nil_r|]. by intros ? ? ?%elem_of_nil. Qed.

Lemma sendsOnly_throw {A} (P : string -> Prop) (e : Err.t) : sendsOnly P (@throw A e).
Proof. intros st. exists []. split; [by rewrite app_nil_r|]. by intros ? ? ?%elem_of_nil. Qed.

Lemma sendsOnly_bind {A B} (P : string -> Prop) (m : M A) (k : A -> M B) :
  sendsOnly P m -> (forall a, sendsOnly P (k a)) -> sendsOnly P (bind m k).
Proof.
  intros Hm Hk st. destruct (Hm st) as (new1 & Hcalls1 & Hsends1). unfold bind.
  destruct (m st) as [[a|e] st1]; simpl in *.
  - destruct (Hk a st1) as (new2 & Hcalls2 & Hsends2).
    exists (new1 ++ new2). split; [by rewrite Hcalls2, Hcalls1, app_assoc|].
    intros documentId code [?|?]%elem_of_app; eauto.
  - by exists new1.
Qed.

Lemma sendsOnly_try_catch {A} (P : string -> Prop) (m : M A) (h : Err.t -> M A) :
  sendsOnly P m -> (forall e, sendsOnly P (h e)) -> sendsOnly P (try_catch m h).
Proof.
  intros Hm Hh st. destruct (Hm st) as (new1 & Hcalls1 & Hsends1). unfold try_catch.
  destruct (m st) as [[a|e] st1]; simpl in *.
  - by exists new1.
  - destruct (Hh e st1) as (new2 & Hcalls2 & Hsends2).
    exists (new1 ++ new2). split; [by rewrite Hcalls2, Hcalls1, app_assoc|].
    intros documentId code [?|?]%elem_of_app; eauto.
Qed.

Lemma sendsOnly_call {A} (P : string -> Prop) (c : Call) (answer : nat -> Outcome A) :
  (forall documentId code, c = SendBusinessStatus documentId code -> P documentId) ->
  sendsOnly P (call c answer).
Proof.
  intros Hc st. exists [c]. split; [done|].
  intros documentId code Hin%list_elem_of_singleton. by apply (Hc documentId code).
Qed.

Lemma sendsOnly_for_of {A S} (P : string -> Prop) (xs : list A) (body : S -> A -> M S) (s : S) :
  (forall s x, x ∈ xs -> sendsOnly P (body s x)) -> sendsOnly P (for_of xs body s).
Proof.
  revert s. induction xs as [|x xs IH]; intros s Hbody; simpl.
  - apply sendsOnly_ret.
  - apply sendsOnly_bind; [apply Hbody; by left|].
    intros s'. apply IH. intros s'' y Hy. apply Hbody. by right.
Qed.

Lemma sendsOnly_map_async {A B} (P : string -> Prop) (f : A -> M B) (xs : list A) :
  (forall x, sendsOnly P (f x)) -> sendsOnly P (map_async f xs).
Proof.
  intros Hf. induction xs as [|x xs IH]; simpl.
  - apply sendsOnly_ret.
  - apply sendsOnly_bind; [apply Hf|]. intros y.
    apply sendsOnly_bind; [apply IH|]. intros ys. apply sendsOnly_ret.
Qed.

Lemma sendsOnly_storeResult (P : string -> Prop) (documentId phase : string)
    (result : SendResult) :
  sendsOnly P (storeResult documentId phase result).
Proof. intros st. exists []. split; [by rewrite app_nil_r|]. by intros ? ? ?%elem_of_nil. Qed.

Create HintDb sends discriminated.

#[local] Hint Resolve sendsOnly_ret sendsOnly_throw sendsOnly_bind sendsOnly_try_catch
  sendsOnly_for_of sendsOnly_map_async sendsOnly_storeResult : sends.
#[local] Hint Extern 1 (sendsOnly _ (call _ _)) =>
  apply sendsOnly_call; intros ? ?; discriminate : sends.
#[local] Hint Extern 4 (sendsOnly _ (match ?x with _ => _ end)) => destruct x : sends.
#[local] Hint Extern 4 (sendsOnly _ (if ?x then _ else _)) => destruct x : sends.

(** The fetches submit nothing. *)
Lemma sendsOnly_fetchXmlDetailsSafe (P : string -> Prop) (docId : string) :
  sendsOnly P (fetchXmlDetailsSafe docId).
Proof. unfold fetchXmlDetailsSafe, fetchDocumentXml. auto 10 with sends. Qed.

Lemma sendsOnly_fetchBusinessStatusSafe (P : string -> Prop) (docId : string) :
  sendsOnly P (fetchBusinessStatusSafe docId).
Proof. unfold fetchBusinessStatusSafe, fetchInboundBusinessStatuses. auto 10 with sends. Qed.

Lemma sendsOnly_buildOutboundMap (P : string -> Prop) : sendsOnly P buildOutboundMap.
Proof. unfold buildOutboundMap, fetchOutboundDocuments. auto 10 with sends. Qed.

Lemma sendsOnly_analyzeDocument (P : string -> Prop) (documentId : string) :
  sendsOnly P (analyzeDocument documentId).
Proof. unfold analyzeDocument, fetchInboundBusinessStatuses. auto 10 with sends. Qed.

#[local] Hint Resolve sendsOnly_fetchXmlDetailsSafe sendsOnly_fetchBusinessStatusSafe
  sendsOnly_buildOutboundMap sendsOnly_analyzeDocument : sends.

Lemma sendsOnly_fetchAndMatchDocuments (P : string -> Prop) :
  sendsOnly P fetchAndMatchDocuments.
Proof. unfold fetchAndMatchDocuments, fetchInboundDocuments. auto 10 with sends. Qed.

Lemma sendsOnly_analyzeAllDocuments (P : string -> Prop) (matches : list Match.t) :
  sendsOnly P (analyzeAllDocuments matches).
Proof. unfold analyzeAllDocuments, analyzeAllDocuments_body. auto 10 with sends. Qed.

Lemma sendsOnly_splitByDate (P : string -> Prop) (matches : list Match.t)
    (cutoff : EcmaDate.Date) :
  sendsOnly P (splitByDate matches cutoff).
Proof.
  unfold splitByDate. apply sendsOnly_for_of. intros [a b] m _.
  unfold splitByDate_body. auto 10 with sends.
Qed.

Lemma sendsOnly_sortMatchesByInvoiceNumber (P : string -> Prop) (matches : list Match.t) :
  sendsOnly P (sortMatchesByInvoiceNumber matches).
Proof. unfold sortMatchesByInvoiceNumber, withInvoiceNumber. auto 10 with sends. Qed.

#[local] Hint Resolve sendsOnly_sortMatchesByInvoiceNumber : sends.

Lemma sendsOnly_ask {A} (P : string -> Prop) (answer : nat -> Outcome A) :
  sendsOnly P (ask answer).
Proof. intros st. exists []. split; [by rewrite app_nil_r|]. by intros ? ? ?%elem_of_nil. Qed.

Lemma sendsOnly_printOutboundSection (P : string -> Prop) (doc : option Doc.t) :
  sendsOnly P (printOutboundSection doc).
Proof. unfold printOutboundSection. auto with sends. Qed.

Lemma sendsOnly_writeInvoiceToFile (P : string -> Prop) (m : Match.t) :
  sendsOnly P (writeInvoiceToFile m).
Proof. unfold writeInvoiceToFile. auto with sends. Qed.

#[local] Hint Resolve sendsOnly_ask sendsOnly_printOutboundSection
  sendsOnly_writeInvoiceToFile : sends.

Lemma sendsOnly_printFinalResults (P : string -> Prop) (matches : list Match.t) :
  sendsOnly P (printFinalResults matches).
Proof. unfold printFinalResults, printMatch. auto 12 with sends. Qed.

Lemma sendsOnly_saveReportToFile (P : string -> Prop) (matches : list Match.t) :
  sendsOnly P (saveReportToFile matches).
Proof. unfold saveReportToFile, fileWriter_init, fileWriter_save. auto 14 with sends. Qed.

(** A submission is for the document it is asked for. *)
Lemma sendsOnly_sendStatus (P : string -> Prop) (documentId statusCode : string) :
  P documentId -> sendsOnly P (sendStatus documentId statusCode).
Proof.
  intros HP. unfold sendStatus, sendBusinessStatus.
  apply sendsOnly_try_catch; [|auto with sends].
  apply sendsOnly_bind; [|auto 10 with sends].
  apply sendsOnly_call. by intros ? ? [= <- _].
Qed.

Lemma sendsOnly_sendStatuses (documents : list Item.t) (phase : string)
    (getStatusCode : M string) :
  sendsOnly (fun _ => False) getStatusCode ->
  sendsOnly (fun documentId => exists doc, doc ∈ documents /\ Item.documentId doc = documentId)
    (sendStatuses documents phase getStatusCode).
Proof.
  intros Hget. unfold sendStatuses. apply sendsOnly_for_of. intros successCount doc Hdoc.
  apply sendsOnly_bind.
  { intros st. destruct (Hget st) as (new & Hcalls & Hsends).
    exists new. split; [done|]. intros documentId code Hin. by destruct (Hsends _ _ Hin). }
  intros statusCode. apply sendsOnly_bind; [apply sendsOnly_sendStatus; by exists doc|].
  auto with sends.
Qed.

Lemma sendsOnly_getRandomFinalStatus (P : string -> Prop) : sendsOnly P getRandomFinalStatus.
Proof. unfold getRandomFinalStatus, randomChoice2. auto 10 with sends. Qed.

(** Step 2 submits only for analysed documents that need a final status. *)
Lemma sendsOnly_sendForPartition (analysis : list Item.t) (part : list Match.t) :
  sendsOnly
    (fun documentId =>
       exists a, a ∈ analysis /\ Item.documentId a = documentId /\
                 Analysis.needsFinalStatus (Item.analysis a) = true)
    (sendForPartition analysis part).
Proof.
  unfold sendForPartition.
  destruct (0 <? length part)%nat; [|apply sendsOnly_ret].
  destruct (0 <? length _)%nat; [|apply sendsOnly_ret].
  apply sendsOnly_bind; [|intros; apply sendsOnly_ret].
  unfold sendFinalStatuses. intros st.
  destruct (sendsOnly_sendStatuses (needingFinal (analysisOf analysis part)) "final"
              getRandomFinalStatus (sendsOnly_getRandomFinalStatus _) st)
    as (new & Hcalls & Hsends).
  exists new. split; [done|]. intros documentId code Hin.
  destruct (Hsends _ _ Hin) as (doc & Hdoc & <-).
  unfold needingFinal, analysisOf in Hdoc.
  apply list_elem_of_In, filter_In in Hdoc as [Hdoc Hneeds].
  apply filter_In in Hdoc as [Hdoc _]. exists doc. by rewrite list_elem_of_In.
Qed.

Lemma sendsOnly_afterAnalysis (matches : list Match.t) (analysis : list Item.t) :
  sendsOnly
    (fun documentId =>
       exists a, a ∈ analysis /\ Item.documentId a = documentId /\
                 Analysis.needsFinalStatus (Item.analysis a) = true)
    (afterAnalysis matches analysis).
Proof.
  unfold afterAnalysis.
  apply sendsOnly_bind; [apply sendsOnly_splitByDate|]. intros [nov28AndLater beforeNov28].
  apply sendsOnly_bind; [apply sendsOnly_sendForPartition|]. intros _.
  apply sendsOnly_bind; [apply sendsOnly_sendForPartition|]. intros _.
  apply sendsOnly_bind; [apply sendsOnly_printFinalResults|]. intros _.
  apply sendsOnly_saveReportToFile.
Qed.

(** ** No submission for a document with a final status *)

Lemma analyzeAllDocuments_body_returns (results res : list Item.t) (m : Match.t)
    (st st' : State) :
  analyzeAllDocuments_body results m st = (Return res, st') ->
  exists a, res = results ++ [a] /\ analysed m a.
Proof.
  unfold analyzeAllDocuments_body, analyzeDocument, bind, fetchInboundBusinessStatuses, call.
  destruct (inboundBusinessStatuses remote (length (calls st)) (Doc.id (Match.inbound m)))
    as [statuses|e]; [|discriminate].
  destruct (Match.outbound m); [|discriminate].
  unfold ret. intros [= <- _]. eexists. split; [reflexivity|]. by split.
Qed.

Lemma analyzeAllDocuments_loop (matches : list Match.t) (results res : list Item.t)
    (st st' : State) :
  for_of matches analyzeAllDocuments_body results st = (Return res, st') ->
  exists items, res = results ++ items /\ Forall2 analysed matches items.
Proof.
  revert results st. induction matches as [|m matches IH]; intros results st Hloop.
  - injection Hloop as <- _. exists []. by rewrite app_nil_r.
  - cbn [for_of] in Hloop. unfold bind in Hloop.
    destruct (analyzeAllDocuments_body results m st) as [[res1|e] st1] eqn:Hbody;
      [|discriminate].
    apply analyzeAllDocuments_body_returns in Hbody as (a & -> & Ha).
    apply IH in Hloop as (items & -> & Hitems).
    exists (a :: items). split; [by rewrite <- app_assoc|by constructor].
Qed.

Lemma analyzeAllDocuments_returns (matches : list Match.t) (analysis : list Item.t)
    (st st' : State) :
  analyzeAllDocuments matches st = (Return analysis, st') ->
  Forall2 analysed matches analysis.
Proof.
  intros Hrun. by apply analyzeAllDocuments_loop in Hrun as (items & -> & Hitems).
Qed.

(** When the code of the latest status is final, some status of the list
    is final. *)
Lemma latest_final_hasAnyStatus (statuses : list Status.t) :
  isFinal (Latest.code (getLatestStatus statuses)) = true ->
  hasAnyStatus statuses CONFIG.finalStatuses = true.
Proof.
  unfold isFinal. intros Hfinal. destruct statuses as [|s0 statuses0]; [done|].
  set (statuses := s0 :: statuses0) in *.
  rewrite (getLatestStatus_unfold statuses) in Hfinal by done.
  destruct (JS.sort byCreatedAtDescending statuses) as [|r rest] eqn:Hsort; [done|].
  assert (r ∈ statuses) as Hr
    by (rewrite <- (sort_Permutation byCreatedAtDescending statuses), Hsort; by left).
  apply hasAnyStatus_final. exists r. split; [done|].
  apply includes_final in Hfinal. simpl in Hfinal.
  destruct (Status.code (Status.attributes r)) as [c|]; simpl in Hfinal.
  - destruct (String.eqb c "");
      destruct Hfinal as [[= Hfinal]|[= Hfinal]]; try discriminate; subst; auto.
  - destruct Hfinal as [[= Hfinal]|[= Hfinal]]; discriminate.
Qed.

(** A run submits only after the matches were found and analysed. *)
Lemma submission_needs_analysis (documentId code : string) :
  SendBusinessStatus documentId code ∈ calls (generateReport initialState).2 ->
  exists matches s0 analysis s1,
    fetchAndMatchDocuments initialState = (Return matches, s0) /\
    analyzeAllDocuments matches s0 = (Return analysis, s1).
Proof.
  intros Hsent.
  destruct (sendsOnly_fetchAndMatchDocuments (fun _ => False) initialState)
    as (new0 & Hcalls0 & Hsends0).
  unfold generateReport, bind in Hsent.
  destruct (fetchAndMatchDocuments initialState) as [[matches|e] s0] eqn:Hfetch;
    simpl in Hcalls0.
  - destruct (sendsOnly_analyzeAllDocuments (fun _ => False) matches s0)
      as (new1 & Hcalls1 & Hsends1).
    destruct (length matches =? 0)%nat.
    + simpl in Hsent. rewrite Hcalls0 in Hsent. by destruct (Hsends0 _ _ Hsent).
    + destruct (analyzeAllDocuments matches s0) as [[analysis|e] s1] eqn:Hanalyze.
      * by exists matches, s0, analysis, s1.
      * simpl in Hsent, Hcalls1. rewrite Hcalls1, Hcalls0 in Hsent. simpl in Hsent.
        apply elem_of_app in Hsent as [Hsent|Hsent].
        -- by destruct (Hsends0 _ _ Hsent).
        -- by destruct (Hsends1 _ _ Hsent).
  - simpl in Hsent. rewrite Hcalls0 in Hsent. by destruct (Hsends0 _ _ Hsent).
Qed.

(** C1.  A run of [generateReport] submits a status only after the matches
    were found and analysed.  The analysis has one entry per matched
    inbound document, with the status list fetched for it; and for a
    document of which every entry (there is one, IDs being unique) has a
    status list whose latest record by [createdAt] has code 'accepted' or
    'rejected', no call of the run submits a status. *)
Theorem no_submission_after_final_status :
  (forall documentId code,
     SendBusinessStatus documentId code ∈ calls (generateReport initialState).2 ->
     exists matches s0 analysis s1,
       fetchAndMatchDocuments initialState = (Return matches, s0) /\
       analyzeAllDocuments matches s0 = (Return analysis, s1)) /\
  (forall matches s0 analysis s1,
     fetchAndMatchDocuments initialState = (Return matches, s0) ->
     analyzeAllDocuments matches s0 = (Return analysis, s1) ->
     List.map Item.documentId analysis
       = List.map (fun m => Doc.id (Match.inbound m)) matches /\
     forall documentId,
       (forall a, a ∈ analysis -> Item.documentId a = documentId ->
          let latest := getLatestStatus (Analysis.statuses (Item.analysis a)) in
          Latest.code latest = "accepted" \/ Latest.code latest = "rejected") ->
       forall code,
         SendBusinessStatus documentId code ∉ calls (generateReport initialState).2).
Proof.
  split; [apply submission_needs_analysis|].
  intros matches s0 analysis s1 Hfetch Hanalyze.
  pose proof (analyzeAllDocuments_returns _ _ _ _ Hanalyze) as Hitems.
  split.
  { clear -Hitems. induction Hitems as [|m a ms items [Hid _] _ IH]; simpl; [done|].
    by rewrite Hid, IH. }
  intros documentId Hfinal code Hsent.
  destruct (sendsOnly_fetchAndMatchDocuments (fun _ => False) initialState)
    as (new0 & Hcalls0 & Hsends0).
  destruct (sendsOnly_analyzeAllDocuments (fun _ => False) matches s0)
    as (new1 & Hcalls1 & Hsends1).
  rewrite Hfetch in Hcalls0. rewrite Hanalyze in Hcalls1. simpl in Hcalls0, Hcalls1.
  unfold generateReport, bind in Hsent. rewrite Hfetch in Hsent.
  destruct matches as [|m matches].
  { simpl in Hsent. rewrite Hcalls0 in Hsent. by destruct (Hsends0 _ _ Hsent). }
  change (length (m :: matches) =? 0)%nat with false in Hsent. cbv beta iota in Hsent.
  rewrite Hanalyze in Hsent.
  destruct (sendsOnly_afterAnalysis (m :: matches) analysis s1) as (new2 & Hcalls2 & Hsends2).
  rewrite Hcalls2, Hcalls1, Hcalls0 in Hsent. simpl in Hsent.
  apply elem_of_app in Hsent as [Hsent|Hsent];
    [apply elem_of_app in Hsent as [Hsent|Hsent]|].
  - by destruct (Hsends0 _ _ Hsent).
  - by destruct (Hsends1 _ _ Hsent).
  - destruct (Hsends2 _ _ Hsent) as (a & Ha & Hid & Hneeds).
    assert (Analysis.needsFinalStatus (Item.analysis a) = false) as Hcomplete; [|congruence].
    pose proof Ha as Ha'.
    apply list_elem_of_lookup in Ha' as [i Hi].
    destruct (Forall2_lookup_r _ _ _ _ _ Hitems Hi) as (m' & _ & _ & ->).
    rewrite latest_final_hasAnyStatus; [done|].
    unfold isFinal. apply includes_final.
    destruct (Hfinal a Ha Hid) as [-> | ->]; [by left|by right].
Qed.

(** * Further properties of the code *)

(** ** XmlParser.extractField *)

Lemma append_nil (s : string) : "" +:+ s = s.
Proof. reflexivity. Qed.

Lemma append_cons (c : ascii) (p s : string) : String c p +:+ s = String c (p +:+ s).
Proof. reflexivity. Qed.

Lemma append_assoc (s1 s2 s3 : string) : (s1 +:+ s2) +:+ s3 = s1 +:+ (s2 +:+ s3).
Proof.
  induction s1 as [|c s1 IH]; [reflexivity|]. by rewrite !append_cons, IH.
Qed.

Lemma prefix_append (p s : string) : String.prefix p (p +:+ s) = true.
Proof.
  induction p as [|c p IH]; [by destruct s|]. rewrite append_cons. cbn [String.prefix].
  destruct (ascii_dec c c) as [_|Hne]; [exact IH|done].
Qed.

Lemma prefix_drop (p s : string) :
  String.prefix p s = true -> s = p +:+ JS.drop_string (String.length p) s.
Proof.
  revert s. induction p as [|c p IH]; intros s Hp; [reflexivity|].
  destruct s as [|c' s]; [discriminate Hp|]. cbn [String.prefix] in Hp.
  destruct (ascii_dec c c') as [<-|Hne]; [|done].
  rewrite append_cons. cbn [String.length JS.drop_string]. f_equal. by apply IH.
Qed.

Lemma drop_append (p s : string) : JS.drop_string (String.length p) (p +:+ s) = s.
Proof.
  induction p as [|c p IH]; [by destruct s|].
  rewrite append_cons. cbn [String.length JS.drop_string]. exact IH.
Qed.

(** What [span_not_lt] splits off: the longest run without [<]. *)
Lemma span_not_lt_spec (s run rest : string) :
  JS.span_not_lt s = (run, rest) ->
  s = run +:+ rest /\ JS.occurs_in "<" run = false /\
  (rest = "" \/ exists rest', rest = String "<"%char rest').
Proof.
  revert run rest. induction s as [|c s IH]; intros run rest Hspan; simpl in Hspan.
  - injection Hspan as <- <-. repeat split; auto.
  - destruct (Ascii.eqb_spec c "<"%char) as [->|Hc].
    + injection Hspan as <- <-. repeat split; eauto.
    + destruct (JS.span_not_lt s) as [run' rest'] eqn:Hs.
      injection Hspan as <- <-.
      destruct (IH run' rest' eq_refl) as (-> & Hrun & Hrest).
      split; [done|]. split; [|done].
      cbn [JS.occurs_in String.prefix]. rewrite Hrun, orb_false_r.
      destruct (ascii_dec "<"%char c) as [Heq|_]; [by destruct Hc|done].
Qed.

Lemma span_not_lt_append (v s : string) :
  JS.occurs_in "<" v = false ->
  JS.span_not_lt (v +:+ String "<"%char s) = (v, String "<"%char s).
Proof.
  induction v as [|c v IH]; intros Hv.
  - reflexivity.
  - cbn [JS.occurs_in] in Hv. apply orb_false_iff in Hv as [Hc Hv].
    rewrite append_cons. cbn [JS.span_not_lt].
    destruct (Ascii.eqb_spec c "<"%char) as [->|_].
    + exfalso. cbn in Hc. by destruct v.
    + by rewrite (IH Hv).
Qed.

Lemma match_here_spec (open close s v : string) :
  JS.match_here open close s = Some v ->
  v <> "" /\ JS.occurs_in "<" v = false /\
  exists post, s = open +:+ v +:+ close +:+ post.
Proof.
  unfold JS.match_here. destruct (String.prefix open s) eqn:Hopen; [|done].
  destruct (JS.span_not_lt _) as [run rest] eqn:Hspan.
  destruct (negb (String.eqb run "")) eqn:Hrun; [|done].
  destruct (String.prefix close rest) eqn:Hclose; [|done].
  simpl. intros [= <-].
  apply span_not_lt_spec in Hspan as (Hs & Hno & _).
  apply negb_true_iff, String.eqb_neq in Hrun.
  split; [done|]. split; [done|].
  exists (JS.drop_string (String.length close) rest).
  rewrite (prefix_drop open s Hopen) at 1. rewrite Hs.
  by rewrite (prefix_drop close rest Hclose) at 1.
Qed.

Lemma match_first_spec (open close s v : string) :
  JS.match_first open close s = Some v ->
  v <> "" /\ JS.occurs_in "<" v = false /\
  exists pre post, s = pre +:+ open +:+ v +:+ close +:+ post.
Proof.
  induction s as [|c s IH]; cbn [JS.match_first].
  - destruct (JS.match_here open close "") as [run|] eqn:Hhere; [|done].
    intros [= ->]. apply match_here_spec in Hhere as (? & ? & post & Hs).
    repeat split; try done. by exists "", post.
  - destruct (JS.match_here open close (String c s)) as [run|] eqn:Hhere.
    + intros [= ->]. apply match_here_spec in Hhere as (? & ? & post & Hs).
      repeat split; try done. by exists "", post.
    + intros Hrest. destruct (IH Hrest) as (? & ? & pre & post & ->).
      repeat split; try done. by exists (String c pre), post.
Qed.

Lemma match_here_element (open close' v post : string) :
  v <> "" -> JS.occurs_in "<" v = false ->
  JS.match_here open (String "<"%char close')
    (open +:+ v +:+ String "<"%char close' +:+ post) = Some v.
Proof.
  intros Hne Hno. unfold JS.match_here.
  rewrite prefix_append, drop_append.
  change (String "<"%char close' +:+ post) with (String "<"%char (close' +:+ post)).
  rewrite (span_not_lt_append v _ Hno).
  apply String.eqb_neq in Hne. rewrite Hne. simpl.
  change (String "<"%char (close' +:+ post)) with (String "<"%char close' +:+ post).
  by rewrite prefix_append.
Qed.

Lemma match_first_here (open close s v : string) :
  JS.match_here open close s = Some v -> JS.match_first open close s = Some v.
Proof. intros Hhere. destruct s; cbn [JS.match_first]; by rewrite Hhere. Qed.

Lemma match_first_element (open close' pre v post : string) :
  v <> "" -> JS.occurs_in "<" v = false ->
  is_Some (JS.match_first open (String "<"%char close')
             (pre +:+ open +:+ v +:+ String "<"%char close' +:+ post)).
Proof.
  intros Hne Hno. induction pre as [|c pre IH].
  - rewrite append_nil, (match_first_here _ _ _ v); [by eexists|].
    by apply match_here_element.
  - rewrite append_cons. cbn [JS.match_first].
    destruct (JS.match_here _ _ _); [by eexists|exact IH].
Qed.

(** X1.  For a tag of letters and digits, what [extractField] returns is
    the content of an element of the document: it is not empty, holds no
    [<], and stands in the XML between the opening and the closing tag of
    the field. *)
Theorem extractField_returns_element_content (xml tagName v : string) :
  literalTag tagName = true ->
  extractField xml tagName = Some v ->
  v <> "" /\ JS.occurs_in "<" v = false /\
  exists pre post,
    xml = pre +:+ ("<cbc:" +:+ tagName +:+ ">") +:+ v +:+ ("</cbc:" +:+ tagName +:+ ">") +:+ post.
Proof. intros _. apply match_first_spec. Qed.

(** X2.  For a tag of letters and digits, [extractField] finds a field
    whenever the document has an element for it with a content that is not
    empty and holds no [<]; when the document starts with that element, it
    returns this content. *)
Theorem extractField_finds_element (pre post tagName v : string) :
  literalTag tagName = true ->
  v <> "" -> JS.occurs_in "<" v = false ->
  is_Some (extractField
             (pre +:+ ("<cbc:" +:+ tagName +:+ ">") +:+ v +:+ ("</cbc:" +:+ tagName +:+ ">") +:+ post)
             tagName) /\
  extractField (("<cbc:" +:+ tagName +:+ ">") +:+ v +:+ ("</cbc:" +:+ tagName +:+ ">") +:+ post)
    tagName = Some v.
Proof.
  intros _ Hne Hno. unfold extractField. split.
  - by apply (match_first_element _ ("/cbc:" +:+ tagName +:+ ">")).
  - apply match_first_here.
    apply (match_here_element ("<cbc:" +:+ tagName +:+ ">") ("/cbc:" +:+ tagName +:+ ">")
             v post Hne Hno).
Qed.

Lemma or_else_not_empty (v : option string) (d : string) : d <> "" -> JS.or_else v d <> "".
Proof.
  intros Hd. destruct v as [s|]; simpl; [|done].
  by destruct (String.eqb_spec s "").
Qed.

(** X3.  [fetchXmlDetailsSafe] always returns: for a document whose XML is
    fetched, the parsed details, with an issue date exactly when the XML has
    an [IssueDate] element; for a failed fetch, the details ("Error",
    "Error", null).  The invoice number and the description it returns are
    never empty. *)
Theorem fetchXmlDetailsSafe_details (docId : string) (st : State) :
  exists d,
    fetchXmlDetailsSafe docId st = (Return d, logged (FetchDocumentXml docId) st) /\
    Details.invoiceNumber d <> "" /\ Details.description d <> "" /\
    match documentXml remote (length (calls st)) docId with
    | Return xml =>
        Details.invoiceNumber d = default "Niet gevonden" (extractField xml "ID") /\
        Details.description d = default "-" (extractField xml "Note") /\
        Details.issueDate d = Date_parse <$> extractField xml "IssueDate"
    | Throw _ => d = errorDetails
    end.
Proof.
  eexists. split; [apply fetchXmlDetailsSafe_unfold|].
  destruct (documentXml remote (length (calls st)) docId) as [xml|e]; cbn [detailsOfAnswer].
  - assert (forall tag d, d <> "" ->
              JS.or_else (extractField xml tag) d = default d (extractField xml tag)) as Hdefault.
    { intros tag d Hd. destruct (extractField xml tag) as [v|] eqn:Hv; [|done].
      apply match_first_spec in Hv as [Hne _]. simpl.
      by destruct (String.eqb_spec v ""). }
    unfold parseInvoiceDetails. cbn [Details.invoiceNumber Details.description Details.issueDate].
    repeat split.
    + by apply or_else_not_empty.
    + by apply or_else_not_empty.
    + by apply Hdefault.
    + by apply Hdefault.
    + destruct (extractField xml "IssueDate") as [v|] eqn:Hv; [|done].
      apply match_first_spec in Hv as [Hne _]. simpl.
      by destruct (String.eqb_spec v "").
  - by repeat split.
Qed.

(** ** StatusResolver: ties and membership *)

Lemma sort_head_cons {A} (comparefn : A -> A -> JS.Number) (x : A) (l : list A) :
  head (JS.sort comparefn (x :: l)) =
  Some match head (JS.sort comparefn l) with
       | Some y => if JS.sort_key comparefn x y <=? 0 then x else y
       | None => x
       end.
Proof.
  simpl. destruct (JS.sort comparefn l) as [|y l']; simpl; [done|].
  by destruct (JS.sort_key comparefn x y <=? 0).
Qed.

Lemma sort_head_elem_of {A} (comparefn : A -> A -> JS.Number) (l : list A) (y : A) :
  head (JS.sort comparefn l) = Some y -> y ∈ l.
Proof.
  intros Hhead. rewrite <- (sort_Permutation comparefn l).
  destruct (JS.sort comparefn l); [done|]. injection Hhead as ->. by left.
Qed.

Lemma sort_head_first_latest (earlier later : list Status.t) (r : Status.t) (t : Z) :
  allDated (earlier ++ r :: later) ->
  createdAt_of r = Some t ->
  (forall s t', s ∈ earlier -> createdAt_of s = Some t' -> t' < t) ->
  (forall s t', s ∈ later -> createdAt_of s = Some t' -> t' <= t) ->
  head (JS.sort byCreatedAtDescending (earlier ++ r :: later)) = Some r.
Proof.
  intros Hdated Hr Hearlier Hlater.
  induction earlier as [|e earlier IH].
  - rewrite app_nil_l, sort_head_cons. f_equal.
    destruct (head (JS.sort byCreatedAtDescending later)) as [y|] eqn:Hy; [|done].
    apply sort_head_elem_of in Hy.
    unfold allDated in Hdated. rewrite Forall_forall in Hdated.
    destruct (Hdated y) as [ty Hty]; [by right|].
    pose proof (Hlater y ty Hy Hty).
    unfold JS.sort_key, byCreatedAtDescending. rewrite Hr, Hty. simpl.
    destruct (Z.leb_spec (ty - t) 0); [done|lia].
  - rewrite <- app_comm_cons, sort_head_cons. f_equal.
    rewrite IH.
    + unfold allDated in Hdated. rewrite Forall_forall in Hdated.
      destruct (Hdated e) as [te Hte]; [by left|].
      pose proof (Hearlier e te (ltac:(by left)) Hte).
      unfold JS.sort_key, byCreatedAtDescending. rewrite Hr, Hte. simpl.
      destruct (Z.leb_spec (t - te) 0); [lia|done].
    + unfold allDated in *. by apply Forall_inv_tail in Hdated.
    + intros s t' Hs. apply Hearlier. by right.
Qed.

(** X4.  On a tie the record listed first wins: [getLatestStatus] reads the
    first record of the list whose [createdAt] no other record exceeds. *)
Theorem getLatestStatus_reads_first_of_the_latest
    (earlier later : list Status.t) (r : Status.t) (t : Z) :
  allDated (earlier ++ r :: later) ->
  createdAt_of r = Some t ->
  (forall s t', s ∈ earlier -> createdAt_of s = Some t' -> t' < t) ->
  (forall s t', s ∈ later -> createdAt_of s = Some t' -> t' <= t) ->
  getLatestStatus (earlier ++ r :: later) =
  {| Latest.code := JS.or_else (Status.code (Status.attributes r)) "-";
     Latest.technicalStatus := JS.or_else (Status.technicalStatus (Status.attributes r)) "-" |}.
Proof.
  intros Hdated Hr Hearlier Hlater.
  pose proof (sort_head_first_latest earlier later r t Hdated Hr Hearlier Hlater) as Hhead.
  rewrite getLatestStatus_unfold by (by destruct earlier).
  by destruct (JS.sort byCreatedAtDescending (earlier ++ r :: later)) as [|r' rest];
    [|injection Hhead as ->].
Qed.

Lemma hasStatus_existingCodes (statuses : list Status.t) (statusCode : string) :
  hasStatus statuses statusCode = true <->
  Some statusCode ∈ getExistingStatusCodes statuses.
Proof.
  unfold hasStatus, getExistingStatusCodes.
  rewrite existsb_exists, list_elem_of_In, in_map_iff.
  split; intros (s & H1 & H2).
  - exists s. split; [by apply bool_decide_eq_true in H2|done].
  - exists s. split; [done|by apply bool_decide_eq_true].
Qed.

(** X5.  [hasAnyStatus] holds exactly when [hasStatus] holds for one of the
    codes, which is when one of the codes is among the codes that
    [getExistingStatusCodes] lists; a record without a code counts for
    none. *)
Theorem hasAnyStatus_iff_hasStatus (statuses : list Status.t) (statusCodes : list string) :
  (hasAnyStatus statuses statusCodes = true <->
   exists c, c ∈ statusCodes /\ hasStatus statuses c = true) /\
  (hasAnyStatus statuses statusCodes = true <->
   exists c, c ∈ statusCodes /\ Some c ∈ getExistingStatusCodes statuses) /\
  length (getExistingStatusCodes statuses) = length statuses.
Proof.
  assert (hasAnyStatus statuses statusCodes = true <->
          exists c, c ∈ statusCodes /\ hasStatus statuses c = true) as Hiff.
  { unfold hasAnyStatus, hasStatus. rewrite existsb_exists. split.
    - intros (s & Hs & Hinc). unfold includes in Hinc.
      destruct (Status.code (Status.attributes s)) as [c|] eqn:Hc; [|done].
      apply existsb_exists in Hinc as (c' & Hc' & Heq%String.eqb_eq). subst c'.
      exists c. split; [by apply list_elem_of_In|].
      apply existsb_exists. exists s. split; [done|]. by apply bool_decide_eq_true.
    - intros (c & Hc & Hhas). apply existsb_exists in Hhas as (s & Hs & Hcode).
      apply bool_decide_eq_true in Hcode.
      exists s. split; [done|]. rewrite Hcode. simpl.
      apply existsb_exists. exists c. split; [by apply list_elem_of_In|apply String.eqb_refl]. }
  split; [exact Hiff|]. split.
  - rewrite Hiff. by setoid_rewrite hasStatus_existingCodes.
  - apply length_map.
Qed.

(** ** storeResult *)

Lemma storeResult_unfold (documentId phase : string) (result : SendResult) (st : State) :
  storeResult documentId phase result st =
  (Return tt,
   {| calls := calls st;
      processResults := storeInto (processResults st) documentId phase result |}).
Proof. reflexivity. Qed.

Lemma storeInto_lookup (results : gmap string (gmap string SendResult))
    (documentId phase : string) (result : SendResult) :
  storeInto results documentId phase result !! documentId
  = Some (<[phase := result]> (default ∅ (results !! documentId))).
Proof.
  unfold storeInto. rewrite lookup_insert_eq. f_equal. f_equal.
  case_bool_decide as Hsome; [done|].
  rewrite lookup_insert_eq. simpl.
  destruct (results !! documentId) eqn:Hlookup; [|done].
  exfalso. apply Hsome. by eexists.
Qed.

Lemma storeInto_lookup_ne (results : gmap string (gmap string SendResult))
    (documentId documentId' phase : string) (result : SendResult) :
  documentId' <> documentId ->
  storeInto results documentId phase result !! documentId' = results !! documentId'.
Proof.
  intros Hne. unfold storeInto. rewrite lookup_insert_ne by done.
  case_bool_decide; [done|]. by rewrite lookup_insert_ne.
Qed.

(** X6.  [storeResult] records the result under the document and the phase, and
    keeps everything else: the results of the same document under other
    phases, the results of other documents, and the log of calls.  The
    phase is the name of a property that the assignment creates on the plain
    object of the document, as 'final' is; ['__proto__'] is not. *)
Theorem storeResult_records_result
    (documentId phase documentId' phase' : string) (result : SendResult) (st : State) :
  phase <> "__proto__" ->
  exists st',
    storeResult documentId phase result st = (Return tt, st') /\
    calls st' = calls st /\
    processResultOf st' documentId !! phase = Some result /\
    (phase' <> phase ->
     processResultOf st' documentId !! phase' = processResultOf st documentId !! phase') /\
    (documentId' <> documentId ->
     processResults st' !! documentId' = processResults st !! documentId').
Proof.
  intros _. eexists. split; [apply storeResult_unfold|]. split; [done|].
  unfold processResultOf. cbn [processResults]. rewrite storeInto_lookup. simpl.
  split; [apply lookup_insert_eq|]. split.
  - intros Hne. by rewrite lookup_insert_ne.
  - intros Hne. by apply storeInto_lookup_ne.
Qed.

(** ** Computations that only fetch *)

Lemma quiet_ret {A} (a : A) : quiet (ret a).
Proof. intros st. exists []. by rewrite app_nil_r. Qed.

Lemma quiet_throw {A} (e : Err.t) : quiet (@throw A e).
Proof. intros st. exists []. by rewrite app_nil_r. Qed.

Lemma quiet_bind {A B} (m : M A) (k : A -> M B) :
  quiet m -> (forall a, quiet (k a)) -> quiet (bind m k).
Proof.
  intros Hm Hk st. destruct (Hm st) as (new1 & Hcalls1 & Hfetch1 & Hresults1). unfold bind.
  destruct (m st) as [[a|e] st1]; simpl in *.
  - destruct (Hk a st1) as (new2 & Hcalls2 & Hfetch2 & Hresults2).
    exists (new1 ++ new2). rewrite Hcalls2, Hcalls1, Hresults2, Hresults1, app_assoc.
    repeat split. by apply Forall_app.
  - by exists new1.
Qed.

Lemma quiet_try_catch {A} (m : M A) (h : Err.t -> M A) :
  quiet m -> (forall e, quiet (h e)) -> quiet (try_catch m h).
Proof.
  intros Hm Hh st. destruct (Hm st) as (new1 & Hcalls1 & Hfetch1 & Hresults1).
  unfold try_catch. destruct (m st) as [[a|e] st1]; simpl in *.
  - by exists new1.
  - destruct (Hh e st1) as (new2 & Hcalls2 & Hfetch2 & Hresults2).
    exists (new1 ++ new2). rewrite Hcalls2, Hcalls1, Hresults2, Hresults1, app_assoc.
    repeat split. by apply Forall_app.
Qed.

Lemma quiet_call {A} (c : Call) (answer : nat -> Outcome A) :
  fetchCall c -> quiet (call c answer).
Proof. intros Hc st. exists [c]. repeat split. by constructor. Qed.

Lemma quiet_for_of {A S} (xs : list A) (body : S -> A -> M S) (s : S) :
  (forall s x, quiet (body s x)) -> quiet (for_of xs body s).
Proof.
  intros Hbody. revert s. induction xs as [|x xs IH]; intros s; simpl.
  - apply quiet_ret.
  - apply quiet_bind; [apply Hbody|]. intros s'. apply IH.
Qed.

Lemma quiet_map_async {A B} (f : A -> M B) (xs : list A) :
  (forall x, quiet (f x)) -> quiet (map_async f xs).
Proof.
  intros Hf. induction xs as [|x xs IH]; simpl.
  - apply quiet_ret.
  - apply quiet_bind; [apply Hf|]. intros y.
    apply quiet_bind; [apply IH|]. intros ys. apply quiet_ret.
Qed.

Create HintDb quiet discriminated.

#[local] Hint Resolve quiet_ret quiet_throw quiet_bind quiet_try_catch quiet_for_of
  quiet_map_async : quiet.
#[local] Hint Extern 1 (quiet (call _ _)) => apply quiet_call; exact I || reflexivity : quiet.
#[local] Hint Extern 4 (quiet (match ?x with _ => _ end)) => destruct x : quiet.
#[local] Hint Extern 4 (quiet (if ?x then _ else _)) => destruct x : quiet.

Lemma quiet_fetchXmlDetailsSafe (docId : string) : quiet (fetchXmlDetailsSafe docId).
Proof. unfold fetchXmlDetailsSafe, fetchDocumentXml. auto 10 with quiet. Qed.

Lemma quiet_fetchBusinessStatusSafe (docId : string) : quiet (fetchBusinessStatusSafe docId).
Proof. unfold fetchBusinessStatusSafe, fetchInboundBusinessStatuses. auto 10 with quiet. Qed.

Lemma quiet_buildOutboundMap : quiet buildOutboundMap.
Proof. unfold buildOutboundMap, fetchOutboundDocuments. auto 10 with quiet. Qed.

Lemma quiet_analyzeDocument (documentId : string) : quiet (analyzeDocument documentId).
Proof. unfold analyzeDocument, fetchInboundBusinessStatuses. auto 10 with quiet. Qed.

#[local] Hint Resolve quiet_fetchXmlDetailsSafe quiet_fetchBusinessStatusSafe
  quiet_buildOutboundMap quiet_analyzeDocument : quiet.

Lemma quiet_fetchAndMatchDocuments : quiet fetchAndMatchDocuments.
Proof. unfold fetchAndMatchDocuments, fetchInboundDocuments. auto 10 with quiet. Qed.

Lemma quiet_analyzeAllDocuments (matches : list Match.t) : quiet (analyzeAllDocuments matches).
Proof. unfold analyzeAllDocuments, analyzeAllDocuments_body. auto 10 with quiet. Qed.

Lemma quiet_splitByDate (matches : list Match.t) (cutoff : EcmaDate.Date) :
  quiet (splitByDate matches cutoff).
Proof.
  unfold splitByDate. apply quiet_for_of. intros [a b] m.
  unfold splitByDate_body. auto 10 with quiet.
Qed.

Lemma quiet_sortMatchesByInvoiceNumber (matches : list Match.t) :
  quiet (sortMatchesByInvoiceNumber matches).
Proof. unfold sortMatchesByInvoiceNumber, withInvoiceNumber. auto 10 with quiet. Qed.

#[local] Hint Resolve quiet_sortMatchesByInvoiceNumber : quiet.

Lemma quiet_ask {A} (answer : nat -> Outcome A) : quiet (ask answer).
Proof. intros st. exists []. by rewrite app_nil_r. Qed.

Lemma quiet_printOutboundSection (doc : option Doc.t) : quiet (printOutboundSection doc).
Proof. unfold printOutboundSection. auto with quiet. Qed.

Lemma quiet_writeInvoiceToFile (m : Match.t) : quiet (writeInvoiceToFile m).
Proof. unfold writeInvoiceToFile. auto with quiet. Qed.

#[local] Hint Resolve quiet_ask quiet_printOutboundSection quiet_writeInvoiceToFile : quiet.

Lemma quiet_printFinalResults (matches : list Match.t) : quiet (printFinalResults matches).
Proof. unfold printFinalResults, printMatch. auto 12 with quiet. Qed.

Lemma quiet_saveReportToFile (matches : list Match.t) : quiet (saveReportToFile matches).
Proof. unfold saveReportToFile, fileWriter_init, fileWriter_save. auto 14 with quiet. Qed.

Lemma sentIds_app (cs1 cs2 : list Call) : sentIds (cs1 ++ cs2) = sentIds cs1 ++ sentIds cs2.
Proof. apply omap_app. Qed.

Lemma sentIds_fetches (cs : list Call) : Forall fetchCall cs -> sentIds cs = [].
Proof.
  induction 1 as [|c cs Hc _ IH]; [done|].
  unfold sentIds in *. simpl. destruct c; by try rewrite IH.
Qed.

Lemma fetchCall_allowed (c : Call) : fetchCall c -> allowedCall c.
Proof. by destruct c. Qed.

(** ** Properties that a run keeps *)

Lemma preserves_ret {A} (I : State -> Prop) (a : A) : preserves I (ret a).
Proof. by intros st. Qed.

Lemma preserves_bind {A B} (I : State -> Prop) (m : M A) (k : A -> M B) :
  preserves I m -> (forall a, preserves I (k a)) -> preserves I (bind m k).
Proof.
  intros Hm Hk st HI. specialize (Hm st HI). unfold bind.
  destruct (m st) as [[a|e] st1]; simpl in *; [by apply Hk|done].
Qed.

Lemma preserves_for_of {A S} (I : State -> Prop) (xs : list A) (body : S -> A -> M S) (s : S) :
  (forall s x, preserves I (body s x)) -> preserves I (for_of xs body s).
Proof.
  intros Hbody. revert s. induction xs as [|x xs IH]; intros s; simpl.
  - apply preserves_ret.
  - apply preserves_bind; [apply Hbody|]. intros s'. apply IH.
Qed.

Lemma preserves_quiet {A} (I : State -> Prop) (m : M A) :
  fetchStable I -> quiet m -> preserves I m.
Proof.
  intros Hstable Hquiet st HI. destruct (Hquiet st) as (new & Hcalls & Hfetch & Hresults).
  by apply (Hstable st _ new).
Qed.

Lemma allowedCalls_fetchStable : fetchStable (fun st => Forall allowedCall (calls st)).
Proof.
  intros st st' new Hcalls Hfetch _ Hallowed. rewrite Hcalls. apply Forall_app. split; [done|].
  eapply Forall_impl; [exact Hfetch|]. apply fetchCall_allowed.
Qed.

Lemma submittedCodes_app (cs1 cs2 : list Call) (documentId : string) :
  submittedCodes (cs1 ++ cs2) documentId
  = submittedCodes cs1 documentId ++ submittedCodes cs2 documentId.
Proof. apply omap_app. Qed.

Lemma submittedCodes_fetches (cs : list Call) (documentId : string) :
  Forall fetchCall cs -> submittedCodes cs documentId = [].
Proof.
  induction 1 as [|c cs Hc _ IH]; [done|].
  unfold submittedCodes in *. simpl. destruct c; by try rewrite IH.
Qed.

Lemma submittedCodes_elem_of (cs : list Call) (documentId code : string) :
  code ∈ submittedCodes cs documentId <-> SendBusinessStatus documentId code ∈ cs.
Proof.
  unfold submittedCodes. rewrite list_elem_of_omap. split.
  - intros (c & Hc & Hcode). destruct c as [| | | |d code'|]; try discriminate.
    destruct (String.eqb_spec d documentId) as [->|]; [|discriminate].
    by injection Hcode as ->.
  - intros Hin. eexists. split; [exact Hin|]. simpl. by rewrite String.eqb_refl.
Qed.

Lemma resultsMatchSubmissions_fetchStable : fetchStable resultsMatchSubmissions.
Proof.
  intros st st' new Hcalls Hfetch Hresults Hinv documentId.
  rewrite Hresults, Hcalls, sentIds_app, (sentIds_fetches new Hfetch), app_nil_r.
  rewrite submittedCodes_app, (submittedCodes_fetches new _ Hfetch), app_nil_r.
  apply Hinv.
Qed.

(** ** sendFinalStatuses *)

Lemma getRandomFinalStatus_unfold (st : State) :
  getRandomFinalStatus st = (Return (drawnStatus (length (calls st))), logged MathRandom st).
Proof. reflexivity. Qed.

Lemma sendStatus_sendResultOf (documentId code : string) (st : State) :
  sendStatus documentId code st =
  (Return (sendResultOf code
             (businessStatusCreated remote (length (calls st)) documentId code)),
   logged (SendBusinessStatus documentId code) st).
Proof.
  rewrite sendStatus_unfold. unfold sendResultOf.
  by destruct (businessStatusCreated remote (length (calls st)) documentId code) as [[r|n]|e].
Qed.

Lemma sendFinalStatuses_body_unfold (successCount : Z) (doc : Item.t) (st : State) :
  let code := drawnStatus (length (calls st)) in
  let result :=
    sendResultOf code
      (businessStatusCreated remote (S (length (calls st))) (Item.documentId doc) code) in
  sendFinalStatuses_body successCount doc st =
  (Return (if success result then successCount + 1 else successCount),
   {| calls := calls st ++ [MathRandom; SendBusinessStatus (Item.documentId doc) code];
      processResults := storeInto (processResults st) (Item.documentId doc) "final" result |}).
Proof.
  intros code result. unfold sendFinalStatuses_body, bind.
  rewrite getRandomFinalStatus_unfold, sendStatus_sendResultOf, storeResult_unfold.
  replace (length (calls (logged MathRandom st))) with (S (length (calls st)))
    by (simpl; rewrite length_app; simpl; lia).
  fold code. fold result. unfold ret. simpl. by rewrite <- app_assoc.
Qed.

Lemma drawnStatus_final (n : nat) : drawnStatus n = "accepted" \/ drawnStatus n = "rejected".
Proof. unfold drawnStatus. destruct (randomIsLow remote n); [by left|by right]. Qed.

Lemma sendResultOf_statusCode (code : string) (answer : Outcome (JS.Nullable Created.t)) :
  statusCode (sendResultOf code answer) = code.
Proof. destruct answer as [[r|n]|e]; simpl; [by destruct (Created.attributes r)|done|done]. Qed.

Lemma finalResults_length (n : nat) (documents : list Item.t) :
  length (finalResults n documents) = length documents.
Proof. revert n. induction documents as [|doc documents IH]; intros n; simpl; [done|]. by rewrite IH. Qed.

Lemma finalResults_statusCode (n : nat) (documents : list Item.t) :
  Forall (fun r => statusCode r = "accepted" \/ statusCode r = "rejected")
    (finalResults n documents).
Proof.
  revert n. induction documents as [|doc documents IH]; intros n; simpl; constructor.
  - rewrite sendResultOf_statusCode. apply drawnStatus_final.
  - apply IH.
Qed.

Lemma sendFinalStatuses_loop (documents : list Item.t) (successCount : Z) (st : State) :
  let results := finalResults (length (calls st)) documents in
  for_of documents sendFinalStatuses_body successCount st =
  (Return (successCount + Z.of_nat (length (List.filter success results))),
   {| calls := calls st ++ submissionCalls documents results;
      processResults := storeAll (processResults st) documents results |}).
Proof.
  revert successCount st. induction documents as [|doc documents IH]; intros successCount st.
  - simpl. unfold ret, submissionCalls, storeAll. simpl.
    rewrite app_nil_r, Z.add_0_r. by destruct st.
  - cbn zeta. cbn [for_of]. unfold bind. rewrite sendFinalStatuses_body_unfold.
    rewrite IH. cbn [calls processResults].
    replace (length (calls st ++
                     [MathRandom;
                      SendBusinessStatus (Item.documentId doc) (drawnStatus (length (calls st)))]))
      with (S (S (length (calls st)))) by (rewrite length_app; simpl; lia).
    cbn [finalResults]. set (results := finalResults _ documents).
    set (result := sendResultOf _ _).
    f_equal.
    + f_equal. cbn [List.filter]. destruct (success result); simpl length; lia.
    + unfold submissionCalls, storeAll. cbn [zip_with concat zip fold_left fst snd].
      subst result. rewrite sendResultOf_statusCode. by rewrite <- app_assoc.
Qed.

Lemma sentIds_submissionCalls (documents : list Item.t) (results : list SendResult) :
  length results = length documents ->
  sentIds (submissionCalls documents results) = List.map Item.documentId documents.
Proof.
  revert results. induction documents as [|doc documents IH]; intros [|r results] Hlen;
    try discriminate; [done|].
  unfold submissionCalls in *. cbn [zip_with concat]. rewrite sentIds_app.
  cbn. f_equal. apply IH. by injection Hlen.
Qed.

Lemma allowedCall_submissionCalls (documents : list Item.t) (results : list SendResult) :
  Forall (fun r => statusCode r = "accepted" \/ statusCode r = "rejected") results ->
  Forall allowedCall (submissionCalls documents results).
Proof.
  intros Hcodes. revert documents.
  induction Hcodes as [|r results Hr _ IH]; intros [|doc documents]; try by constructor.
  unfold submissionCalls in *. cbn [zip_with concat].
  simpl. constructor; [exact I|]. constructor; [exact Hr|apply IH].
Qed.

Lemma sendFinalStatuses_submits_each_document_aux (documents : list Item.t) (st : State) :
  exists st',
    sendFinalStatuses documents st
      = (Return (Z.of_nat (length (List.filter success
                                     (finalResults (length (calls st)) documents)))), st') /\
    calls st' = calls st ++ submissionCalls documents (finalResults (length (calls st)) documents) /\
    Forall (fun r => statusCode r = "accepted" \/ statusCode r = "rejected")
      (finalResults (length (calls st)) documents).
Proof.
  eexists. split; [apply (sendFinalStatuses_loop documents 0 st)|].
  split; [done|]. apply finalResults_statusCode.
Qed.

(** X7.  [sendFinalStatuses] never throws.  For each document of the list, in
    order, it draws a code and submits it, a code that is 'accepted' or
    'rejected'; it makes no other call.  It returns how many of the
    submissions succeeded, which is at most the number of documents. *)
Theorem sendFinalStatuses_submits_each_document (documents : list Item.t) (st : State) :
  let results := finalResults (length (calls st)) documents in
  exists st',
    sendFinalStatuses documents st
      = (Return (Z.of_nat (length (List.filter success results))), st') /\
    calls st' = calls st ++ submissionCalls documents results /\
    sentIds (calls st') = sentIds (calls st) ++ List.map Item.documentId documents /\
    length results = length documents /\
    Forall (fun r => statusCode r = "accepted" \/ statusCode r = "rejected") results /\
    (length (List.filter success results) <= length documents)%nat.
Proof.
  intros results. eexists. split; [apply (sendFinalStatuses_loop documents 0 st)|].
  cbn [calls]. fold results.
  assert (length results = length documents) as Hlen by apply finalResults_length.
  split; [done|]. split.
  - by rewrite sentIds_app, sentIds_submissionCalls.
  - split; [done|]. split; [apply finalResults_statusCode|].
    rewrite <- Hlen. apply filter_length_le.
Qed.

Lemma storeAll_lookup_other (results : gmap string (gmap string SendResult))
    (documents : list Item.t) (sent : list SendResult) (documentId : string) :
  documentId ∉ List.map Item.documentId documents ->
  storeAll results documents sent !! documentId = results !! documentId.
Proof.
  revert results sent. induction documents as [|doc documents IH]; intros results sent Hnotin.
  - by destruct sent.
  - destruct sent as [|r sent]; [done|]. unfold storeAll in *. cbn [zip zip_with fold_left fst snd].
    simpl in Hnotin. apply not_elem_of_cons in Hnotin as [Hne Hnotin].
    rewrite IH by done. by apply storeInto_lookup_ne.
Qed.

Lemma storeAll_lookup_last (results : gmap string (gmap string SendResult))
    (documents : list Item.t) (sent : list SendResult) (i : nat) (doc : Item.t) (r : SendResult) :
  documents !! i = Some doc -> sent !! i = Some r ->
  (forall j doc', (i < j)%nat -> documents !! j = Some doc' ->
                  Item.documentId doc' <> Item.documentId doc) ->
  default ∅ (storeAll results documents sent !! Item.documentId doc) !! "final" = Some r.
Proof.
  revert results sent i.
  induction documents as [|d documents IH]; intros results sent i Hdoc Hr Hlater; [done|].
  destruct sent as [|r0 sent]; [done|].
  unfold storeAll in *. cbn [zip zip_with fold_left fst snd].
  destruct i as [|i].
  - injection Hdoc as ->. injection Hr as ->.
    fold (storeAll (storeInto results (Item.documentId doc) "final" r) documents sent).
    rewrite storeAll_lookup_other.
    + rewrite storeInto_lookup. simpl. apply lookup_insert_eq.
    + intros Hin. apply list_elem_of_In, in_map_iff in Hin as (doc' & Hid & Hin).
      apply list_elem_of_In, list_elem_of_lookup in Hin as [j Hj].
      by apply (Hlater (S j) doc'); [lia| |].
  - apply (IH _ _ i); [done|done|].
    intros j doc' Hij Hj. apply (Hlater (S j) doc'); [lia|done].
Qed.

(** X8.  After [sendFinalStatuses], the process results hold under 'final', for
    each document of the list, the result of its submission (of the last
    one, should the list name a document twice), and the results of the
    documents that are not in the list are as before. *)
Theorem sendFinalStatuses_stores_results (documents : list Item.t) (st : State) :
  let results := finalResults (length (calls st)) documents in
  let st' := (sendFinalStatuses documents st).2 in
  (forall i doc r,
     documents !! i = Some doc -> results !! i = Some r ->
     (forall j doc', (i < j)%nat -> documents !! j = Some doc' ->
                     Item.documentId doc' <> Item.documentId doc) ->
     processResultOf st' (Item.documentId doc) !! "final" = Some r) /\
  (forall documentId,
     documentId ∉ List.map Item.documentId documents ->
     processResults st' !! documentId = processResults st !! documentId).
Proof.
  intros results st'. subst st'.
  change (sendFinalStatuses documents st) with (for_of documents sendFinalStatuses_body 0 st).
  rewrite sendFinalStatuses_loop. cbn [snd]. unfold processResultOf. cbn [processResults].
  split.
  - intros i doc r Hdoc Hr Hlater. by apply (storeAll_lookup_last _ _ _ i).
  - intros documentId Hnotin. by apply storeAll_lookup_other.
Qed.

(** ** What a run submits *)

Lemma preserves_sendFinalStatuses_allowed (documents : list Item.t) :
  preserves (fun st => Forall allowedCall (calls st)) (sendFinalStatuses documents).
Proof.
  intros st Hallowed.
  destruct (sendFinalStatuses_submits_each_document_aux documents st)
    as (st' & Hrun & Hcalls & Hcodes).
  rewrite Hrun. cbn [snd]. rewrite Hcalls. apply Forall_app. split; [done|]. by apply allowedCall_submissionCalls.
Qed.

Lemma submittedCodes_draw_and_submission (d code documentId : string) :
  submittedCodes [MathRandom; SendBusinessStatus d code] documentId
  = if String.eqb d documentId then [code] else [].
Proof. unfold submittedCodes. simpl. by destruct (String.eqb d documentId). Qed.

Lemma preserves_sendFinalStatuses_body_results (successCount : Z) (doc : Item.t) :
  preserves resultsMatchSubmissions (sendFinalStatuses_body successCount doc).
Proof.
  intros st Hinv documentId. rewrite sendFinalStatuses_body_unfold. cbn [snd calls processResults].
  rewrite sentIds_app, submittedCodes_app.
  change (sentIds [MathRandom; SendBusinessStatus (Item.documentId doc) ?code])
    with [Item.documentId doc].
  rewrite submittedCodes_draw_and_submission.
  rewrite elem_of_app, list_elem_of_singleton.
  destruct (Hinv documentId) as [Hiff Hfinal].
  destruct (String.eqb_spec (Item.documentId doc) documentId) as [<-|Hne].
  - rewrite storeInto_lookup. split.
    + split; [by right|by eexists].
    + intros pr [= <-]. rewrite lookup_insert_eq. eexists. split; [done|].
      by rewrite last_snoc, sendResultOf_statusCode.
  - rewrite storeInto_lookup_ne by done. rewrite app_nil_r. split; [|exact Hfinal].
    rewrite Hiff. split; [by left|]. by intros [?|?].
Qed.

Lemma preserves_sendFinalStatuses_results (documents : list Item.t) :
  preserves resultsMatchSubmissions (sendFinalStatuses documents).
Proof.
  change (sendFinalStatuses documents) with (for_of documents sendFinalStatuses_body 0).
  apply preserves_for_of. intros s x. apply preserves_sendFinalStatuses_body_results.
Qed.

Lemma preserves_sendForPartition (I : State -> Prop) (analysis : list Item.t)
    (part : list Match.t) :
  (forall documents, preserves I (sendFinalStatuses documents)) ->
  preserves I (sendForPartition analysis part).
Proof.
  intros Hsend. unfold sendForPartition.
  destruct (0 <? length part)%nat; [|apply preserves_ret].
  destruct (0 <? length _)%nat; [|apply preserves_ret].
  apply preserves_bind; [apply Hsend|]. intros n. apply preserves_ret.
Qed.

Lemma preserves_generateReport (I : State -> Prop) :
  fetchStable I ->
  (forall documents, preserves I (sendFinalStatuses documents)) ->
  preserves I generateReport.
Proof.
  intros Hstable Hsend. unfold generateReport.
  apply preserves_bind; [apply preserves_quiet, quiet_fetchAndMatchDocuments; done|].
  intros matches. destruct (length matches =? 0)%nat; [apply preserves_ret|].
  apply preserves_bind; [apply preserves_quiet, quiet_analyzeAllDocuments; done|].
  intros analysis. unfold afterAnalysis.
  apply preserves_bind; [apply preserves_quiet, quiet_splitByDate; done|].
  intros [nov28AndLater beforeNov28].
  apply preserves_bind; [by apply preserves_sendForPartition|]. intros _.
  apply preserves_bind; [by apply preserves_sendForPartition|]. intros _.
  apply preserves_bind; [apply preserves_quiet, quiet_printFinalResults; done|]. intros _.
  apply preserves_quiet, quiet_saveReportToFile; done.
Qed.

(** X9.  Every call of a run is a fetch from one of the two configured
    suppliers, a fetch for a document, a random draw, or the submission of
    the status code 'accepted' or 'rejected': a run submits no other code. *)
Theorem generateReport_submits_final_codes_only :
  Forall allowedCall (calls (generateReport initialState).2) /\
  forall documentId code,
    SendBusinessStatus documentId code ∈ calls (generateReport initialState).2 ->
    code = "accepted" \/ code = "rejected".
Proof.
  assert (Forall allowedCall (calls (generateReport initialState).2)) as Hallowed.
  { apply (preserves_generateReport (fun st => Forall allowedCall (calls st))).
    - apply allowedCalls_fetchStable.
    - apply preserves_sendFinalStatuses_allowed.
    - constructor. }
  split; [exact Hallowed|]. intros documentId code Hin.
  rewrite Forall_forall in Hallowed. exact (Hallowed _ Hin).
Qed.

Lemma sentIds_elem_of (cs : list Call) (documentId : string) :
  documentId ∈ sentIds cs <-> exists code, SendBusinessStatus documentId code ∈ cs.
Proof.
  unfold sentIds. rewrite list_elem_of_omap. split.
  - intros (c & Hc & Hid). destruct c; try discriminate. injection Hid as ->. by eexists.
  - intros (code & Hin). by eexists.
Qed.

(** X10.  At the end of a run the process results hold an entry exactly for
    the documents for which the run submitted a status.  For such a document
    the entry holds under 'final' a result with the status code that the run
    submitted for it (the last one, had there been more), and the report
    shows one action: that code followed by a thumb for a success, and by
    the cross and the error for a failure.  For any other document the
    report shows no action. *)
Theorem generateReport_actions_are_the_submissions (documentId : string) :
  let st := (generateReport initialState).2 in
  (is_Some (processResults st !! documentId) <->
   exists code, SendBusinessStatus documentId code ∈ calls st) /\
  ((exists code, SendBusinessStatus documentId code ∈ calls st) ->
   exists code fin,
     last (submittedCodes (calls st) documentId) = Some code /\
     SendBusinessStatus documentId code ∈ calls st /\
     processResultOf st documentId !! "final" = Some fin /\
     statusCode fin = code /\
     formatActions (processResultOf st documentId)
     = [ if success fin
         then code +:+ " " +:+ (if String.eqb code "accepted" then "👍" else "👎")
         else code +:+ " ❌ (" +:+ template (error fin) +:+ ")" ]) /\
  ((forall code, SendBusinessStatus documentId code ∉ calls st) ->
   formatActions (processResultOf st documentId) = []).
Proof.
  intros st.
  assert (resultsMatchSubmissions st) as Hinv.
  { apply (preserves_generateReport resultsMatchSubmissions).
    - apply resultsMatchSubmissions_fetchStable.
    - apply preserves_sendFinalStatuses_results.
    - intros d. split; [|done]. cbn [initialState processResults calls].
      rewrite lookup_empty. split; [by intros []|]. by intros ?%elem_of_nil. }
  destruct (Hinv documentId) as [Hiff Hfinal]. rewrite sentIds_elem_of in Hiff.
  split; [exact Hiff|]. split.
  - intros Hsent. apply Hiff in Hsent as [pr Hpr].
    destruct (Hfinal pr Hpr) as (fin & Hfin & Hlast).
    exists (statusCode fin), fin. split; [exact Hlast|].
    split; [by apply submittedCodes_elem_of, last_Some_elem_of|].
    unfold processResultOf. rewrite Hpr. change (default ∅ (Some pr)) with pr.
    split; [exact Hfin|]. split; [done|].
    unfold formatActions. rewrite Hfin. reflexivity.
  - intros Hnone. unfold processResultOf.
    destruct (processResults st !! documentId) as [pr|] eqn:Hpr; [|done].
    exfalso. destruct Hiff as [Hsome _].
    destruct Hsome as [code Hcode]; [by eexists|]. by apply (Hnone code).
Qed.

(** ** One submission for each document that needs a final status *)

Lemma quiet_sentIds {A} (m : M A) (st : State) :
  quiet m -> sentIds (calls (m st).2) = sentIds (calls st).
Proof.
  intros Hquiet. destruct (Hquiet st) as (new & -> & Hfetch & _).
  by rewrite sentIds_app, (sentIds_fetches new Hfetch), app_nil_r.
Qed.

Lemma analysisOf_nil (analysis : list Item.t) : analysisOf analysis [] = [].
Proof. unfold analysisOf. induction analysis as [|a analysis IH]; [done|exact IH]. Qed.

Lemma sendForPartition_sentIds (analysis : list Item.t) (part : list Match.t) (st : State) :
  (sendForPartition analysis part st).1 = Return tt /\
  sentIds (calls (sendForPartition analysis part st).2)
  = sentIds (calls st)
    ++ List.map Item.documentId (needingFinal (analysisOf analysis part)).
Proof.
  unfold sendForPartition. destruct part as [|m part].
  - simpl. by rewrite analysisOf_nil, app_nil_r.
  - change (0 <? length (m :: part))%nat with true. cbv iota.
    destruct (needingFinal (analysisOf analysis (m :: part))) as [|a needs] eqn:Hneeds.
    + simpl. by rewrite app_nil_r.
    + change (0 <? length (a :: needs))%nat with true. cbv iota. unfold bind.
      destruct (sendFinalStatuses_submits_each_document_aux (a :: needs) st)
        as (st' & Hrun & Hcalls & _).
      rewrite Hrun. unfold handleWaitTime, ret. cbn [fst snd]. split; [done|].
      rewrite Hcalls, sentIds_app, sentIds_submissionCalls; [done|].
      apply finalResults_length.
Qed.

Lemma afterAnalysis_sentIds (matches : list Match.t) (analysis : list Item.t) (st : State) :
  exists nov28AndLater beforeNov28 st1,
    splitByDate matches cutoffDate st = (Return (nov28AndLater, beforeNov28), st1) /\
    nov28AndLater ++ beforeNov28 ≡ₚ matches /\
    sentIds (calls (afterAnalysis matches analysis st).2)
    = sentIds (calls st)
      ++ List.map Item.documentId (needingFinal (analysisOf analysis nov28AndLater))
      ++ List.map Item.documentId (needingFinal (analysisOf analysis beforeNov28)).
Proof.
  destruct (splitByDate_partitions cutoffDate matches st) as (nov & bef & st1 & Hsplit & Hperm).
  exists nov, bef, st1. split; [done|]. split; [done|].
  pose proof (quiet_sentIds (splitByDate matches cutoffDate) st (quiet_splitByDate _ _)) as Hq.
  rewrite Hsplit in Hq. cbn [snd] in Hq.
  unfold afterAnalysis. unfold bind at 1. rewrite Hsplit.
  unfold bind at 1.
  destruct (sendForPartition_sentIds analysis nov st1) as [Hret1 Hsent1].
  destruct (sendForPartition analysis nov st1) as [r1 st2]. cbn [fst snd] in *. subst r1.
  unfold bind at 1.
  destruct (sendForPartition_sentIds analysis bef st2) as [Hret2 Hsent2].
  destruct (sendForPartition analysis bef st2) as [r2 st3]. cbn [fst snd] in *. subst r2.
  assert (quiet (let* _ := printFinalResults matches in saveReportToFile matches)) as Hrest.
  { apply quiet_bind; [apply quiet_printFinalResults|]. intros _. apply quiet_saveReportToFile. }
  rewrite (quiet_sentIds _ st3 Hrest), Hsent2, Hsent1, Hq. by rewrite <- app_assoc.
Qed.

Lemma filter_split_Permutation {A B} (f : A -> B) (N P Q : A -> bool) (l : list A) :
  (forall a, a ∈ l -> Q a = negb (P a)) ->
  List.map f (List.filter N (List.filter P l)) ++ List.map f (List.filter N (List.filter Q l))
  ≡ₚ List.map f (List.filter N l).
Proof.
  induction l as [|a l IH]; intros HPQ; [done|].
  assert (Q a = negb (P a)) as HQ by (apply HPQ; by left).
  assert (forall a0, a0 ∈ l -> Q a0 = negb (P a0)) as HPQ' by (intros a0 Ha0; apply HPQ; by right).
  specialize (IH HPQ'). cbn [List.filter]. rewrite HQ.
  destruct (P a); cbn [negb List.filter]; destruct (N a); cbn [List.map]; try exact IH.
  - rewrite <- app_comm_cons. by constructor.
  - rewrite <- Permutation_middle. by constructor.
Qed.

Lemma NoDup_map_filter {A B} (f : A -> B) (N : A -> bool) (l : list A) :
  NoDup (List.map f l) -> NoDup (List.map f (List.filter N l)).
Proof.
  induction l as [|a l IH]; intros Hnd; [done|].
  apply NoDup_cons in Hnd as [Hnotin Hnd]. cbn [List.filter].
  destruct (N a); [|by apply IH]. cbn [List.map]. apply NoDup_cons. split; [|by apply IH].
  intros Hin. apply Hnotin.
  apply list_elem_of_In, in_map_iff in Hin as (x & Hx & Hin).
  apply filter_In in Hin as [Hin _].
  apply list_elem_of_In, in_map_iff. by exists x.
Qed.

Lemma inPart_elem_of (part : list Match.t) (a : Item.t) :
  existsb (fun m => String.eqb (Doc.id (Match.inbound m)) (Item.documentId a)) part = true <->
  Item.documentId a ∈ List.map (fun m => Doc.id (Match.inbound m)) part.
Proof.
  rewrite existsb_exists, list_elem_of_In, in_map_iff.
  split; intros (m & H1 & H2).
  - exists m. by apply String.eqb_eq in H2.
  - exists m. split; [done|]. by apply String.eqb_eq.
Qed.

(** X11.  A run that found and analysed its matches submits, in this order: for
    the documents of [nov28AndLater] that need a final status, then for those
    of [beforeNov28], each as the analysis lists them.  When the matched
    inbound documents have distinct IDs, these are the documents whose
    analysis says that a final status is needed, each submitted for
    once. *)
Theorem generateReport_submits_once_where_needed
    (matches : list Match.t) (analysis : list Item.t) (s0 s1 : State) :
  fetchAndMatchDocuments initialState = (Return matches, s0) ->
  analyzeAllDocuments matches s0 = (Return analysis, s1) ->
  exists nov28AndLater beforeNov28 s2,
    splitByDate matches cutoffDate s1 = (Return (nov28AndLater, beforeNov28), s2) /\
    sentIds (calls (generateReport initialState).2)
    = List.map Item.documentId (needingFinal (analysisOf analysis nov28AndLater))
      ++ List.map Item.documentId (needingFinal (analysisOf analysis beforeNov28)) /\
    (NoDup (List.map (fun m => Doc.id (Match.inbound m)) matches) ->
     NoDup (sentIds (calls (generateReport initialState).2)) /\
     sentIds (calls (generateReport initialState).2)
     ≡ₚ List.map Item.documentId (needingFinal analysis)).
Proof.
  intros Hfetch Hanalyze.
  pose proof (analyzeAllDocuments_returns _ _ _ _ Hanalyze) as Hitems.
  assert (List.map Item.documentId analysis
          = List.map (fun m => Doc.id (Match.inbound m)) matches) as Hids.
  { clear -Hitems. induction Hitems as [|m a ms items [Hid _] _ IH]; simpl; [done|].
    by rewrite Hid, IH. }
  pose proof (quiet_sentIds fetchAndMatchDocuments initialState quiet_fetchAndMatchDocuments)
    as Hq0.
  pose proof (quiet_sentIds (analyzeAllDocuments matches) s0 (quiet_analyzeAllDocuments _))
    as Hq1.
  rewrite Hfetch in Hq0. rewrite Hanalyze in Hq1. cbn [snd initialState calls] in Hq0, Hq1.
  rewrite Hq0 in Hq1. change (sentIds []) with (@nil string) in Hq1.
  destruct (afterAnalysis_sentIds matches analysis s1)
    as (nov & bef & s2 & Hsplit & Hperm & Hsent).
  exists nov, bef, s2. split; [done|].
  assert (sentIds (calls (generateReport initialState).2)
          = List.map Item.documentId (needingFinal (analysisOf analysis nov))
            ++ List.map Item.documentId (needingFinal (analysisOf analysis bef))) as Hrun.
  { unfold generateReport, bind. rewrite Hfetch.
    destruct matches as [|m matches].
    - inversion Hitems; subst. cbn [snd length Nat.eqb]. unfold ret. cbn [snd]. by rewrite Hq0.
    - change (length (m :: matches) =? 0)%nat with false. cbv beta iota.
      rewrite Hanalyze. by rewrite Hsent, Hq1. }
  split; [exact Hrun|]. intros Hnodup. rewrite Hrun.
  assert (List.map Item.documentId (needingFinal (analysisOf analysis nov))
          ++ List.map Item.documentId (needingFinal (analysisOf analysis bef))
          ≡ₚ List.map Item.documentId (needingFinal analysis)) as Hall.
  { unfold needingFinal, analysisOf. apply filter_split_Permutation.
    intros a Ha.
    assert (Item.documentId a ∈ List.map (fun m => Doc.id (Match.inbound m)) (nov ++ bef))
      as Hin.
    { rewrite Hperm, <- Hids. apply list_elem_of_In, in_map, list_elem_of_In, Ha. }
    assert (NoDup (List.map (fun m => Doc.id (Match.inbound m)) (nov ++ bef))) as Hnd
      by (by rewrite Hperm).
    rewrite List.map_app in Hin, Hnd. apply NoDup_app in Hnd as (_ & Hdisjoint & _).
    apply elem_of_app in Hin as [Hin|Hin].
    - pose proof (Hdisjoint _ Hin) as Hnot.
      apply inPart_elem_of in Hin. rewrite Hin. simpl.
      apply not_true_iff_false. by rewrite inPart_elem_of.
    - apply inPart_elem_of in Hin as Hin'. rewrite Hin'. symmetry. apply negb_true_iff.
      apply not_true_iff_false. rewrite inPart_elem_of. intros Hnov.
      by apply (Hdisjoint _ Hnov). }
  split; [|exact Hall].
  rewrite Hall. apply NoDup_map_filter. by rewrite Hids.
Qed.

(** ** Runs that end early *)

(** X12.  A run ends after the inbound fetch when that fetch throws or finds no
    document, and after the outbound fetch when that one throws or no
    inbound document has a match: it then fetches no status, no XML, and
    submits nothing; a thrown error is the error of the run. *)
Theorem generateReport_without_matches (st : State) :
  let fetchedInbound := logged (FetchInboundDocuments CONFIG.suppliers_inbound_id) st in
  let fetchedBoth := logged (FetchOutboundDocuments CONFIG.suppliers_outbound_id) fetchedInbound in
  match inboundDocuments remote (length (calls st)) CONFIG.suppliers_inbound_id with
  | Throw e => generateReport st = (Throw e, fetchedInbound)
  | Return [] => generateReport st = (Return tt, fetchedInbound)
  | Return (inDoc :: inDocs) =>
      match outboundDocuments remote (S (length (calls st))) CONFIG.suppliers_outbound_id with
      | Throw e => generateReport st = (Throw e, fetchedBoth)
      | Return outboundDocs =>
          findMatches (inDoc :: inDocs) (outboundIndex outboundDocs) = [] ->
          generateReport st = (Return tt, fetchedBoth)
      end
  end.
Proof.
  intros fetchedInbound fetchedBoth.
  unfold generateReport, fetchAndMatchDocuments, bind, fetchInboundDocuments, call.
  fold fetchedInbound.
  destruct (inboundDocuments remote (length (calls st)) CONFIG.suppliers_inbound_id)
    as [[|inDoc inDocs]|e]; [reflexivity| |reflexivity].
  change (length (inDoc :: inDocs) =? 0)%nat with false. cbv beta iota.
  rewrite buildOutboundMap_unfold.
  replace (length (calls fetchedInbound)) with (S (length (calls st)))
    by (unfold fetchedInbound; simpl; rewrite length_app; simpl; lia).
  fold fetchedBoth.
  destruct (outboundDocuments remote (S (length (calls st))) CONFIG.suppliers_outbound_id)
    as [outboundDocs|e]; [|reflexivity].
  by intros ->.
Qed.

(** ** analyzeAllDocuments *)

Lemma analyzeAllDocuments_body_unfold (results : list Item.t) (m : Match.t) (st : State) :
  analyzeAllDocuments_body results m st =
  match inboundBusinessStatuses remote (length (calls st)) (Doc.id (Match.inbound m)) with
  | Return statuses =>
      match Match.outbound m with
      | Some outbound =>
          (Return (results ++
             [ {| Item.documentId := Doc.id (Match.inbound m);
                  Item.transmissionId := Match.transmissionId m;
                  Item.match_ := m;
                  Item.analysis :=
                    {| Analysis.statuses := statuses;
                       Analysis.hasFinalStatus := hasAnyStatus statuses CONFIG.finalStatuses;
                       Analysis.existingCodes := getExistingStatusCodes statuses;
                       Analysis.needsFinalStatus :=
                         negb (hasAnyStatus statuses CONFIG.finalStatuses);
                       Analysis.isComplete := hasAnyStatus statuses CONFIG.finalStatuses |};
                  Item.outboundBusinessState :=
                    or_null (Doc.businessStatus (Doc.attributes outbound)) |} ]),
           logged (FetchInboundBusinessStatuses (Doc.id (Match.inbound m))) st)
      | None =>
          (Throw (TypeError JS.undefined (JS.Read "attributes")),
           logged (FetchInboundBusinessStatuses (Doc.id (Match.inbound m))) st)
      end
  | Throw e => (Throw e, logged (FetchInboundBusinessStatuses (Doc.id (Match.inbound m))) st)
  end.
Proof.
  unfold analyzeAllDocuments_body, analyzeDocument, bind, fetchInboundBusinessStatuses, call.
  destruct (inboundBusinessStatuses remote (length (calls st)) (Doc.id (Match.inbound m)));
    [|reflexivity].
  by destruct (Match.outbound m).
Qed.

Lemma length_calls_logged (c : Call) (st : State) :
  length (calls (logged c st)) = S (length (calls st)).
Proof. simpl. rewrite length_app. simpl. lia. Qed.

Lemma analyzeAllDocuments_loop_entries (matches : list Match.t) (results res : list Item.t)
    (st st' : State) :
  for_of matches analyzeAllDocuments_body results st = (Return res, st') ->
  exists items,
    res = results ++ items /\
    calls st' = calls st ++ statusFetches matches /\
    processResults st' = processResults st /\
    length items = length matches /\
    forall i m, matches !! i = Some m ->
      exists a, items !! i = Some a /\ analysedAt (length (calls st) + i) m a.
Proof.
  revert results st. induction matches as [|m matches IH]; intros results st Hloop.
  - injection Hloop as <- <-. exists []. rewrite !app_nil_r. repeat split. by intros i m.
  - cbn [for_of] in Hloop. unfold bind in Hloop.
    rewrite analyzeAllDocuments_body_unfold in Hloop.
    destruct (inboundBusinessStatuses remote (length (calls st)) (Doc.id (Match.inbound m)))
      as [statuses|e] eqn:Hfetch; [|discriminate].
    destruct (Match.outbound m) as [outbound|] eqn:Hout; [|discriminate].
    apply IH in Hloop as (items & -> & Hcalls & Hresults & Hlen & Hitems).
    eexists (_ :: items). split; [by rewrite <- app_assoc|].
    split; [rewrite Hcalls; simpl; by rewrite <- app_assoc|]. split; [done|].
    split; [simpl; by rewrite Hlen|].
    intros [|i] m' Hm'.
    + injection Hm' as <-. eexists. split; [reflexivity|].
      rewrite Nat.add_0_r. by exists statuses, outbound.
    + destruct (Hitems i m' Hm') as (a & Ha & Hat). exists a. split; [done|].
      rewrite length_calls_logged in Hat. by rewrite <- Nat.add_succ_comm.
Qed.

(** X13.  When [analyzeAllDocuments] returns, it has fetched the status list of
    each match once, in the order of the matches, and nothing else, and its
    result has one entry per match in the same order: the entry of the match
    at position [i] holds the status list that the fetch number [i] returned
    and the flags computed from it. *)
Theorem analyzeAllDocuments_entries (matches : list Match.t) (analysis : list Item.t)
    (st st' : State) :
  analyzeAllDocuments matches st = (Return analysis, st') ->
  calls st' = calls st ++ statusFetches matches /\
  processResults st' = processResults st /\
  length analysis = length matches /\
  forall i m, matches !! i = Some m ->
    exists a, analysis !! i = Some a /\ analysedAt (length (calls st) + i) m a.
Proof.
  intros Hrun. by apply analyzeAllDocuments_loop_entries in Hrun as (items & -> & ? & ? & ? & ?).
Qed.

Lemma analyzeAllDocuments_loop_returns (matches : list Match.t) (results : list Item.t)
    (st : State) :
  (forall i m, matches !! i = Some m -> exists a, analysedAt (length (calls st) + i) m a) ->
  exists items st1,
    for_of matches analyzeAllDocuments_body results st = (Return (results ++ items), st1) /\
    calls st1 = calls st ++ statusFetches matches /\
    processResults st1 = processResults st.
Proof.
  revert results st. induction matches as [|m matches IH]; intros results st Hall.
  - exists [], st. by rewrite !app_nil_r.
  - cbn [for_of]. unfold bind. rewrite analyzeAllDocuments_body_unfold.
    destruct (Hall 0%nat m eq_refl) as (a & statuses & outbound & Hfetch & Hout & _).
    rewrite Nat.add_0_r in Hfetch. rewrite Hfetch, Hout.
    match goal with
    | |- context [for_of matches _ (results ++ [?item]) ?s] =>
        destruct (IH (results ++ [item]) s) as (items & st1 & Hloop & Hcalls & Hresults)
    end.
    + intros i m' Hm'. rewrite length_calls_logged.
      destruct (Hall (S i) m' Hm') as [a' Ha']. exists a'. by rewrite Nat.add_succ_comm.
    + rewrite Hloop. eexists (_ :: items), st1. split; [by rewrite <- app_assoc|].
      split; [|done]. rewrite Hcalls. simpl. by rewrite <- app_assoc.
Qed.

(** X14.  [analyzeAllDocuments] stops at the first status fetch that throws: it
    throws that error, and the status lists of the matches after the failing
    one are not fetched. *)
Theorem analyzeAllDocuments_stops_at_first_failure
    (pre post : list Match.t) (m : Match.t) (e : Err.t) (st : State) :
  (forall i m', pre !! i = Some m' -> exists a, analysedAt (length (calls st) + i) m' a) ->
  inboundBusinessStatuses remote (length (calls st) + length pre) (Doc.id (Match.inbound m))
    = Throw e ->
  exists st',
    analyzeAllDocuments (pre ++ m :: post) st = (Throw e, st') /\
    calls st' = calls st ++ statusFetches (pre ++ [m]) /\
    processResults st' = processResults st.
Proof.
  intros Hpre Hfail. unfold analyzeAllDocuments. rewrite for_of_app. unfold bind.
  destruct (analyzeAllDocuments_loop_returns pre [] st Hpre)
    as (items & st1 & Hloop & Hcalls & Hresults).
  rewrite Hloop. cbn [for_of]. unfold bind. rewrite analyzeAllDocuments_body_unfold.
  replace (length (calls st1)) with (length (calls st) + length pre)%nat
    by (rewrite Hcalls, length_app; unfold statusFetches; by rewrite length_map).
  rewrite Hfail. eexists. split; [reflexivity|]. split; [|done].
  simpl. rewrite Hcalls. unfold statusFetches. by rewrite List.map_app, <- app_assoc.
Qed.

(** ** splitByDate: order, calls, and the issue date of the XML *)

(** X15.  [splitByDate] fetches the XML of each match once, in the order of the
    matches, and nothing else; each of its two lists keeps the matches it
    holds in the order of the input. *)
Theorem splitByDate_keeps_order (cutoff : EcmaDate.Date) (matches : list Match.t) (st : State) :
  exists nov28AndLater beforeNov28 st',
    splitByDate matches cutoff st = (Return (nov28AndLater, beforeNov28), st') /\
    calls st' = calls st ++ xmlFetches matches /\
    processResults st' = processResults st /\
    nov28AndLater `sublist_of` matches /\
    beforeNov28 `sublist_of` matches.
Proof.
  revert st. induction matches as [|m matches IH]; intros st.
  - exists [], [], st. by rewrite app_nil_r.
  - rewrite splitByDate_cons.
    destruct (IH (logged (FetchDocumentXml (Doc.id (Match.inbound m))) st))
      as (a & b & st' & -> & Hcalls & Hresults & Ha & Hb).
    assert (calls st' = calls st ++ xmlFetches (m :: matches)) as Hcalls'
      by (rewrite Hcalls; simpl; by rewrite <- app_assoc).
    destruct (onOrAfter _ _); eexists _, _, _; (split; [reflexivity|]);
      (split; [exact Hcalls'|]); (split; [exact Hresults|]).
    + split; [by apply sublist_skip|by apply sublist_cons].
    + split; [by apply sublist_cons|by apply sublist_skip].
Qed.

(** X16.  When the XML of a match is fetched and has an [IssueDate] element,
    the date read from the text of that element alone decides where the match
    goes, whatever the [createdAt] of the inbound document; when the text is
    no date, the match goes to [beforeNov28]. *)
Theorem splitByDate_issue_date_decides
    (cutoff : EcmaDate.Date) (pre post : list Match.t) (m : Match.t) (st : State)
    (xml text : string) :
  let st_m := (splitByDate pre cutoff st).2 in
  documentXml remote (length (calls st_m)) (Doc.id (Match.inbound m)) = Return xml ->
  extractField xml "IssueDate" = Some text ->
  (Date_parse text = None -> onOrAfter (Date_parse text) cutoff = false) /\
  exists a1 b1 a2 b2 st2,
    splitByDate pre cutoff st = (Return (a1, b1), st_m) /\
    splitByDate post cutoff (logged (FetchDocumentXml (Doc.id (Match.inbound m))) st_m)
      = (Return (a2, b2), st2) /\
    splitByDate (pre ++ m :: post) cutoff st
      = (Return (if onOrAfter (Date_parse text) cutoff
                 then (a1 ++ m :: a2, b1 ++ b2)
                 else (a1 ++ a2, b1 ++ m :: b2)),
         st2).
Proof.
  intros st_m Hxml Htext. split.
  - intros ->. reflexivity.
  - destruct (splitByDate_places cutoff pre post m st)
      as (a1 & b1 & a2 & b2 & st2 & Hpre & Hpost & Hall).
    fold st_m in Hpre, Hpost, Hall.
    exists a1, b1, a2, b2, st2. split; [done|]. split; [done|].
    rewrite Hall, Hxml. cbn [detailsOfAnswer]. unfold invoiceDateOf, parseInvoiceDetails.
    cbn [Details.issueDate]. rewrite Htext.
    assert (JS.truthy (Some text) = true) as ->; [|done].
    apply match_first_spec in Htext as [Hne _]. simpl.
    by destruct (String.eqb_spec text "").
Qed.

(** ** The report phase *)

Lemma fetchBusinessStatusSafe_unfold (docId : string) (st : State) :
  fetchBusinessStatusSafe docId st =
  (Return match inboundBusinessStatuses remote (length (calls st)) docId with
          | Return statuses => statuses
          | Throw _ => []
          end,
   logged (FetchInboundBusinessStatuses docId) st).
Proof.
  unfold fetchBusinessStatusSafe, try_catch, fetchInboundBusinessStatuses, call.
  by destruct (inboundBusinessStatuses remote (length (calls st)) docId).
Qed.

Lemma sortMatchesByInvoiceNumber_returns (matches : list Match.t) (st : State) :
  exists sorted st',
    sortMatchesByInvoiceNumber matches st = (Return sorted, st') /\
    sorted ≡ₚ matches /\
    calls st' = calls st ++ xmlFetches matches /\
    processResults st' = processResults st.
Proof.
  assert (exists numbered st',
             map_async withInvoiceNumber matches st = (Return numbered, st') /\
             List.map fst numbered = matches /\
             calls st' = calls st ++ xmlFetches matches /\
             processResults st' = processResults st) as (numbered & st' & Hasync & Hfst & ? & ?).
  { revert st. induction matches as [|m matches IH]; intros st.
    - exists [], st. by rewrite app_nil_r.
    - cbn [map_async]. unfold bind. rewrite withInvoiceNumber_unfold.
      destruct (IH (logged (FetchDocumentXml (Doc.id (Match.inbound m))) st))
        as (numbered & st' & -> & Hfst & Hcalls & Hresults).
      eexists (_ :: numbered), st'. split; [reflexivity|]. split; [simpl; by rewrite Hfst|].
      split; [|done]. rewrite Hcalls. simpl. by rewrite <- app_assoc. }
  exists (List.map fst (JS.sort byInvoiceNumber numbered)), st'.
  unfold sortMatchesByInvoiceNumber, bind. rewrite Hasync. split; [done|].
  split; [|done]. rewrite <- Hfst. apply Permutation_map, sort_Permutation.
Qed.

Lemma bind_Return {A B} (m : M A) (k : A -> M B) (st st' : State) (a : A) :
  m st = (Return a, st') -> bind m k st = k a st'.
Proof. unfold bind. by intros ->. Qed.

Lemma bind_Throw {A B} (m : M A) (k : A -> M B) (st st' : State) (e : Err.t) :
  m st = (Throw e, st') -> bind m k st = (Throw e, st').
Proof. unfold bind. by intros ->. Qed.

Lemma for_of_fetches (xs : list Match.t) (body : unit -> Match.t -> M unit)
    (fetches : Match.t -> list Call) (st : State) :
  (forall m st0, m ∈ xs ->
     exists st1, body tt m st0 = (Return tt, st1) /\
       calls st1 = calls st0 ++ fetches m /\ processResults st1 = processResults st0) ->
  exists st',
    for_of xs body tt st = (Return tt, st') /\
    calls st' = calls st ++ concat (List.map fetches xs) /\
    processResults st' = processResults st.
Proof.
  revert st. induction xs as [|x xs IH]; intros st Hbody.
  - exists st. by rewrite app_nil_r.
  - cbn [for_of]. unfold bind.
    destruct (Hbody x st) as (st1 & -> & Hcalls1 & Hresults1); [by left|].
    destruct (IH st1) as (st2 & -> & Hcalls2 & Hresults2).
    { intros m st0 Hm. apply Hbody. by right. }
    exists st2. split; [done|]. cbn [List.map concat].
    rewrite Hcalls2, Hcalls1, Hresults2, Hresults1. by rewrite <- app_assoc.
Qed.

Lemma freshOutboundOf_is_Some (freshOutboundMap : gmap (option string) Doc.t) (m : Match.t) :
  is_Some (Match.outbound m) -> is_Some (freshOutboundOf freshOutboundMap m).
Proof.
  intros Hm. unfold freshOutboundOf.
  by destruct (JS.Map_get freshOutboundMap (Match.transmissionId m)).
Qed.

Lemma printFinalResults_body (freshOutboundMap : gmap (option string) Doc.t)
    (m : Match.t) (st0 : State) :
  is_Some (Match.outbound m) ->
  exists st1,
    (let freshOutbound := freshOutboundOf freshOutboundMap m in
     let* freshInboundStatuses := fetchBusinessStatusSafe (Doc.id (Match.inbound m)) in
     let freshInboundStatus := getLatestStatus freshInboundStatuses in
     printMatch (withOutbound m freshOutbound) (Some freshInboundStatus)) st0
    = (Return tt, st1) /\
    calls st1 = calls st0 ++ [FetchInboundBusinessStatuses (Doc.id (Match.inbound m));
                              FetchDocumentXml (Doc.id (Match.inbound m))] /\
    processResults st1 = processResults st0.
Proof.
  intros [doc Hdoc]%(freshOutboundOf_is_Some freshOutboundMap).
  unfold bind, printMatch, bind. rewrite fetchBusinessStatusSafe_unfold.
  cbn [withOutbound Match.inbound Match.outbound].
  rewrite fetchXmlDetailsSafe_unfold, Hdoc. unfold ret, printOutboundSection, ret.
  eexists. split; [reflexivity|]. cbn [logged calls processResults].
  by rewrite <- app_assoc.
Qed.

Lemma saveReportToFile_body (freshOutboundMap : gmap (option string) Doc.t)
    (m : Match.t) (st0 : State) :
  is_Some (Match.outbound m) ->
  exists st1,
    (let freshOutbound := freshOutboundOf freshOutboundMap m in
     let* xmlDetails := fetchXmlDetailsSafe (Doc.id (Match.inbound m)) in
     let* inboundStatuses := fetchBusinessStatusSafe (Doc.id (Match.inbound m)) in
     let inboundStatus := getLatestStatus inboundStatuses in
     writeInvoiceToFile (withOutbound m freshOutbound)) st0
    = (Return tt, st1) /\
    calls st1 = calls st0 ++ [FetchDocumentXml (Doc.id (Match.inbound m));
                              FetchInboundBusinessStatuses (Doc.id (Match.inbound m))] /\
    processResults st1 = processResults st0.
Proof.
  intros [doc Hdoc]%(freshOutboundOf_is_Some freshOutboundMap).
  unfold bind. rewrite fetchXmlDetailsSafe_unfold, fetchBusinessStatusSafe_unfold.
  unfold writeInvoiceToFile. cbn [withOutbound Match.outbound]. rewrite Hdoc. unfold ret.
  eexists. split; [reflexivity|]. cbn [logged calls processResults].
  by rewrite <- app_assoc.
Qed.

(** X17.  For matches that have an outbound document, as every match that
    [findMatches] builds has.  The console report and the file report each
    fetch the XML of every match, in the order given, to sort them, then the
    outbound documents again, then, for each match in sorted order, its
    status list and its XML ([printFinalResults]) or its XML and its status
    list ([saveReportToFile]); they make no other call and leave the process
    results alone.  [printFinalResults] throws exactly when the outbound
    re-fetch throws, with that error and without the fetches per match that
    would follow; no failing fetch of a status list or an XML makes it
    throw.  [saveReportToFile] throws in this case too, and besides only
    when the report directory cannot be made, before any call, or when the
    file cannot be written, after all of them. *)
Theorem report_fetches_and_failures (matches : list Match.t) (st : State) :
  Forall (fun m => is_Some (Match.outbound m)) matches ->
  exists sorted st1,
    sortMatchesByInvoiceNumber matches st = (Return sorted, st1) /\
    sorted ≡ₚ matches /\
    calls st1 = calls st ++ xmlFetches matches /\
    let refetch := FetchOutboundDocuments CONFIG.suppliers_outbound_id in
    let answer :=
      outboundDocuments remote (length (calls st1)) CONFIG.suppliers_outbound_id in
    (exists st',
       printFinalResults matches st
       = (match answer with Return _ => Return tt | Throw e => Throw e end, st') /\
       calls st'
       = calls st1 ++ refetch :: match answer with
                                 | Return _ => printFetches sorted
                                 | Throw _ => []
                                 end /\
       processResults st' = processResults st) /\
    match outputDirReady remote (length (calls st)) with
    | Throw e => saveReportToFile matches st = (Throw e, st)
    | Return _ =>
        exists st',
          saveReportToFile matches st
          = (match answer with
             | Return _ => reportWritten remote (length (calls st'))
             | Throw e => Throw e
             end, st') /\
          calls st'
          = calls st1 ++ refetch :: match answer with
                                    | Return _ => saveFetches sorted
                                    | Throw _ => []
                                    end /\
          processResults st' = processResults st
    end.
Proof.
  intros Houtbound.
  destruct (sortMatchesByInvoiceNumber_returns matches st)
    as (sorted & st1 & Hsort & Hperm & Hcalls1 & Hresults1).
  exists sorted, st1. split; [done|]. split; [done|]. split; [done|].
  intros refetch answer.
  assert (forall m, m ∈ sorted -> is_Some (Match.outbound m)) as Hsorted.
  { intros m Hm. rewrite Hperm in Hm. rewrite Forall_forall in Houtbound. by apply Houtbound. }
  split.
  - unfold printFinalResults, bind. rewrite Hsort, buildOutboundMap_unfold. fold answer.
    destruct answer as [outboundDocs|e].
    + destruct (for_of_fetches sorted
                  (fun _ m =>
                     let freshOutbound := freshOutboundOf (outboundIndex outboundDocs) m in
                     let* freshInboundStatuses :=
                       fetchBusinessStatusSafe (Doc.id (Match.inbound m)) in
                     let freshInboundStatus := getLatestStatus freshInboundStatuses in
                     printMatch (withOutbound m freshOutbound) (Some freshInboundStatus))
                  (fun m => [FetchInboundBusinessStatuses (Doc.id (Match.inbound m));
                             FetchDocumentXml (Doc.id (Match.inbound m))])
                  (logged refetch st1))
        as (st' & Hrun & Hcalls & Hresults).
      { intros m st0 Hm. apply printFinalResults_body. by apply Hsorted. }
      exists st'. split; [exact Hrun|]. rewrite Hcalls, Hresults. cbn [logged calls processResults].
      split; [by rewrite <- app_assoc|done].
    + eexists. split; [reflexivity|]. cbn [logged calls processResults]. by split.
  - unfold saveReportToFile, fileWriter_init, fileWriter_save.
    destruct (outputDirReady remote (length (calls st))) as [[]|e] eqn:Hdir;
      unfold bind at 1, ask at 1; rewrite Hdir; [|done].
    erewrite bind_Return by exact Hsort. subst answer.
    pose proof (buildOutboundMap_unfold st1) as Hmap.
    destruct (outboundDocuments remote (length (calls st1)) CONFIG.suppliers_outbound_id)
      as [outboundDocs|e].
    + erewrite bind_Return by exact Hmap.
      destruct (for_of_fetches sorted
                  (fun _ m =>
                     let freshOutbound := freshOutboundOf (outboundIndex outboundDocs) m in
                     let* xmlDetails := fetchXmlDetailsSafe (Doc.id (Match.inbound m)) in
                     let* inboundStatuses :=
                       fetchBusinessStatusSafe (Doc.id (Match.inbound m)) in
                     let inboundStatus := getLatestStatus inboundStatuses in
                     writeInvoiceToFile (withOutbound m freshOutbound))
                  (fun m => [FetchDocumentXml (Doc.id (Match.inbound m));
                             FetchInboundBusinessStatuses (Doc.id (Match.inbound m))])
                  (logged refetch st1))
        as (st' & Hrun & Hcalls & Hresults).
      { intros m st0 Hm. apply saveReportToFile_body. by apply Hsorted. }
      exists st'. split; [by erewrite bind_Return by exact Hrun|]. rewrite Hcalls, Hresults.
      cbn [logged calls processResults]. split; [by rewrite <- app_assoc|done].
    + erewrite bind_Throw by exact Hmap.
      eexists. split; [reflexivity|]. cbn [logged calls processResults]. by split.
Qed.

(** ** Sorting by number *)






(** ** The countdown *)

(** The number of intervals that cover [totalMs]: its quotient by
    [intervalMs], rounded up, and none for a time that is not positive. *)
Definition intervalsIn (totalMs intervalMs : Z) : nat :=
  Z.to_nat ((totalMs + intervalMs - 1) / intervalMs).

Lemma intervalsIn_done (totalMs intervalMs : Z) :
  0 < intervalMs -> totalMs <= 0 -> intervalsIn totalMs intervalMs = O.
Proof.
  intros Hi Ht. unfold intervalsIn.
  assert ((totalMs + intervalMs - 1) / intervalMs <= 0); [|lia].
  assert ((totalMs + intervalMs - 1) / intervalMs < 1); [|lia].
  apply Z.div_lt_upper_bound; lia.
Qed.

Lemma intervalsIn_step (totalMs intervalMs : Z) :
  0 < intervalMs -> 0 < totalMs ->
  intervalsIn totalMs intervalMs = S (intervalsIn (totalMs - intervalMs) intervalMs).
Proof.
  intros Hi Ht. unfold intervalsIn.
  replace (totalMs + intervalMs - 1) with (totalMs - 1 + 1 * intervalMs) by lia.
  rewrite Z.div_add by lia.
  replace (totalMs - intervalMs + intervalMs - 1) with (totalMs - 1) by lia.
  assert (0 <= (totalMs - 1) / intervalMs) by (apply Z.div_pos; lia). lia.
Qed.

Lemma to_double_exact (x : Z) : Z.abs x <= 2 ^ 53 -> JS.to_double x = x.
Proof. intros Hx. unfold JS.to_double. by destruct (Z.leb_spec (Z.abs x) (2 ^ 53)); [|lia]. Qed.

Lemma to_double_pos (x : Z) : 0 < x -> 0 < JS.to_double x.
Proof.
  intros Hx. unfold JS.to_double. destruct (Z.leb_spec (Z.abs x) (2 ^ 53)) as [|Hbig]; [done|].
  rewrite Z.abs_eq in * by lia. rewrite Z.sgn_pos by done.
  pose proof (Z.log2_spec x Hx) as [Hlow _].
  assert (53 <= Z.log2 x) as Hlog.
  { apply Z.log2_le_pow2; [done|]. lia. }
  set (k := Z.log2 x) in *. set (ulp := 2 ^ (k - 52)).
  assert (0 < ulp) as Hulp by (apply Z.pow_pos_nonneg; lia).
  assert (ulp <= x) as Hle.
  { transitivity (2 ^ k); [|done]. apply Z.pow_le_mono_r; lia. }
  assert (1 <= x / ulp) as Hq.
  { apply Z.div_le_lower_bound; lia. }
  destruct (_ || _); nia.
Qed.

Lemma countdown_unfold (fuel : nat) (totalMs intervalMs : Z) :
  0 < intervalMs -> intervalMs <= 2 ^ 53 -> Z.abs totalMs <= 2 ^ 53 ->
  countdown fuel totalMs intervalMs =
  if (intervalsIn totalMs intervalMs <=? fuel)%nat
  then Some (List.map (fun i => totalMs - Z.of_nat i * intervalMs)
               (seq 0 (intervalsIn totalMs intervalMs)))
  else None.
Proof.
  intros Hi Hsafe. revert totalMs. induction fuel as [|fuel IH]; intros totalMs Ht.
  - cbn [countdown]. destruct (Z.ltb_spec 0 totalMs) as [Hpos|Hneg].
    + by rewrite intervalsIn_step by done.
    + by rewrite intervalsIn_done by done.
  - cbn [countdown]. destruct (Z.ltb_spec 0 totalMs) as [Hpos|Hneg].
    + unfold JS.Number_sub. rewrite to_double_exact by lia.
      rewrite IH, (intervalsIn_step totalMs) by (done || lia).
      change (S ?n <=? S fuel)%nat with (n <=? fuel)%nat.
      destruct (_ <=? fuel)%nat; [|done]. cbn [fmap option_fmap option_map seq List.map]. f_equal.
      f_equal; [lia|]. rewrite <- seq_shift, List.map_map. apply List.map_ext. intros i. lia.
    + by rewrite intervalsIn_done by done.
Qed.

(** X19.  For times that are safe integers and a positive interval, the
    countdown ends: it sleeps once per interval needed to cover the time,
    rounded up, at the remaining times [totalMs], [totalMs - intervalMs],
    ..., and not at all for a time that is not positive.  Exactly that many
    turns of the loop are needed.  (Beyond 2^53 the subtraction rounds, and
    the loop need not end.) *)
Theorem countdown_sleeps_once_per_interval (fuel : nat) (totalMs intervalMs : Z) :
  0 < intervalMs -> intervalMs <= 2 ^ 53 -> Z.abs totalMs <= 2 ^ 53 ->
  countdown fuel totalMs intervalMs =
  if (intervalsIn totalMs intervalMs <=? fuel)%nat
  then Some (List.map (fun i => totalMs - Z.of_nat i * intervalMs)
               (seq 0 (intervalsIn totalMs intervalMs)))
  else None.
Proof. apply countdown_unfold. Qed.

(** X20.  With an interval that is not positive the countdown of a positive time
    never ends: the remaining time does not shrink, whatever the number of
    turns. *)
Theorem countdown_needs_a_positive_interval (fuel : nat) (totalMs intervalMs : Z) :
  intervalMs <= 0 -> 0 < totalMs -> countdown fuel totalMs intervalMs = None.
Proof.
  intros Hi. revert totalMs. induction fuel as [|fuel IH]; intros totalMs Ht.
  - cbn [countdown]. by destruct (Z.ltb_spec 0 totalMs); [|lia].
  - cbn [countdown]. destruct (Z.ltb_spec 0 totalMs); [|lia].
    rewrite IH; [done|]. apply to_double_pos. lia.
Qed.

(** X21.  [handleWaitTime] waits only after a success: without one it does
    not sleep, and after one, for a waiting time that is a safe integer, it
    sleeps once per five seconds of the waiting time, rounded up, and
    ends. *)
Theorem handleWaitTime_waits_only_after_a_success (successCount waitTimeMs : Z) :
  Z.abs waitTimeMs <= 2 ^ 53 ->
  exists fuel,
    handleWaitTime_sleeps fuel successCount waitTimeMs =
    Some (if 0 <? successCount
          then List.map (fun i => waitTimeMs - Z.of_nat i * 5000)
                 (seq 0 (intervalsIn waitTimeMs 5000))
          else []).
Proof.
  intros Hsafe. exists (intervalsIn waitTimeMs 5000). unfold handleWaitTime_sleeps.
  destruct (0 <? successCount); [|done].
  rewrite countdown_unfold by (done || lia).
  by rewrite Nat.leb_refl.
Qed.

End Program.

(** ** The statements on the sample world *)

(** C2 as the specification words it fails on a record without a technical
    status: [getLatestStatus] returns "-" for it, which is the technical
    status of no record of the list. *)
Lemma getLatestStatus_missing_field_counterexample :
  getLatestStatus EcmaDate.parse_iso [Sample.accepted]
    = {| Latest.code := "accepted"; Latest.technicalStatus := "-" |} /\
  ~ exists r,
      r ∈ [Sample.accepted] /\
      Some (Latest.code (getLatestStatus EcmaDate.parse_iso [Sample.accepted]))
        = Status.code (Status.attributes r) /\
      Some (Latest.technicalStatus (getLatestStatus EcmaDate.parse_iso [Sample.accepted]))
        = Status.technicalStatus (Status.attributes r).
Proof.
  split; [reflexivity|].
  intros (r & Hr & _ & Htech). apply list_elem_of_singleton in Hr. subst r.
  discriminate Htech.
Qed.

Lemma getLatestStatus_reads_a_latest_record_witness :
  [Sample.received; Sample.accepted] <> [] /\
  allDated EcmaDate.parse_iso [Sample.received; Sample.accepted] /\
  exists r t,
    r ∈ [Sample.received; Sample.accepted] /\
    createdAt_of EcmaDate.parse_iso r = Some t /\
    (forall s t', s ∈ [Sample.received; Sample.accepted] ->
                  createdAt_of EcmaDate.parse_iso s = Some t' -> t' <= t) /\
    Latest.code (getLatestStatus EcmaDate.parse_iso [Sample.received; Sample.accepted])
      = JS.or_else (Status.code (Status.attributes r)) "-" /\
    Latest.technicalStatus
      (getLatestStatus EcmaDate.parse_iso [Sample.received; Sample.accepted])
      = JS.or_else (Status.technicalStatus (Status.attributes r)) "-".
Proof.
  assert (allDated EcmaDate.parse_iso [Sample.received; Sample.accepted]) as Hdated
    by (repeat constructor; vm_compute; eauto).
  split; [discriminate|]. split; [exact Hdated|].
  apply (getLatestStatus_reads_a_latest_record EcmaDate.parse_iso
           [Sample.received; Sample.accepted]); [discriminate|exact Hdated].
Defined.

Lemma status_resolver_is_order_independent_and_pure_witness :
  hasStatus [Sample.received; Sample.accepted] "accepted"
    = hasStatus [Sample.accepted; Sample.received] "accepted" /\
  getLatestStatus EcmaDate.parse_iso [Sample.received; Sample.accepted]
    = getLatestStatus EcmaDate.parse_iso [Sample.accepted; Sample.received] /\
  (getLatestStatus_in EcmaDate.parse_iso {[ 0%nat := [Sample.received; Sample.accepted] ]} 0).2
    !! 0%nat = Some [Sample.received; Sample.accepted].
Proof.
  destruct (status_resolver_is_order_independent_and_pure EcmaDate.parse_iso
              [Sample.received; Sample.accepted] [Sample.accepted; Sample.received]
              "accepted" CONFIG.finalStatuses
              {[ 0%nat := [Sample.received; Sample.accepted] ]} 0 0
              (Permutation_swap _ _ _))
    as ((Hhas & _ & Hlatest) & _ & Hstore).
  split; [exact Hhas|]. split.
  - apply Hlatest.
    + repeat constructor; vm_compute; eauto.
    + apply (bool_decide_unpack _). vm_compute. exact I.
  - destruct Hstore as (Hsame & _ & _); [by eexists|].
    rewrite Hsame. reflexivity.
Defined.

Lemma sendStatus_never_throws_witness :
  exists result,
    (sendStatus Sample.remote "in-1" "rejected" initialState).1 = Return result /\
    success result = false /\
    statusCode result = "rejected" /\
    error result = Some "Cannot transition from a final status".
Proof.
  destruct (sendStatus_never_throws Sample.remote "in-1" "rejected" initialState)
    as (result & Hrun & Hcode & Hfailed & Hdetail & _).
  exists result. rewrite Hrun. split; [reflexivity|]. split; [exact Hfailed|].
  split; [exact Hcode|].
  eapply Hdetail; [reflexivity..|discriminate].
Defined.

Lemma buildOutboundMap_last_write_wins_witness :
  exists outboundMap,
    (buildOutboundMap Sample.remote initialState).1 = Return outboundMap /\
    JS.Map_get outboundMap (Some "T1") = Some Sample.out1b.
Proof.
  destruct (buildOutboundMap_last_write_wins Sample.remote initialState Sample.outboundDocs
              eq_refl)
    as (outboundMap & st' & Hrun & Hlast & _).
  exists outboundMap. rewrite Hrun. split; [reflexivity|].
  apply (Hlast [Sample.out1; Sample.out3; Sample.out2] Sample.out1b [Sample.out4] "T1");
    [reflexivity|reflexivity|discriminate|].
  intros d ->%list_elem_of_singleton. discriminate.
Defined.

Lemma findMatches_iff_shared_transmissionId_witness :
  (fetchAndMatchDocuments Sample.remote initialState).1
    = Return (findMatches Sample.inboundDocs (outboundIndex Sample.outboundDocs)) /\
  (exists m,
     m ∈ findMatches Sample.inboundDocs (outboundIndex Sample.outboundDocs) /\
     Match.inbound m = Sample.in2).
Proof.
  destruct (findMatches_iff_shared_transmissionId Sample.remote
              Sample.inboundDocs Sample.outboundDocs initialState)
    as (_ & _ & Hiff & Hrun).
  split; [apply Hrun; [reflexivity|reflexivity|discriminate]|].
  apply Hiff. split; [right; left|].
  exists Sample.out2, "T2". split; [do 2 right; left|]. by split.
Defined.

Lemma splitByDate_cutoff_day_is_on_or_after_witness :
  (splitByDate EcmaDate.parse_iso Sample.LocalTZA Sample.remote
     ([Sample.match1] ++ Sample.match2 :: []) cutoffDate initialState).1
  = Return ([Sample.match2], [Sample.match1]).
Proof.
  destruct (splitByDate_cutoff_day_is_on_or_after EcmaDate.parse_iso Sample.LocalTZA
              Sample.remote [Sample.match1] [] Sample.match2 initialState)
    as (_ & a1 & b1 & a2 & b2 & st2 & Hpre & Hpost & Hall).
  - intros t b. unfold Sample.LocalTZA, EcmaDate.msPerDay. lia.
  - vm_compute. reflexivity.
  - rewrite Hall. vm_compute in Hpre. vm_compute in Hpost.
    injection Hpre as <- <-. injection Hpost as <- <- _. reflexivity.
Defined.

Lemma splitByDate_falls_back_to_createdAt_witness :
  (splitByDate EcmaDate.parse_iso Sample.LocalTZA Sample.remote
     ([Sample.match1] ++ Sample.match2 :: []) cutoffDate initialState).1
  = Return ([Sample.match2], [Sample.match1]).
Proof.
  destruct (splitByDate_falls_back_to_createdAt EcmaDate.parse_iso Sample.LocalTZA
              Sample.remote cutoffDate [Sample.match1] [] Sample.match2 initialState)
    as (_ & Hplace).
  destruct Hplace as (a1 & b1 & a2 & b2 & st2 & Hpre & Hpost & Hall).
  - vm_compute. reflexivity.
  - rewrite Hall. vm_compute in Hpre. vm_compute in Hpost.
    injection Hpre as <- <-. injection Hpost as <- <- _. reflexivity.
Defined.

Lemma sortMatchesByInvoiceNumber_orders_witness :
  (sortMatchesByInvoiceNumber EcmaDate.parse_iso Sample.localeCompare Sample.remote
     [Sample.match1; Sample.match2] initialState).1
    = Return [Sample.match2; Sample.match1] /\
  JS.consistentOn (byInvoiceNumber Sample.localeCompare)
    [(Sample.match1, "12"); (Sample.match2, "7")] /\
  match JS.parseInt "7", JS.parseInt "12" with
  | Some x, Some y => x <= y
  | _, _ => Sample.localeCompare "7" "12" <= 0
  end.
Proof.
  destruct (sortMatchesByInvoiceNumber_orders EcmaDate.parse_iso Sample.localeCompare
              Sample.remote [Sample.match1; Sample.match2] initialState)
    as (numbered & st' & Hnumbered & _ & Hsorted).
  vm_compute in Hnumbered. injection Hnumbered as <- <-.
  destruct Hsorted as (Hrun & _ & _ & Horder).
  assert (JS.consistentOn (byInvoiceNumber Sample.localeCompare)
            [(Sample.match1, "12"); (Sample.match2, "7")]) as Hcons
    by (apply consistentOnb_sound; vm_compute; reflexivity).
  split; [rewrite Hrun; vm_compute; reflexivity|]. split; [exact Hcons|].
  apply (Horder Hcons) with (i := 0%nat) (j := 1%nat)
                            (a := (Sample.match2, "7")) (b := (Sample.match1, "12")).
  - intros mn n Hmn Hn.
    apply elem_of_cons in Hmn as [->|Hmn];
      [|apply list_elem_of_singleton in Hmn; subst mn];
      vm_compute in Hn; injection Hn as <-; vm_compute; discriminate.
  - lia.
  - vm_compute. reflexivity.
  - vm_compute. reflexivity.
Defined.

Lemma no_submission_after_final_status_witness :
  Latest.code (getLatestStatus EcmaDate.parse_iso (Sample.statusesOf "in-1")) = "accepted" /\
  forall code,
    SendBusinessStatus "in-1" code
    ∉ calls (generateReport EcmaDate.parse_iso Sample.LocalTZA Sample.localeCompare
               Sample.remote initialState).2.
Proof.
  split; [vm_compute; reflexivity|]. intros code.
  pose (matches := [Sample.match1; Sample.match2]).
  pose (s0 := (fetchAndMatchDocuments Sample.remote initialState).2).
  pose (analysed := analyzeAllDocuments Sample.remote matches s0).
  pose (analysis := match analysed.1 with Return items => items | Throw _ => [] end).
  destruct (no_submission_after_final_status EcmaDate.parse_iso Sample.LocalTZA
              Sample.localeCompare Sample.remote)
    as [_ Hnone].
  destruct (Hnone matches s0 analysis analysed.2) as [_ Hnever].
  - vm_compute. reflexivity.
  - vm_compute. reflexivity.
  - apply Hnever. intros a Ha Hid.
    apply elem_of_cons in Ha as [->|Ha]; [left; vm_compute; reflexivity|].
    apply list_elem_of_singleton in Ha. subst a. vm_compute in Hid. discriminate Hid.
Defined.

(** ** Further checks on concrete inputs *)

Example cutoffDate_is_the_iso_instant :
  EcmaDate.parse_iso "2025-11-28T00:00:00Z" = cutoffDate /\
  EcmaDate.parse_iso "2025-11-28" = cutoffDate.
Proof. split; reflexivity. Qed.

Example extractField_reads_the_first_full_element :
  extractField "<a><cbc:ID></cbc:ID><cbc:ID>1<b</cbc:ID><cbc:ID>INV-7</cbc:ID></a>" "ID"
    = Some "INV-7" /\
  extractField "<a><cbc:Note>x</cbc:Note></a>" "IssueDate" = None.
Proof. split; reflexivity. Qed.

Example parseInt_reads_the_leading_integer :
  JS.parseInt "  -12ab" = Some (-12) /\
  JS.parseInt "007" = Some 7 /\
  JS.parseInt "Niet gevonden" = None /\
  JS.parseInt "+" = None.
Proof. repeat split; reflexivity. Qed.

Example dateOnly_of_the_cutoff_in_the_sample_zone :
  dateOnly Sample.LocalTZA cutoffDate = Some 1764284400000 /\
  dateOnly Sample.LocalTZA (EcmaDate.parse_iso "2025-11-27T22:59:59Z") = Some 1764198000000 /\
  dateOnly Sample.LocalTZA (EcmaDate.parse_iso "2025-11-27T23:00:00Z") = Some 1764284400000 /\
  dateOnly Sample.LocalTZA None = None.
Proof. repeat split; reflexivity. Qed.

(** The sample run: the accepted document gets no submission, the other
    one gets one. *)
Example sample_run_submits_once :
  List.filter
    (fun c => match c with SendBusinessStatus _ _ => true | _ => false end)
    (calls (generateReport EcmaDate.parse_iso Sample.LocalTZA Sample.localeCompare
              Sample.remote initialState).2)
  = [SendBusinessStatus "in-2" "accepted"].
Proof. vm_compute. reflexivity. Qed.

(** The comparator of the invoice numbers is not consistent on every
    input: "3" is before "+5" as a number, "+5" before "," and "," before
    "3" as strings. *)
Example byInvoiceNumber_can_be_inconsistent :
  ~ JS.consistentOn (byInvoiceNumber Sample.localeCompare)
      [(Sample.match1, "3"); (Sample.match1, "+5"); (Sample.match1, ",")].
Proof.
  intros [_ Htrans].
  specialize (Htrans (Sample.match1, "3") (Sample.match1, "+5") (Sample.match1, ",")).
  assert (JS.before (byInvoiceNumber Sample.localeCompare)
            (Sample.match1, "3") (Sample.match1, ",")) as Hbad.
  { apply Htrans.
    - left.
    - right; left.
    - do 2 right; left.
    - vm_compute. discriminate.
    - vm_compute. discriminate. }
  vm_compute in Hbad. by apply Hbad.
Qed.

(** ** The further properties on the sample world *)

(** The sample world with an outage: the status list of "in-2" cannot be
    fetched. *)
Module Outage.

Definition remote : Remote :=
  {| inboundDocuments := inboundDocuments Sample.remote;
     outboundDocuments := outboundDocuments Sample.remote;
     documentXml := documentXml Sample.remote;
     inboundBusinessStatuses :=
       fun _ documentId =>
         if String.eqb documentId "in-2" then Throw Sample.notAllowed
         else Return (Sample.statusesOf documentId);
     businessStatusCreated := businessStatusCreated Sample.remote;
     randomIsLow := randomIsLow Sample.remote;
     typeErrorMessage := typeErrorMessage Sample.remote;
     outputDirReady := outputDirReady Sample.remote;
     reportWritten := reportWritten Sample.remote |}.

End Outage.

Lemma extractField_returns_element_content_witness :
  "12" <> "" /\ JS.occurs_in "<" "12" = false /\
  exists pre post,
    "<Invoice><cbc:ID>12</cbc:ID><cbc:Note>Consulting</cbc:Note></Invoice>"
    = pre +:+ ("<cbc:" +:+ "ID" +:+ ">") +:+ "12" +:+ ("</cbc:" +:+ "ID" +:+ ">") +:+ post.
Proof.
  apply (extractField_returns_element_content
           "<Invoice><cbc:ID>12</cbc:ID><cbc:Note>Consulting</cbc:Note></Invoice>" "ID" "12").
  - reflexivity.
  - vm_compute. reflexivity.
Defined.

Lemma extractField_finds_element_witness :
  is_Some (extractField "<Invoice><cbc:Note>a > b</cbc:Note></Invoice>" "Note") /\
  extractField "<cbc:Note>a > b</cbc:Note></Invoice>" "Note" = Some "a > b".
Proof.
  apply (extractField_finds_element "<Invoice>" "</Invoice>" "Note" "a > b").
  - reflexivity.
  - discriminate.
  - vm_compute. reflexivity.
Defined.

Lemma getLatestStatus_reads_first_of_the_latest_witness :
  getLatestStatus EcmaDate.parse_iso
    ([Sample.received] ++ Sample.accepted
       :: [Sample.status (Some "rejected") (Some "delivered") "2025-11-21T10:00:00Z"])
  = {| Latest.code := "accepted"; Latest.technicalStatus := "-" |}.
Proof.
  eapply (getLatestStatus_reads_first_of_the_latest EcmaDate.parse_iso
            [Sample.received] _ Sample.accepted).
  - repeat constructor; vm_compute; eauto.
  - vm_compute. reflexivity.
  - intros s t' ->%list_elem_of_singleton Ht'. vm_compute in Ht'. injection Ht' as <-.
    vm_compute. reflexivity.
  - intros s t' ->%list_elem_of_singleton Ht'. vm_compute in Ht'. injection Ht' as <-.
    vm_compute. discriminate.
Defined.

Lemma storeResult_records_result_witness :
  exists st',
    storeResult "in-2" "final" (sendResultOf Sample.remote "accepted" (Return (JS.Object Sample.created)))
      initialState = (Return tt, st') /\
    processResultOf st' "in-2" !! "final"
      = Some (sendResultOf Sample.remote "accepted" (Return (JS.Object Sample.created))) /\
    processResults st' !! "in-1" = None.
Proof.
  destruct (storeResult_records_result "in-2" "final" "in-1" "final"
              (sendResultOf Sample.remote "accepted" (Return (JS.Object Sample.created))) initialState)
    as (st' & Hrun & _ & Hfinal & _ & Hother); [discriminate|].
  exists st'. split; [exact Hrun|]. split; [exact Hfinal|].
  rewrite Hother; [reflexivity|discriminate].
Defined.

Lemma generateReport_submits_once_where_needed_witness :
  NoDup (sentIds (calls (generateReport EcmaDate.parse_iso Sample.LocalTZA Sample.localeCompare
                           Sample.remote initialState).2)) /\
  sentIds (calls (generateReport EcmaDate.parse_iso Sample.LocalTZA Sample.localeCompare
                    Sample.remote initialState).2)
  ≡ₚ ["in-2"].
Proof.
  pose (matches := [Sample.match1; Sample.match2]).
  pose (s0 := (fetchAndMatchDocuments Sample.remote initialState).2).
  pose (analysed := analyzeAllDocuments Sample.remote matches s0).
  pose (analysis := match analysed.1 with Return items => items | Throw _ => [] end).
  destruct (generateReport_submits_once_where_needed EcmaDate.parse_iso Sample.LocalTZA
              Sample.localeCompare Sample.remote matches analysis s0 analysed.2)
    as (nov28AndLater & beforeNov28 & s2 & _ & _ & Honce).
  - vm_compute. reflexivity.
  - vm_compute. reflexivity.
  - destruct Honce as [Hnodup Hperm].
    + apply (bool_decide_unpack _). vm_compute. exact I.
    + split; [exact Hnodup|]. rewrite Hperm. vm_compute. reflexivity.
Defined.

Lemma analyzeAllDocuments_entries_witness :
  exists analysis st',
    analyzeAllDocuments Sample.remote [Sample.match1; Sample.match2] initialState
      = (Return analysis, st') /\
    calls st' = [FetchInboundBusinessStatuses "in-1"; FetchInboundBusinessStatuses "in-2"] /\
    length analysis = 2%nat /\
    exists a, analysis !! 1%nat = Some a /\ analysedAt Sample.remote 1 Sample.match2 a.
Proof.
  pose (analysed := analyzeAllDocuments Sample.remote [Sample.match1; Sample.match2]
                      initialState).
  pose (analysis := match analysed.1 with Return items => items | Throw _ => [] end).
  exists analysis, analysed.2.
  assert (analyzeAllDocuments Sample.remote [Sample.match1; Sample.match2] initialState
          = (Return analysis, analysed.2)) as Hrun by (vm_compute; reflexivity).
  split; [exact Hrun|].
  destruct (analyzeAllDocuments_entries Sample.remote [Sample.match1; Sample.match2]
              analysis initialState analysed.2 Hrun)
    as (Hcalls & _ & Hlength & Hentries).
  split; [exact Hcalls|]. split; [exact Hlength|].
  apply (Hentries 1%nat Sample.match2). reflexivity.
Defined.

Lemma analyzeAllDocuments_stops_at_first_failure_witness :
  exists st',
    analyzeAllDocuments Outage.remote ([Sample.match1] ++ Sample.match2 :: []) initialState
      = (Throw Sample.notAllowed, st') /\
    calls st' = [FetchInboundBusinessStatuses "in-1"; FetchInboundBusinessStatuses "in-2"] /\
    processResults st' = ∅.
Proof.
  apply (analyzeAllDocuments_stops_at_first_failure Outage.remote
           [Sample.match1] [] Sample.match2 Sample.notAllowed initialState).
  - intros [|i] m' Hm'; [|discriminate Hm']. injection Hm' as <-.
    eexists. exists (Sample.statusesOf "in-1"), Sample.out1b.
    split; [reflexivity|]. split; reflexivity.
  - reflexivity.
Defined.

Lemma splitByDate_issue_date_decides_witness :
  (splitByDate EcmaDate.parse_iso Sample.LocalTZA Sample.remote
     ([] ++ Sample.match1 :: [Sample.match2]) cutoffDate initialState).1
  = Return ([Sample.match2], [Sample.match1]).
Proof.
  destruct (splitByDate_issue_date_decides EcmaDate.parse_iso Sample.LocalTZA Sample.remote
              cutoffDate [] [Sample.match2] Sample.match1 initialState
              ("<Invoice><cbc:ID>12</cbc:ID><cbc:IssueDate>2025-11-20</cbc:IssueDate>"
               +:+ "<cbc:Note>Consulting</cbc:Note></Invoice>")
              "2025-11-20")
    as (_ & a1 & b1 & a2 & b2 & st2 & Hpre & Hpost & Hall).
  - vm_compute. reflexivity.
  - vm_compute. reflexivity.
  - rewrite Hall. vm_compute in Hpre. vm_compute in Hpost.
    injection Hpre as <- <-. injection Hpost as <- <- _. reflexivity.
Defined.

Lemma report_fetches_and_failures_witness :
  printFinalResults EcmaDate.parse_iso Sample.localeCompare Sample.remote
    [Sample.match1; Sample.match2] initialState
  = (Return tt,
     {| calls := [FetchDocumentXml "in-1"; FetchDocumentXml "in-2";
                  FetchOutboundDocuments CONFIG.suppliers_outbound_id;
                  FetchInboundBusinessStatuses "in-2"; FetchDocumentXml "in-2";
                  FetchInboundBusinessStatuses "in-1"; FetchDocumentXml "in-1"];
        processResults := ∅ |}) /\
  exists st',
    saveReportToFile EcmaDate.parse_iso Sample.localeCompare Sample.remote
      [Sample.match1; Sample.match2] initialState = (Return tt, st') /\
    calls st' = [FetchDocumentXml "in-1"; FetchDocumentXml "in-2";
                 FetchOutboundDocuments CONFIG.suppliers_outbound_id;
                 FetchDocumentXml "in-2"; FetchInboundBusinessStatuses "in-2";
                 FetchDocumentXml "in-1"; FetchInboundBusinessStatuses "in-1"].
Proof.
  destruct (report_fetches_and_failures EcmaDate.parse_iso Sample.localeCompare Sample.remote
              [Sample.match1; Sample.match2] initialState)
    as (sorted & st1 & Hsort & _ & _ & Hprint & Hsave).
  - repeat constructor; eexists; reflexivity.
  - vm_compute in Hsort. injection Hsort as <- <-. split.
    + destruct Hprint as (st' & Hrun & Hcalls & Hresults). rewrite Hrun.
      destruct st' as [cs results]. cbn [calls processResults] in Hcalls, Hresults.
      rewrite Hcalls, Hresults. reflexivity.
    + destruct Hsave as (st' & Hrun & Hcalls & _). exists st'.
      split; [exact Hrun|]. rewrite Hcalls. reflexivity.
Defined.

Lemma countdown_sleeps_once_per_interval_witness :
  countdown 3 12000 5000 = Some [12000; 7000; 2000] /\
  countdown 2 12000 5000 = None.
Proof.
  split.
  - apply (countdown_sleeps_once_per_interval 3 12000 5000); vm_compute; congruence.
  - apply (countdown_sleeps_once_per_interval 2 12000 5000); vm_compute; congruence.
Defined.

Lemma handleWaitTime_waits_only_after_a_success_witness :
  exists fuel,
    handleWaitTime_sleeps fuel 2 CONFIG.finalStatusWaitTime
    = Some [30000; 25000; 20000; 15000; 10000; 5000].
Proof.
  apply (handleWaitTime_waits_only_after_a_success 2 CONFIG.finalStatusWaitTime).
  vm_compute. congruence.
Defined.

Lemma generateReport_actions_are_the_submissions_witness :
  formatActions
    (processResultOf
       (generateReport EcmaDate.parse_iso Sample.LocalTZA Sample.localeCompare
          Sample.remote initialState).2 "in-2")
  = ["accepted 👍"].
Proof.
  destruct (generateReport_actions_are_the_submissions EcmaDate.parse_iso Sample.LocalTZA
              Sample.localeCompare Sample.remote "in-2")
    as (_ & Hsubmitted & _).
  destruct Hsubmitted as (code & fin & Hlast & _ & Hfinal & _ & Hactions).
  - exists "accepted". apply list_elem_of_In. vm_compute. tauto.
  - rewrite Hactions. vm_compute in Hlast. injection Hlast as <-.
    vm_compute in Hfinal. injection Hfinal as <-. reflexivity.
Defined.

Lemma countdown_needs_a_positive_interval_witness :
  countdown 1000 30000 0 = None.
Proof. apply (countdown_needs_a_positive_interval 1000 30000 0); lia. Defined.


(** ** Further checks on concrete inputs *)

(** The sample world with a service that answers a submission with
    [null] where the resource should be. *)
Module NullAnswer.

Definition remote : Remote :=
  {| inboundDocuments := inboundDocuments Sample.remote;
     outboundDocuments := outboundDocuments Sample.remote;
     documentXml := documentXml Sample.remote;
     inboundBusinessStatuses := inboundBusinessStatuses Sample.remote;
     businessStatusCreated := fun _ _ _ => Return (JS.Nothing JS.null);
     randomIsLow := randomIsLow Sample.remote;
     typeErrorMessage := typeErrorMessage Sample.remote;
     outputDirReady := outputDirReady Sample.remote;
     reportWritten := reportWritten Sample.remote |}.

End NullAnswer.

Example sendStatus_on_a_null_answer :
  (sendStatus NullAnswer.remote "in-2" "accepted" initialState).1
  = Return {| success := false; statusCode := "accepted"; statusId := None;
              sentTechnicalStatus := None;
              error := Some "Cannot read properties of null (reading 'id')" |}.
Proof. vm_compute. reflexivity. Qed.

(** A match without an outbound document, which [findMatches] never
    builds: the reports throw where they first read it. *)
Example reports_throw_without_an_outbound_document :
  let m := {| Match.inbound := Sample.in3; Match.outbound := None;
              Match.transmissionId := None |} in
  (printFinalResults EcmaDate.parse_iso Sample.localeCompare Sample.remote [m] initialState).1
  = Throw {| Err.message := "Cannot destructure property 'id' of 'doc' as it is undefined.";
             Err.response := None |} /\
  (saveReportToFile EcmaDate.parse_iso Sample.localeCompare Sample.remote [m] initialState).1
  = Throw {| Err.message := "Cannot read properties of undefined (reading 'id')";
             Err.response := None |}.
Proof. vm_compute. split; reflexivity. Qed.

Example to_double_rounds_to_even :
  JS.to_double (2 ^ 53 + 1) = 2 ^ 53 /\ JS.to_double (2 ^ 53 + 3) = 2 ^ 53 + 4 /\
  JS.Number_sub (10 ^ 20) 5000 = 10 ^ 20.
Proof. vm_compute. repeat split; reflexivity. Qed.

(** Beyond the safe integers the countdown need not end: from 1e20 a step
    of five seconds is lost in the rounding. *)
Example countdown_from_1e20_never_ends (fuel : nat) : countdown fuel (10 ^ 20) 5000 = None.
Proof.
  induction fuel as [|fuel IH]; [reflexivity|].
  change (countdown (S fuel) (10 ^ 20) 5000)
    with ((fun rest => 10 ^ 20 :: rest) <$> countdown fuel (JS.Number_sub (10 ^ 20) 5000) 5000).
  replace (JS.Number_sub (10 ^ 20) 5000) with (10 ^ 20) by (vm_compute; reflexivity).
  by rewrite IH.
Qed.
